(** * STL_to_OBJ: a shallow embedding of [main.py]

    The conversion core of the tool (mesh cleanup, transform pipeline,
    statistics, output naming and the batch worker) is embedded as Rocq
    functions, and the properties of the specification are proved about
    them.  Everything the program takes from [trimesh], [numpy],
    [pathlib] and Qt is modelled explicitly and marked as such. *)

From Stdlib Require Import ZArith QArith Qminmax Lqa List String Ascii SpecFloat.
From stdpp Require Import base option list sorting gmap strings pretty.

Set Default Proof Using "Type".
Local Open Scope Z_scope.

(** ** Python exceptions and the in-place object monad *)

(** The exception classes that the code can meet ([Exception] subclasses
    only: [except Exception] does not catch anything else). *)
Inductive PyExc : Type :=
| ValueError (msg : string)
| TypeError (msg : string)
| IndexError (msg : string)
| OSError (msg : string)
| LibraryError (msg : string).

Inductive Exc (A : Type) : Type :=
| Ok (a : A)
| Raise (e : PyExc).
Arguments Ok {A} a.
Arguments Raise {A} e.

Definition exc_bind {A B} (x : Exc A) (k : A -> Exc B) : Exc B :=
  match x with
  | Ok a => k a
  | Raise e => Raise e
  end.

Definition is_ok {A} (x : Exc A) : bool :=
  match x with Ok _ => true | Raise _ => false end.

Fixpoint exc_mapM {A B} (f : A -> Exc B) (l : list A) : Exc (list B) :=
  match l with
  | [] => Ok []
  | a :: l' =>
      exc_bind (f a) (fun b => exc_bind (exc_mapM f l') (fun bs => Ok (b :: bs)))
  end.

(** A statement block that works on one mutable object of type [S]:
    it ends in a value or in an exception, and in both cases the object
    is left in the state the block reached (Python does not roll back). *)
Definition Py (S A : Type) : Type := S -> S * Exc A.

Definition py_ret {S A} (a : A) : Py S A := fun s => (s, Ok a).
Definition py_raise {S A} (e : PyExc) : Py S A := fun s => (s, Raise e).
Definition py_bind {S A B} (c : Py S A) (k : A -> Py S B) : Py S B :=
  fun s =>
    match c s with
    | (s', Ok a) => k a s'
    | (s', Raise e) => (s', Raise e)
    end.
Definition py_get {S} : Py S S := fun s => (s, Ok s).
Definition py_lift {S A} (x : Exc A) : Py S A := fun s => (s, x).

(** [try: c  except Exception: pass] *)
Definition try_pass {S} (c : Py S unit) : Py S unit :=
  fun s => (fst (c s), Ok tt).

Declare Scope py_scope.
Delimit Scope py_scope with py.
Notation "x <- c ;; k" := (py_bind c (fun x => k))
  (at level 100, c at next level, right associativity) : py_scope.
Notation "c ;;; k" := (py_bind c (fun _ => k))
  (at level 100, right associativity) : py_scope.

(** ** float64 arithmetic *)

(** The operations that the program performs on vertex coordinates.
    [F64] is IEEE binary64 as numpy computes it; [Q] is the same program
    read over exact rational arithmetic. *)
Class CoordOps (F : Type) : Type := {
  f_one : F;
  f_neg_one : F;
  f_half : F;
  f_mul : F -> F -> F;
  f_add : F -> F -> F;
  f_sub : F -> F -> F;
  f_neg : F -> F;
  f_eqb : F -> F -> bool;
  f_min : F -> F -> F;
  f_max : F -> F -> F;
  f_isfinite : F -> bool
}.

Module F64.

Definition prec : Z := 53.
Definition emax : Z := 1024.

Definition t : Type := spec_float.

Definition one : t := S754_finite false 4503599627370496 (-52).
Definition neg_one : t := S754_finite true 4503599627370496 (-52).
Definition half : t := S754_finite false 4503599627370496 (-53).
Definition zero : t := S754_zero false.
Definition inf : t := S754_infinity false.

Definition mul : t -> t -> t := SFmul prec emax.
Definition add : t -> t -> t := SFadd prec emax.
Definition sub : t -> t -> t := SFsub prec emax.
Definition div : t -> t -> t := SFdiv prec emax.
Definition neg : t -> t := SFopp.
Definition eqb : t -> t -> bool := SFeqb.

Definition is_nan (x : t) : bool :=
  match x with S754_nan => true | _ => false end.

(** [np.isfinite] *)
Definition isfinite (x : t) : bool :=
  match x with
  | S754_zero _ | S754_finite _ _ _ => true
  | S754_infinity _ | S754_nan => false
  end.

(** [np.minimum] and [np.maximum]: a NaN operand wins. *)
Definition minimum (a b : t) : t :=
  if is_nan a then a else if is_nan b then b
  else if SFltb b a then b else a.
Definition maximum (a b : t) : t :=
  if is_nan a then a else if is_nan b then b
  else if SFltb a b then b else a.

(** [float(k)] for an integer [k] *)
Definition of_Z (k : Z) : t := binary_normalize prec emax k 0 false.

(** [int(x)] for a finite [x]: truncation toward zero. *)
Definition trunc (x : t) : option Z :=
  match x with
  | S754_zero _ => Some 0
  | S754_finite s m e =>
      let mag := match e with
                 | Z0 => Zpos m
                 | Zpos p => Z.shiftl (Zpos m) (Zpos p)
                 | Zneg p => Z.shiftr (Zpos m) (Zpos p)
                 end in
      Some (if s then - mag else mag)
  | _ => None
  end.

End F64.

#[export] Instance F64_ops : CoordOps F64.t := {|
  f_one := F64.one;
  f_neg_one := F64.neg_one;
  f_half := F64.half;
  f_mul := F64.mul;
  f_add := F64.add;
  f_sub := F64.sub;
  f_neg := F64.neg;
  f_eqb := F64.eqb;
  f_min := F64.minimum;
  f_max := F64.maximum;
  f_isfinite := F64.isfinite
|}.

#[export] Instance Q_ops : CoordOps Q := {|
  f_one := 1%Q;
  f_neg_one := (-1)%Q;
  f_half := (1 # 2)%Q;
  f_mul := Qmult;
  f_add := Qplus;
  f_sub := Qminus;
  f_neg := Qopp;
  f_eqb := Qeq_bool;
  f_min := Qmin;
  f_max := Qmax;
  f_isfinite := fun _ => true
|}.

(** ** numpy indexing *)

Module Np.

(** [arr[i]] for one integer [i]: a negative index counts from the end,
    anything outside [-n, n) raises [IndexError]. *)
Definition norm_index (n : nat) (i : Z) : Exc nat :=
  if (0 <=? i) && (i <? Z.of_nat n) then Ok (Z.to_nat i)
  else if (- Z.of_nat n <=? i) && (i <? 0) then Ok (Z.to_nat (i + Z.of_nat n))
  else Raise (IndexError "index out of bounds").

Definition index {A} (arr : list A) (i : Z) : Exc A :=
  exc_bind (norm_index (length arr) i) (fun k =>
    match arr !! k with
    | Some a => Ok a
    | None => Raise (IndexError "index out of bounds")
    end).

(** [arr[idx]] for an integer array [idx] (fancy indexing) *)
Definition take {A} (arr : list A) (idx : list Z) : Exc (list A) :=
  exc_mapM (index arr) idx.

(** [arr[mask]] for a boolean array [mask] of the same length *)
Fixpoint compress {A} (mask : list bool) (arr : list A) : list A :=
  match mask, arr with
  | b :: mask', a :: arr' =>
      if b then a :: compress mask' arr' else compress mask' arr'
  | _, _ => []
  end.

Definition bool_index {A} (arr : list A) (mask : list bool) : Exc (list A) :=
  if Nat.eqb (length mask) (length arr) then Ok (compress mask arr)
  else Raise (IndexError "boolean index did not match indexed array").

(** [arr[idx] = vals], element by element; with repeated indices the
    last assignment wins. *)
Fixpoint put {A} (arr : list A) (idx : list Z) (vals : list A) : Exc (list A) :=
  match idx, vals with
  | i :: idx', v :: vals' =>
      exc_bind (norm_index (length arr) i) (fun k => put (<[k := v]> arr) idx' vals')
  | _, _ => Ok arr
  end.

(** [arr[idx] = v] for one scalar [v] *)
Definition put_scalar {A} (arr : list A) (idx : list Z) (v : A) : Exc (list A) :=
  put arr idx (replicate (length idx) v).

(** [arr[mask] = vals] for a boolean array [mask]: the k-th value goes
    to the k-th position where the mask is set. *)
Fixpoint put_mask {A} (arr : list A) (mask : list bool) (vals : list A) : list A :=
  match arr, mask with
  | a :: arr', b :: mask' =>
      if b then
        match vals with
        | v :: vals' => v :: put_mask arr' mask' vals'
        | [] => a :: put_mask arr' mask' []
        end
      else a :: put_mask arr' mask' vals
  | _, _ => arr
  end.

(** [arr[rows]] for a (k, 3) integer array [rows] *)
Definition take_rows {A} (arr : list A) (rows : list (Z * Z * Z)) : Exc (list (A * A * A)) :=
  exc_mapM (fun '(a, b, c) =>
    exc_bind (index arr a) (fun x =>
    exc_bind (index arr b) (fun y =>
    exc_bind (index arr c) (fun z => Ok (x, y, z))))) rows.

(** [rows.reshape(-1)] *)
Definition flatten_rows {A} (rows : list (A * A * A)) : list A :=
  flat_map (fun '(a, b, c) => [a; b; c]) rows.

(** [np.arange(n)] *)
Definition arange (n : nat) : list Z := seqZ 0 (Z.of_nat n).

(** [mask.all()] *)
Definition all (mask : list bool) : bool := forallb id mask.

(** [int(mask.sum())] *)
Definition count_true (mask : list bool) : nat := length (List.filter id mask).

(** [np.unique(a)] for a flat integer array: ascending, without repeats. *)
Definition unique (a : list Z) : list Z := remove_dups (merge_sort Z.le a).

End Np.

(** ** Data model *)

Definition Vec3 (F : Type) : Type := (F * F * F)%type.
Definition Face : Type := (Z * Z * Z)%type.

(** A [trimesh.Trimesh], as far as the program looks at it: the vertex
    array and the face array. *)
Record Trimesh (F : Type) : Type := mkTrimesh {
  vertices : list (Vec3 F);
  faces : list Face
}.
Arguments mkTrimesh {F} vertices faces.
Arguments vertices {F} t.
Arguments faces {F} t.

Record ConvertOptions (F : Type) : Type := mkOptions {
  merge_vertices : bool;
  validate_cleanup : bool;
  scale_factor : F;
  center_to_origin : bool;
  swap_yz : bool;
  flip_x : bool;
  flip_y : bool;
  flip_z : bool
}.
Arguments mkOptions {F}.
Arguments merge_vertices {F} c.
Arguments validate_cleanup {F} c.
Arguments scale_factor {F} c.
Arguments center_to_origin {F} c.
Arguments swap_yz {F} c.
Arguments flip_x {F} c.
Arguments flip_y {F} c.
Arguments flip_z {F} c.

Record MeshStats (F : Type) : Type := mkStats {
  stat_vertices : nat;
  stat_faces : nat;
  bounds_min : Vec3 F;
  bounds_max : Vec3 F;
  extents : Vec3 F
}.
Arguments mkStats {F}.
Arguments stat_vertices {F} m.
Arguments stat_faces {F} m.
Arguments bounds_min {F} m.
Arguments bounds_max {F} m.
Arguments extents {F} m.

(** What [m.nondegenerate_faces()] may hand back: nothing, a boolean
    mask, or an array of face indices. *)
Inductive KeepSpec : Type :=
| KeepMask (mask : list bool)
| KeepIdx (idx : list Z).

(** The optional methods of the installed trimesh version.  A field is
    [None] when [hasattr] answers [False]; a method works in place on
    the mesh and may raise. *)
Record TrimeshAPI (F : Type) : Type := mkAPI {
  api_remove_infinite_values : option (Py (Trimesh F) unit);
  api_remove_degenerate_faces : option (Py (Trimesh F) unit);
  api_nondegenerate_faces : option (Py (Trimesh F) (option KeepSpec));
  api_remove_duplicate_faces : option (Py (Trimesh F) unit);
  api_remove_unreferenced_vertices : option (Py (Trimesh F) unit);
  api_fix_normals : option (Py (Trimesh F) unit);
  api_merge_vertices : Py (Trimesh F) unit
}.
Arguments mkAPI {F}.
Arguments api_remove_infinite_values {F} t.
Arguments api_remove_degenerate_faces {F} t.
Arguments api_nondegenerate_faces {F} t.
Arguments api_remove_duplicate_faces {F} t.
Arguments api_remove_unreferenced_vertices {F} t.
Arguments api_fix_normals {F} t.
Arguments api_merge_vertices {F} t.

Section Core.
Context {F : Type} {ops : CoordOps F}.

Local Open Scope py_scope.

(** [m.vertices = v] and [m.faces = f] *)
Definition set_vertices (v : list (Vec3 F)) : Py (Trimesh F) unit :=
  fun m => (mkTrimesh v (faces m), Ok tt).
Definition set_faces (f : list Face) : Py (Trimesh F) unit :=
  fun m => (mkTrimesh (vertices m) f, Ok tt).

(** Modelled from the spec: trimesh's [Trimesh.update_faces(mask)], which
    is not part of this repository, keeps the faces at which the boolean
    mask is set, in their order; a mask of another length is an
    [IndexError] of the boolean indexing. *)
Definition update_faces (mask : list bool) : Py (Trimesh F) unit :=
  m <- py_get ;;
  f <- py_lift (Np.bool_index (faces m) mask) ;;
  set_faces f.

(** Modelled from the spec: trimesh's [Trimesh.bounds], which is not part
    of this repository, is the per-axis minimum and maximum over all
    vertex coordinates, and is undefined ([None]) for a mesh without
    vertices. *)
Definition vmin (a b : Vec3 F) : Vec3 F :=
  let '(ax, ay, az) := a in let '(bx, by_, bz) := b in
  (f_min ax bx, f_min ay by_, f_min az bz).
Definition vmax (a b : Vec3 F) : Vec3 F :=
  let '(ax, ay, az) := a in let '(bx, by_, bz) := b in
  (f_max ax bx, f_max ay by_, f_max az bz).
Definition bounds (m : Trimesh F) : option (Vec3 F * Vec3 F) :=
  match vertices m with
  | [] => None
  | v :: vs => Some (fold_left vmin vs v, fold_left vmax vs v)
  end.

(** [b[0]] and [b[1]] on what [bounds] gave: subscripting [None] is a
    [TypeError]. *)
Definition subscript {A} (b : option (A * A)) (i : bool) : Exc A :=
  match b with
  | Some (lo, hi) => Ok (if i then hi else lo)
  | None => Raise (TypeError "'NoneType' object is not subscriptable")
  end.

Definition vadd (a b : Vec3 F) : Vec3 F :=
  let '(ax, ay, az) := a in let '(bx, by_, bz) := b in
  (f_add ax bx, f_add ay by_, f_add az bz).
Definition vsub (a b : Vec3 F) : Vec3 F :=
  let '(ax, ay, az) := a in let '(bx, by_, bz) := b in
  (f_sub ax bx, f_sub ay by_, f_sub az bz).
Definition vscale (a : Vec3 F) (s : F) : Vec3 F :=
  let '(ax, ay, az) := a in (f_mul ax s, f_mul ay s, f_mul az s).
Definition vneg (a : Vec3 F) : Vec3 F :=
  let '(ax, ay, az) := a in (f_neg ax, f_neg ay, f_neg az).

(** Modelled from the spec: trimesh's [Trimesh.apply_translation(t)],
    which is not part of this repository, adds [t] to every vertex. *)
Definition apply_translation (t : Vec3 F) : Py (Trimesh F) unit :=
  m <- py_get ;;
  set_vertices (map (fun v => vadd v t) (vertices m)).

(** *** StatsComputer: [safe_mesh_stats] *)

Definition safe_mesh_stats (mesh : Trimesh F) : Exc (MeshStats F) :=
  let b := bounds mesh in
  exc_bind (subscript b false) (fun bmin =>
  exc_bind (subscript b true) (fun bmax =>
  exc_bind (subscript b true) (fun b1 =>
  exc_bind (subscript b false) (fun b0 =>
  let ext := vsub b1 b0 in
  Ok (mkStats (length (vertices mesh)) (length (faces mesh)) bmin bmax ext))))).

(** *** TransformPipeline: [apply_transforms] *)

Definition swap_columns_yz (v : Vec3 F) : Vec3 F :=
  let '(x, y, z) := v in (x, z, y).
Definition flip_column_x (v : Vec3 F) : Vec3 F :=
  let '(x, y, z) := v in (f_mul x f_neg_one, y, z).
Definition flip_column_y (v : Vec3 F) : Vec3 F :=
  let '(x, y, z) := v in (x, f_mul y f_neg_one, z).
Definition flip_column_z (v : Vec3 F) : Vec3 F :=
  let '(x, y, z) := v in (x, y, f_mul z f_neg_one).

(** Lines 370-383: the copied vertex array after swap, flips and scale. *)
Definition transformed_vertices (V : list (Vec3 F)) (opt : ConvertOptions F)
  : list (Vec3 F) :=
  let V := if swap_yz opt then map swap_columns_yz V else V in
  let V := if flip_x opt then map flip_column_x V else V in
  let V := if flip_y opt then map flip_column_y V else V in
  let V := if flip_z opt then map flip_column_z V else V in
  let V := if negb (f_eqb (scale_factor opt) f_one)
           then map (fun v => vscale v (scale_factor opt)) V else V in
  V.

Definition apply_transforms (mesh : Trimesh F) (opt : ConvertOptions F)
  : Exc (Trimesh F) :=
  let m := mesh in
  let V := transformed_vertices (vertices m) opt in
  let m := fst (set_vertices V m) in
  if center_to_origin opt then
    let b := bounds m in
    exc_bind (subscript b false) (fun b0 =>
    exc_bind (subscript b true) (fun b1 =>
    let center := vscale (vadd b0 b1) f_half in
    match apply_translation (vneg center) m with
    | (m', Ok _) => Ok m'
    | (_, Raise e) => Raise e
    end))
  else Ok m.

End Core.

(** ** MeshCleaner: [cleanup_mesh] *)

Section Cleaner.
Context {F : Type} {ops : CoordOps F}.
Variable api : TrimeshAPI F.

Local Open Scope py_scope.

(** [np.isfinite(v).all(axis=1)] *)
Definition finite_row (v : Vec3 F) : bool :=
  let '(x, y, z) := v in f_isfinite x && f_isfinite y && f_isfinite z.

(** [rows.all(axis=1)] *)
Definition all_row (r : bool * bool * bool) : bool :=
  let '(a, b, c) := r in a && b && c.

(** Pass 1, the explicit filter (lines 268-281). *)
Definition nonfinite_fallback : Py (Trimesh F) unit :=
  m <- py_get ;;
  let v := vertices m in
  let finite_mask := map finite_row v in
  if negb (Np.all finite_mask) then
    let new_index := replicate (length finite_mask) (-1) in
    let new_index :=
      Np.put_mask new_index finite_mask (Np.arange (Np.count_true finite_mask)) in
    let faces0 := faces m in
    rows <- py_lift (Np.take_rows finite_mask faces0) ;;
    let face_mask := map all_row rows in
    let faces1 := Np.compress face_mask faces0 in
    faces2 <- py_lift (Np.take_rows new_index faces1) ;;
    (set_vertices (Np.compress finite_mask v) ;;;
     set_faces faces2)
  else py_ret tt.

Definition pass_nonfinite : Py (Trimesh F) unit :=
  match api_remove_infinite_values api with
  | Some remove_infinite_values => try_pass remove_infinite_values
  | None => try_pass nonfinite_fallback
  end.

(** Pass 2, the last resort (lines 303-309). *)
Definition distinct_indices (f : Face) : bool :=
  let '(a, b, c) := f in
  negb (a =? b) && negb (b =? c) && negb (a =? c).

Definition degenerate_last_resort : Py (Trimesh F) unit :=
  m <- py_get ;;
  let f := faces m in
  let face_mask := map distinct_indices f in
  update_faces face_mask.

(** Pass 2 through [nondegenerate_faces] (lines 292-300). *)
Definition face_mask_of_keep (n_faces : nat) (keep : KeepSpec) : Exc (list bool) :=
  match keep with
  | KeepMask k => Ok k
  | KeepIdx idx => Np.put_scalar (replicate n_faces false) idx true
  end.

Definition degenerate_via_keep (nondegenerate_faces : Py (Trimesh F) (option KeepSpec))
  : Py (Trimesh F) unit :=
  keep <- nondegenerate_faces ;;
  match keep with
  | None => py_ret tt
  | Some keep =>
      m <- py_get ;;
      face_mask <- py_lift (face_mask_of_keep (length (faces m)) keep) ;;
      update_faces face_mask
  end.

(** What stands inside the [try] of pass 2. *)
Definition block_degenerate : Py (Trimesh F) unit :=
  match api_remove_degenerate_faces api with
  | Some remove_degenerate_faces => remove_degenerate_faces
  | None =>
      match api_nondegenerate_faces api with
      | Some nondegenerate_faces => degenerate_via_keep nondegenerate_faces
      | None => degenerate_last_resort
      end
  end.

Definition pass_degenerate : Py (Trimesh F) unit := try_pass block_degenerate.

(** Pass 3, the explicit algorithm (lines 320-329). *)

(** [np.sort(faces, axis=1)] on one row *)
Definition sort_row (f : Face) : Face :=
  let '(a, b, c) := f in
  let '(a, b) := if a <=? b then (a, b) else (b, a) in
  let '(b, c) := if b <=? c then (b, c) else (c, b) in
  let '(a, b) := if a <=? b then (a, b) else (b, a) in
  (a, b, c).

Definition face_eqb (f g : Face) : bool :=
  let '(a, b, c) := f in let '(x, y, z) := g in
  (a =? x) && (b =? y) && (c =? z).

(** [np.unique(rows, return_index=True)[1]]: for every distinct row the
    index of its first occurrence.  numpy lists them in the order of the
    sorted rows; they are used only to set mask entries, so they are
    listed here by position. *)
Fixpoint unique_index_from (i : Z) (seen rows : list Face) : list Z :=
  match rows with
  | [] => []
  | r :: rows' =>
      if existsb (face_eqb r) seen then unique_index_from (i + 1) seen rows'
      else i :: unique_index_from (i + 1) (r :: seen) rows'
  end.
Definition unique_index (rows : list Face) : list Z := unique_index_from 0 [] rows.

Definition duplicate_fallback : Py (Trimesh F) unit :=
  m <- py_get ;;
  let faces0 := faces m in
  if (0 <? length faces0)%nat then
    let canonical := map sort_row faces0 in
    let unique_idx := unique_index canonical in
    let face_mask := replicate (length faces0) false in
    face_mask <- py_lift (Np.put_scalar face_mask unique_idx true) ;;
    update_faces face_mask
  else py_ret tt.

Definition block_duplicate : Py (Trimesh F) unit :=
  match api_remove_duplicate_faces api with
  | Some remove_duplicate_faces => remove_duplicate_faces
  | None => duplicate_fallback
  end.

Definition pass_duplicate : Py (Trimesh F) unit := try_pass block_duplicate.

(** Pass 4, the explicit algorithm (lines 340-346). *)
Definition unreferenced_fallback : Py (Trimesh F) unit :=
  m <- py_get ;;
  let faces0 := faces m in
  let used := Np.unique (Np.flatten_rows faces0) in
  let new_index := replicate (length (vertices m)) (-1) in
  new_index <- py_lift (Np.put new_index used (Np.arange (length used))) ;;
  v <- py_lift (Np.take (vertices m) used) ;;
  (set_vertices v ;;;
   (f <- py_lift (Np.take_rows new_index faces0) ;;
    set_faces f)).

Definition block_unreferenced : Py (Trimesh F) unit :=
  match api_remove_unreferenced_vertices api with
  | Some remove_unreferenced_vertices => remove_unreferenced_vertices
  | None => unreferenced_fallback
  end.

Definition pass_unreferenced : Py (Trimesh F) unit := try_pass block_unreferenced.

(** Pass 5 (lines 353-357). *)
Definition block_normals : Py (Trimesh F) unit :=
  match api_fix_normals api with
  | Some fix_normals => fix_normals
  | None => py_ret tt
  end.

Definition pass_normals : Py (Trimesh F) unit := try_pass block_normals.

(** What stands inside the [try] of pass 1, in either branch. *)
Definition block_nonfinite : Py (Trimesh F) unit :=
  match api_remove_infinite_values api with
  | Some remove_infinite_values => remove_infinite_values
  | None => nonfinite_fallback
  end.

Definition cleanup_passes : Py (Trimesh F) unit :=
  pass_nonfinite ;;;
  pass_degenerate ;;;
  pass_duplicate ;;;
  pass_unreferenced ;;;
  pass_normals.

Definition cleanup_mesh (mesh : Trimesh F) : Exc (Trimesh F) :=
  let m := mesh in
  match cleanup_passes m with
  | (m', Ok _) => Ok m'
  | (_, Raise e) => Raise e
  end.

End Cleaner.

(** ** Paths, strings and the disk *)

(** A [pathlib.Path] of a file: the folder it lies in and its name. *)
Record Path : Type := mkPath {
  parent : string;
  name : string
}.

#[export] Instance Path_eq_dec : EqDecision Path.
Proof. solve_decision. Defined.

#[export] Instance Path_countable : Countable Path :=
  inj_countable' (fun p => (parent p, name p)) (fun q => mkPath q.1 q.2)
    (fun p => match p with mkPath _ _ => eq_refl end).

Module Str.

Definition lower_ascii (c : ascii) : ascii :=
  let n := nat_of_ascii c in
  if (65 <=? n)%nat && (n <=? 90)%nat then ascii_of_nat (n + 32) else c.

(** Lowering of the letters A to Z, every other character kept: what
    [s.lower()] gives on ASCII text. *)
Fixpoint ascii_lower (s : string) : string :=
  match s with
  | EmptyString => EmptyString
  | String c s' => String (lower_ascii c) (ascii_lower s')
  end.

(** What [s.lower()] gives on text in UTF-8 whose letters are ASCII or
    Latin-1: the letters A to Z, and the second byte of the capital
    letters U+00C0 to U+00DE (without the sign U+00D7), which follows
    the byte 195. *)
Definition lower_latin (after_195 : bool) (c : ascii) : ascii :=
  let n := nat_of_ascii c in
  if after_195 && (128 <=? n)%nat && (n <=? 158)%nat && negb (n =? 151)%nat
  then ascii_of_nat (n + 32) else lower_ascii c.

Fixpoint latin_lower_from (after_195 : bool) (s : string) : string :=
  match s with
  | EmptyString => EmptyString
  | String c s' =>
      String (lower_latin after_195 c)
        (latin_lower_from (nat_of_ascii c =? 195)%nat s')
  end.

Definition latin_lower (s : string) : string := latin_lower_from false s.

(** The decimal digits *)
Definition is_digit (c : ascii) : bool :=
  let n := nat_of_ascii c in (48 <=? n)%nat && (n <=? 57)%nat.

Fixpoint all_digits (s : string) : bool :=
  match s with
  | EmptyString => true
  | String c s' => is_digit c && all_digits s'
  end.

(** The ASCII characters that [str.strip()] removes. *)
Definition is_space (c : ascii) : bool :=
  let n := nat_of_ascii c in
  ((9 <=? n)%nat && (n <=? 13)%nat) || ((28 <=? n)%nat && (n <=? 32)%nat).

Fixpoint lstrip (s : string) : string :=
  match s with
  | EmptyString => EmptyString
  | String c s' => if is_space c then lstrip s' else s
  end.

(** [s.rstrip()]: a character stays when it is not a space or when
    something stays behind it. *)
Fixpoint rstrip (s : string) : string :=
  match s with
  | EmptyString => EmptyString
  | String c s' =>
      match rstrip s' with
      | EmptyString => if is_space c then EmptyString else String c EmptyString
      | r => String c r
      end
  end.

Definition strip (s : string) : string := rstrip (lstrip s).

(** [bool(s)] *)
Definition truthy (s : string) : bool :=
  match s with EmptyString => false | _ => true end.

(** [f"{n:02d}"] for [n >= 0] *)
Definition fmt_02d (n : nat) : string :=
  let s := pretty n in
  if (String.length s <? 2)%nat then ("0" ++ s)%string else s.

(** [s.rfind(".")], as the number of characters before the last dot *)
Fixpoint rfind_dot (s : string) : option nat :=
  match s with
  | EmptyString => None
  | String c s' =>
      match rfind_dot s' with
      | Some i => Some (S i)
      | None => if Ascii.eqb c "." then Some 0%nat else None
      end
  end.

(** [s.split("/")] *)
Fixpoint split_slash (s : string) : list string :=
  match s with
  | EmptyString => [EmptyString]
  | String c s' =>
      if Ascii.eqb c "/" then EmptyString :: split_slash s'
      else match split_slash s' with
           | h :: t => String c h :: t
           | [] => [String c EmptyString]
           end
  end.

(** No slash in the text *)
Fixpoint no_slash (s : string) : bool :=
  match s with
  | EmptyString => true
  | String c s' => negb (Ascii.eqb c "/") && no_slash s'
  end.

(** ["/".join(parts)] *)
Fixpoint join_slash (parts : list string) : string :=
  match parts with
  | [] => EmptyString
  | [p] => p
  | p :: ps => (p ++ "/" ++ join_slash ps)%string
  end.

(** A component that pathlib keeps when it reads a path text: not empty
    and not a single dot. *)
Definition kept (c : string) : bool :=
  negb (String.eqb c "") && negb (String.eqb c ".").

(** The components of a path text, as [PurePosixPath(s).parts] without
    the root. *)
Definition parts (s : string) : list string := List.filter kept (split_slash s).

(** The root of a path text: one slash, or two when the text begins
    with exactly two. *)
Definition root (s : string) : string :=
  match s with
  | String "/" (String "/" (String "/" _)) => "/"
  | String "/" (String "/" _) => "//"
  | String "/" _ => "/"
  | _ => EmptyString
  end.

End Str.

(** Python's [str.lower], which is not part of this repository, is
    taken as a parameter.  It knows all of Unicode; all that is used of
    it here is that two names that differ only in a number between the
    last underscore and [.obj] stay different when lowered. *)
Class CaseFold : Type := {
  py_lower : string -> string;
  py_lower_numbered :
    forall s x y : string,
      Str.all_digits x = true -> Str.all_digits y = true ->
      py_lower (s ++ "_" ++ x ++ ".obj")%string = py_lower (s ++ "_" ++ y ++ ".obj")%string ->
      x = y
}.

(** The case folding of ASCII text, for the examples: on names made of
    ASCII characters [str.lower] is [Str.ascii_lower]. *)
Definition ascii_fold : CaseFold.
Proof.
  refine {| py_lower := Str.ascii_lower |}.
  assert (forall c, Str.is_digit c = true ->
            Str.lower_ascii c = c /\ c <> "."%char) as Hdigit.
  { intros c. destruct c as [[] [] [] [] [] [] [] []]; (discriminate || (split; [reflexivity|discriminate])). }
  assert (forall x y, Str.all_digits x = true -> Str.all_digits y = true ->
            Str.ascii_lower (x ++ ".obj") = Str.ascii_lower (y ++ ".obj") -> x = y) as Htail.
  { induction x as [|a x IH]; intros [|b y] Hx Hy.
    - reflexivity.
    - apply andb_prop in Hy as [Hb _]. destruct (Hdigit b Hb) as [Hl Hne].
      change (Str.ascii_lower ("" ++ ".obj")) with ".obj"%string.
      change (Str.ascii_lower (String b y ++ ".obj"))
        with (String (Str.lower_ascii b) (Str.ascii_lower (y ++ ".obj"))).
      rewrite Hl. intros H. injection H as H _. congruence.
    - apply andb_prop in Hx as [Ha _]. destruct (Hdigit a Ha) as [Hl Hne].
      change (Str.ascii_lower ("" ++ ".obj")) with ".obj"%string.
      change (Str.ascii_lower (String a x ++ ".obj"))
        with (String (Str.lower_ascii a) (Str.ascii_lower (x ++ ".obj"))).
      rewrite Hl. intros H. injection H as H _. congruence.
    - apply andb_prop in Hx as [Ha Hx]. apply andb_prop in Hy as [Hb Hy].
      destruct (Hdigit a Ha) as [Hla _]. destruct (Hdigit b Hb) as [Hlb _].
      change (Str.ascii_lower (String a x ++ ".obj"))
        with (String (Str.lower_ascii a) (Str.ascii_lower (x ++ ".obj"))).
      change (Str.ascii_lower (String b y ++ ".obj"))
        with (String (Str.lower_ascii b) (Str.ascii_lower (y ++ ".obj"))).
      rewrite Hla, Hlb. intros H. injection H as -> H. f_equal. by apply IH. }
  intros s x y Hx Hy. induction s as [|c s IH].
  - change (Str.ascii_lower ("" ++ "_" ++ x ++ ".obj"))
      with (String "_" (Str.ascii_lower (x ++ ".obj"))).
    change (Str.ascii_lower ("" ++ "_" ++ y ++ ".obj"))
      with (String "_" (Str.ascii_lower (y ++ ".obj"))).
    intros H. injection H as H. by apply Htail.
  - change (Str.ascii_lower (String c s ++ "_" ++ x ++ ".obj"))
      with (String (Str.lower_ascii c) (Str.ascii_lower (s ++ "_" ++ x ++ ".obj"))).
    change (Str.ascii_lower (String c s ++ "_" ++ y ++ ".obj"))
      with (String (Str.lower_ascii c) (Str.ascii_lower (s ++ "_" ++ y ++ ".obj"))).
    intros H. injection H as H. by apply IH.
Defined.

(** The case folding of text with accented Latin-1 letters. *)
Definition latin_fold : CaseFold.
Proof.
  refine {| py_lower := Str.latin_lower |}.
  assert (forall c b, Str.is_digit c = true ->
            Str.lower_latin b c = c /\ c <> "."%char /\
            (nat_of_ascii c =? 195)%nat = false) as Hdigit.
  { intros c b. destruct c as [[] [] [] [] [] [] [] []]; destruct b;
      (discriminate || (split; [reflexivity|split; [discriminate|reflexivity]])). }
  assert (forall x y, Str.all_digits x = true -> Str.all_digits y = true ->
            Str.latin_lower_from false (x ++ ".obj")
            = Str.latin_lower_from false (y ++ ".obj") -> x = y) as Htail.
  { induction x as [|a x IH]; intros [|b y] Hx Hy.
    - reflexivity.
    - apply andb_prop in Hy as [Hb _]. destruct (Hdigit b false Hb) as (Hl & Hne & _).
      change (Str.latin_lower_from false ("" ++ ".obj")) with ".obj"%string.
      change (Str.latin_lower_from false (String b y ++ ".obj"))
        with (String (Str.lower_latin false b)
                (Str.latin_lower_from (nat_of_ascii b =? 195)%nat (y ++ ".obj"))).
      rewrite Hl. intros H. injection H as H _. congruence.
    - apply andb_prop in Hx as [Ha _]. destruct (Hdigit a false Ha) as (Hl & Hne & _).
      change (Str.latin_lower_from false ("" ++ ".obj")) with ".obj"%string.
      change (Str.latin_lower_from false (String a x ++ ".obj"))
        with (String (Str.lower_latin false a)
                (Str.latin_lower_from (nat_of_ascii a =? 195)%nat (x ++ ".obj"))).
      rewrite Hl. intros H. injection H as H _. congruence.
    - apply andb_prop in Hx as [Ha Hx]. apply andb_prop in Hy as [Hb Hy].
      destruct (Hdigit a false Ha) as (Hla & _ & Hfa).
      destruct (Hdigit b false Hb) as (Hlb & _ & Hfb).
      change (Str.latin_lower_from false (String a x ++ ".obj"))
        with (String (Str.lower_latin false a)
                (Str.latin_lower_from (nat_of_ascii a =? 195)%nat (x ++ ".obj"))).
      change (Str.latin_lower_from false (String b y ++ ".obj"))
        with (String (Str.lower_latin false b)
                (Str.latin_lower_from (nat_of_ascii b =? 195)%nat (y ++ ".obj"))).
      rewrite Hla, Hlb, Hfa, Hfb. intros H. injection H as -> H. f_equal. by apply IH. }
  intros s x y Hx Hy. unfold Str.latin_lower.
  assert (forall flag,
            Str.latin_lower_from flag (s ++ "_" ++ x ++ ".obj")
            = Str.latin_lower_from flag (s ++ "_" ++ y ++ ".obj") -> x = y) as Hall;
    [|apply Hall].
  induction s as [|c s IH]; intros flag.
  - change (Str.latin_lower_from flag ("" ++ "_" ++ x ++ ".obj"))
      with (String (Str.lower_latin flag "_") (Str.latin_lower_from false (x ++ ".obj"))).
    change (Str.latin_lower_from flag ("" ++ "_" ++ y ++ ".obj"))
      with (String (Str.lower_latin flag "_") (Str.latin_lower_from false (y ++ ".obj"))).
    intros H. injection H as H. by apply Htail.
  - change (Str.latin_lower_from flag (String c s ++ "_" ++ x ++ ".obj"))
      with (String (Str.lower_latin flag c)
              (Str.latin_lower_from (nat_of_ascii c =? 195)%nat (s ++ "_" ++ x ++ ".obj"))).
    change (Str.latin_lower_from flag (String c s ++ "_" ++ y ++ ".obj"))
      with (String (Str.lower_latin flag c)
              (Str.latin_lower_from (nat_of_ascii c =? 195)%nat (s ++ "_" ++ y ++ ".obj"))).
    intros H. injection H as H. by apply (IH _ H).
Defined.

(** [p.stem] of pathlib: the name up to its last dot, unless that dot is
    the first or the last character. *)
Definition stem (p : Path) : string :=
  let nm := name p in
  match Str.rfind_dot nm with
  | Some i =>
      if (0 <? i)%nat && (i <? String.length nm - 1)%nat
      then String.substring 0 i nm else nm
  | None => nm
  end.

(** [folder / candidate] of pathlib, on POSIX path texts: a candidate
    that begins with a slash replaces the folder, otherwise its
    components follow those of the folder; empty components and single
    dots are dropped, [..] is kept.  The last component is the name,
    the others make up the parent, which is [.] when there is none. *)
Definition joinpath (folder candidate : string) : Path :=
  let '(rt, ps) :=
    if Str.truthy (Str.root candidate)
    then (Str.root candidate, Str.parts candidate)
    else (Str.root folder, (Str.parts folder ++ Str.parts candidate)%list) in
  let dir := (rt ++ Str.join_slash (removelast ps))%string in
  mkPath (if Str.truthy dir then dir else ".") (List.last ps EmptyString).

(** [str(Path(folder))]: the text of a folder as pathlib writes it. *)
Definition path_text (folder : string) : string :=
  let dir := (Str.root folder ++ Str.join_slash (Str.parts folder))%string in
  if Str.truthy dir then dir else ".".

(** ** OutputNamer: [MainWindow._build_conversion_list] *)

Section Namer.
Context {fold : CaseFold}.

(** The paths that exist on disk when the list is built, and the paths
    at which the operating system refuses the question, with its
    message. *)
Variable existing : gset Path.
Variable stat_error : Path -> option string.

(** The widgets read by the method. *)
Variable selected : list Path.        (* [self.file_list.selectedItems()] *)
Variable all_items : list Path.       (* every item of [self.file_list] *)
Variable out_dir_text : string.       (* [self.out_dir.text()] *)
Variable naming_index : Z.            (* [self.naming_mode.currentIndex()] *)
Variable custom_name_text : string.   (* [self.custom_name.text()] *)

Local Open Scope string_scope.

(** [p.exists()] of pathlib, up to Python 3.12: a missing file is
    [False]; any other error of the [stat] call (a name that is too
    long, a folder that may not be searched) is raised as [OSError]. *)
Definition path_exists (p : Path) : Exc bool :=
  match stat_error p with
  | Some msg => Raise (OSError msg)
  | None => Ok (bool_decide (p ∈ existing))
  end.

Definition use_items : list Path :=
  match selected with [] => all_items | _ => selected end.

Definition out_dir : option string :=
  let out_base := Str.strip out_dir_text in
  if Str.truthy out_base then Some out_base else None.

Definition custom_base : string := Str.strip custom_name_text.

(** The stem chosen for the job numbered [idx] (lines 918-929). *)
Definition out_name_of (n idx : nat) (inp : Path) : Exc string :=
  if (naming_index =? 0)%Z then Ok (stem inp)
  else if (naming_index =? 1)%Z then Ok (stem inp ++ "_converted")
  else
    if negb (Str.truthy custom_base)
    then Raise (ValueError "Custom name selected but no name provided.")
    else
      let out_name := custom_base in
      Ok (if (1 <? n)%nat then out_name ++ "_" ++ Str.fmt_02d idx else out_name).

(** The test of the [while] loop (line 936); [or] asks the disk only
    when the name is not among the used ones. *)
Definition taken (used_names : gset string) (out_folder candidate : string) : Exc bool :=
  if bool_decide (py_lower candidate ∈ used_names) then Ok true
  else path_exists (joinpath out_folder candidate).

(** The [while] loop (lines 934-938); [None] when the fuel runs out. *)
Fixpoint resolve_loop (fuel : nat) (used_names : gset string)
  (out_folder out_name : string) (counter : nat) (candidate : string)
  : option (Exc string) :=
  match fuel with
  | O => None
  | S fuel' =>
      match taken used_names out_folder candidate with
      | Raise e => Some (Raise e)
      | Ok true =>
          resolve_loop fuel' used_names out_folder out_name (S counter)
            (out_name ++ "_" ++ pretty counter ++ ".obj")
      | Ok false => Some (Ok candidate)
      end
  end.

(** No more names can be taken than the disk and the run hold, so this
    many rounds are enough. *)
Definition resolve_fuel (used_names : gset string) : nat :=
  size used_names + size existing + 2.

(** The [for] loop (lines 914-941). *)
Fixpoint build_loop (n idx : nat) (items : list Path) (used_names : gset string)
  (pairs : list (Path * Path)) : option (Exc (list (Path * Path))) :=
  match items with
  | [] => Some (Ok pairs)
  | inp :: items' =>
      let out_folder := match out_dir with Some d => d | None => parent inp end in
      match out_name_of n idx inp with
      | Raise e => Some (Raise e)
      | Ok out_name =>
          let final_name := out_name ++ ".obj" in
          match resolve_loop (resolve_fuel used_names) used_names out_folder out_name
                  1 final_name with
          | None => None
          | Some (Raise e) => Some (Raise e)
          | Some (Ok candidate) =>
              build_loop n (S idx) items' ({[py_lower candidate]} ∪ used_names)
                (pairs ++ [(inp, joinpath out_folder candidate)])
          end
      end
  end.

Definition _build_conversion_list : option (Exc (list (Path * Path))) :=
  match use_items with
  | [] => Some (Ok [])
  | _ => build_loop (length use_items) 1 use_items ∅ []
  end.

End Namer.

(** ** MeshLoader, [convert_one] and the batch worker *)

(** One unit of a loaded scene. *)
Inductive Geometry (F : Type) : Type :=
| GeomMesh (m : Trimesh F)
| GeomOther.
Arguments GeomMesh {F} m.
Arguments GeomOther {F}.

(** What [trimesh.load] returns. *)
Inductive Loaded (F : Type) : Type :=
| LoadedMesh (m : Trimesh F)
| LoadedScene (geometry : list (string * Geometry F))
| LoadedOther (type_name : string).
Arguments LoadedMesh {F} m.
Arguments LoadedScene {F} geometry.
Arguments LoadedOther {F} type_name.

Inductive File (F : Type) : Type :=
| StlFile (content : Loaded F)
| ObjFile (m : Trimesh F).
Arguments StlFile {F} content.
Arguments ObjFile {F} m.

(** The file system: the files, and the folders that refuse writing. *)
Record Disk (F : Type) : Type := mkDisk {
  files : gmap Path (File F);
  write_denied : gset string
}.
Arguments mkDisk {F} files write_denied.
Arguments files {F} d.
Arguments write_denied {F} d.

(** The world of the worker thread: the disk and the time, counted in
    finished stages. *)
Record World (F : Type) : Type := mkWorld {
  disk : Disk F;
  clock : nat
}.
Arguments mkWorld {F} disk clock.
Arguments disk {F} w.
Arguments clock {F} w.

Inductive LogLine (F : Type) : Type :=
| LogText (text : string)
| LogExported (out_name : string) (stats : MeshStats F)
| LogTraceback (e : PyExc).
Arguments LogText {F} text.
Arguments LogExported {F} out_name stats.
Arguments LogTraceback {F} e.

(** The three signals of [ConvertWorker]. *)
Inductive Signal (F : Type) : Type :=
| SigLog (line : LogLine F)
| SigProgress (value : Z)
| SigDone (success : bool) (message : string).
Arguments SigLog {F} line.
Arguments SigProgress {F} value.
Arguments SigDone {F} success message.

Definition exc_message (e : PyExc) : string :=
  match e with
  | ValueError m | TypeError m | IndexError m | OSError m | LibraryError m => m
  end.

Section Worker.
Context {F : Type} {ops : CoordOps F}.
Variable api : TrimeshAPI F.

Local Open Scope py_scope.
Local Open Scope string_scope.

Definition tick : Py (World F) unit :=
  fun w => (mkWorld (disk w) (S (clock w)), Ok tt).

(** Modelled from the spec: [trimesh.load(path, force="mesh")], which is
    not part of this repository, reads the mesh file at the path and
    fails when it cannot be read as one. *)
Definition trimesh_load (input_path : Path) : Py (World F) (Loaded F) :=
  w <- py_get ;;
  match files (disk w) !! input_path with
  | Some (StlFile content) => py_ret content
  | Some (ObjFile _) => py_raise (ValueError "file is not a readable STL")
  | None => py_raise (OSError "file does not exist")
  end.

(** Modelled from the spec: [trimesh.util.concatenate], which is not part
    of this repository, appends the vertex arrays in encounter order and
    offsets every face index by the running vertex count. *)
Definition offset_face (k : Z) (f : Face) : Face :=
  let '(a, b, c) := f in (a + k, b + k, c + k)%Z.
Fixpoint concatenate_from (acc : Trimesh F) (meshes : list (Trimesh F)) : Trimesh F :=
  match meshes with
  | [] => acc
  | m :: rest =>
      concatenate_from
        (mkTrimesh (vertices acc ++ vertices m)
           (faces acc ++ map (offset_face (Z.of_nat (length (vertices acc)))) (faces m)))
        rest
  end.
Definition concatenate (meshes : list (Trimesh F)) : Trimesh F :=
  concatenate_from (mkTrimesh [] []) meshes.

Definition scene_meshes (geometry : list (string * Geometry F)) : list (Trimesh F) :=
  flat_map (fun kv => match snd kv with GeomMesh m => [m] | GeomOther => [] end) geometry.

Definition load_stl_as_mesh (input_path : Path) : Py (World F) (Trimesh F) :=
  loaded <- trimesh_load input_path ;;
  match loaded with
  | LoadedScene geometry =>
      match geometry with
      | [] => py_raise (ValueError "STL loaded as a Scene but contains no geometry.")
      | _ =>
          let meshes := scene_meshes geometry in
          match meshes with
          | [] => py_raise (ValueError "No mesh geometry found in the loaded scene.")
          | _ => py_ret (concatenate meshes)
          end
      end
  | LoadedOther type_name => py_raise (TypeError ("Unsupported loaded type: " ++ type_name))
  | LoadedMesh m => py_ret m
  end.

(** Modelled from the spec: [output_path.parent.mkdir(...)] followed by
    [mesh.export(path)], neither of which is part of this repository,
    writes the mesh as the file at the path, and fails on a folder that
    refuses writing. *)
Definition mkdir_and_export (mesh : Trimesh F) (output_path : Path) : Py (World F) unit :=
  fun w =>
    if bool_decide (parent output_path ∈ write_denied (disk w))
    then (w, Raise (OSError "Permission denied"))
    else (mkWorld (mkDisk (<[output_path := ObjFile mesh]> (files (disk w)))
                     (write_denied (disk w))) (clock w), Ok tt).

Definition convert_one (input_path output_path : Path) (opt : ConvertOptions F)
  : Py (World F) (MeshStats F) :=
  mesh <- load_stl_as_mesh input_path ;;
  tick ;;;
  mesh <- (if merge_vertices opt
           then py_lift (match api_merge_vertices api mesh with
                         | (m, Ok _) => Ok m
                         | (_, Raise e) => Raise e
                         end)
           else py_ret mesh) ;;
  tick ;;;
  mesh <- py_lift (apply_transforms mesh opt) ;;
  tick ;;;
  mesh <- (if validate_cleanup opt then py_lift (cleanup_mesh api mesh)
           else py_ret mesh) ;;
  tick ;;;
  mkdir_and_export mesh output_path ;;;
  tick ;;;
  stats <- py_lift (safe_mesh_stats mesh) ;;
  tick ;;;
  py_ret stats.

(** The state of one [run]: the world and the signals emitted so far. *)
Definition RunState : Type := World F * list (Signal F).

Definition emit (sig : Signal F) : Py RunState unit :=
  fun st => ((fst st, (snd st ++ [sig])%list), Ok tt).

Definition in_world {A} (c : Py (World F) A) : Py RunState A :=
  fun st => let '(w', r) := c (fst st) in ((w', snd st), r).

(** [self._cancel] at time [now]: the other thread set it at [cancel_at]. *)
Definition flag_raised (cancel_at : option nat) (now : nat) : bool :=
  match cancel_at with
  | Some t => (t <=? now)%nat
  | None => false
  end.

(** Reading [self._cancel] *)
Definition read_cancel (cancel_at : option nat) : Py RunState bool :=
  fun st => (st, Ok (flag_raised cancel_at (clock (fst st)))).

(** [int((i / n) * 100)] *)
Definition percent (i n : nat) : Exc Z :=
  match F64.trunc (F64.mul (F64.div (F64.of_Z (Z.of_nat i)) (F64.of_Z (Z.of_nat n)))
                     (F64.of_Z 100)) with
  | Some p => Ok p
  | None => Raise (ValueError "cannot convert float NaN to integer")
  end.

Definition nl : string := String (ascii_of_nat 10) EmptyString.

(** One job of the loop, after the cancellation check (lines 446-456). *)
Definition run_job (opt : ConvertOptions F) (n i : nat) (job : Path * Path)
  : Py RunState unit :=
  let '(inp, outp) := job in
  emit (SigLog (LogText (nl ++ "[" ++ pretty i ++ "/" ++ pretty n ++ "] Loading: "
                           ++ name inp))) ;;;
  stats <- in_world (convert_one inp outp opt) ;;
  emit (SigLog (LogExported (name outp) stats)) ;;;
  p <- py_lift (percent i n) ;;
  emit (SigProgress p).

(** The [for] loop of [run] (lines 440-456); the result tells whether
    the loop ran to its end ([false]: [run] returned from inside). *)
Fixpoint run_loop (opt : ConvertOptions F) (cancel_at : option nat) (n i : nat)
  (items : list (Path * Path)) : Py RunState bool :=
  match items with
  | [] => py_ret true
  | job :: items' =>
      cancelled <- read_cancel cancel_at ;;
      if cancelled then
        emit (SigLog (LogText "Cancelled.")) ;;;
        emit (SigDone false "Cancelled by user.") ;;;
        py_ret false
      else
        run_job opt n i job ;;;
        run_loop opt cancel_at n (S i) items'
  end.

Definition run_body (items : list (Path * Path)) (opt : ConvertOptions F)
  (cancel_at : option nat) : Py RunState unit :=
  let n := length items in
  if (n =? 0)%nat then emit (SigDone false "No files to convert.")
  else
    (emit (SigLog (LogText ("Starting conversion of " ++ pretty n ++ " file(s)..."))) ;;;
     (emit (SigProgress 0) ;;;
      (finished <- run_loop opt cancel_at n 1 items ;;
       if (finished : bool)
       then emit (SigDone true ("Converted " ++ pretty n ++ " file(s) successfully."))
       else py_ret tt))).

(** [ConvertWorker.run]: the body under its [except Exception] handler. *)
Definition run (items : list (Path * Path)) (opt : ConvertOptions F)
  (cancel_at : option nat) (w : World F) : World F * list (Signal F) :=
  match run_body items opt cancel_at (w, []) with
  | (st, Ok _) => st
  | (st, Raise e) =>
      fst ((emit (SigLog (LogTraceback e)) ;;;
            emit (SigDone false ("Failed: " ++ exc_message e))) st)
  end.

End Worker.

(** ** The vocabulary of the specification *)

Section Vocabulary.
Context {F : Type} {ops : CoordOps F}.

(** "finite coordinates" *)
Definition all_finite (m : Trimesh F) : Prop :=
  Forall (fun v => finite_row v = true) (vertices m).

(** Glossary, "degenerate face": the three indices are not all distinct. *)
Definition degenerate (f : Face) : Prop :=
  f.1.1 = f.1.2 \/ f.1.2 = f.2 \/ f.1.1 = f.2.

Definition no_degenerate (m : Trimesh F) : Prop :=
  Forall (fun f => ~ degenerate f) (faces m).

(** Glossary, "canonical face form": the indices sorted ascending. *)
Definition canonical_form (f : Face) : list Z :=
  merge_sort Z.le [f.1.1; f.1.2; f.2].

(** "no duplicate faces": no two faces share a canonical form. *)
Definition no_duplicate (m : Trimesh F) : Prop :=
  NoDup (map canonical_form (faces m)).

#[export] Instance degenerate_dec (f : Face) : Decision (degenerate f).
Proof. unfold degenerate. apply _. Defined.

(** No face index is negative. *)
Definition indices_nonneg (m : Trimesh F) : Prop :=
  Forall (fun i => 0 <= i) (Np.flatten_rows (faces m)).

(** Every vertex is used by some face. *)
Definition all_referenced (m : Trimesh F) : Prop :=
  Forall (fun i => Z.of_nat i ∈ Np.flatten_rows (faces m))
    (seq 0 (length (vertices m))).

(** The face at position [i] is the first one with its canonical form. *)
Definition first_of_its_form (fs : list Face) (i : nat) : Prop :=
  exists f, fs !! i = Some f /\
    forall j g, (j < i)%nat -> fs !! j = Some g -> canonical_form g <> canonical_form f.

(** Section 4.3 of the spec, read vertex by vertex. *)
Definition spec_swap (opt : ConvertOptions F) (v : Vec3 F) : Vec3 F :=
  if swap_yz opt then (v.1.1, v.2, v.1.2) else v.
Definition spec_flip (opt : ConvertOptions F) (v : Vec3 F) : Vec3 F :=
  ((if flip_x opt then f_mul v.1.1 f_neg_one else v.1.1),
   (if flip_y opt then f_mul v.1.2 f_neg_one else v.1.2),
   (if flip_z opt then f_mul v.2 f_neg_one else v.2)).
Definition spec_scale (opt : ConvertOptions F) (v : Vec3 F) : Vec3 F :=
  if f_eqb (scale_factor opt) f_one then v
  else (f_mul v.1.1 (scale_factor opt), f_mul v.1.2 (scale_factor opt),
        f_mul v.2 (scale_factor opt)).
Definition spec_steps_1_to_3 (opt : ConvertOptions F) (v : Vec3 F) : Vec3 F :=
  spec_scale opt (spec_flip opt (spec_swap opt v)).

(** The midpoint of a bounding box. *)
Definition midpoint (b : Vec3 F * Vec3 F) : Vec3 F :=
  vscale (vadd b.1 b.2) f_half.

(** A failure-atomic block: when it raises, the object is as before. *)
Definition atomic {S A} (c : Py S A) : Prop :=
  forall s e, snd (c s) = Raise e -> fst (c s) = s.

(** A block that only looks at the object. *)
Definition read_only {S A} (c : Py S A) : Prop :=
  forall s, fst (c s) = s.

(** A mesh that needs no cleaning. *)
Definition clean (m : Trimesh F) : Prop :=
  all_finite m /\ no_degenerate m /\ no_duplicate m
  /\ indices_nonneg m /\ all_referenced m.

(** The trimesh methods that are offered find nothing to do on the mesh
    [m]: each leaves it as it is, and [nondegenerate_faces] selects
    every face of it. *)
Record idle_at (api : TrimeshAPI F) (m : Trimesh F) : Prop := {
  idle_remove_infinite_values :
    forall c, api_remove_infinite_values api = Some c -> fst (c m) = m;
  idle_remove_degenerate_faces :
    forall c, api_remove_degenerate_faces api = Some c -> fst (c m) = m;
  idle_nondegenerate_faces :
    forall c, api_nondegenerate_faces api = Some c ->
      fst (c m) = m /\
      forall keep, snd (c m) = Ok (Some keep) ->
        face_mask_of_keep (length (faces m)) keep = Ok (replicate (length (faces m)) true);
  idle_remove_duplicate_faces :
    forall c, api_remove_duplicate_faces api = Some c -> fst (c m) = m;
  idle_remove_unreferenced_vertices :
    forall c, api_remove_unreferenced_vertices api = Some c -> fst (c m) = m;
  idle_fix_normals :
    forall c, api_fix_normals api = Some c -> fst (c m) = m
}.

(** The two signals with which [run] opens a batch of [n] jobs. *)
Definition header (n : nat) : list (Signal F) :=
  [SigLog (LogText ("Starting conversion of " ++ pretty n ++ " file(s)..."));
   SigProgress 0].

(** The two signals with which [run] answers the cancellation flag. *)
Definition cancelled_signals : list (Signal F) :=
  [SigLog (LogText "Cancelled."); SigDone false "Cancelled by user."].

(** Nothing is lost from the disk and the clock does not run back. *)
Definition grows (w w' : World F) : Prop :=
  (forall p, is_Some (files (disk w) !! p) -> is_Some (files (disk w') !! p))
  /\ (clock w <= clock w')%nat.

(** A block of the worker that loses no file and does not turn the
    clock back. *)
Definition growing {A} (c : Py (World F) A) : Prop :=
  forall w, grows w (fst (c w)).

(** A trimesh that offers none of the optional methods, so that every
    pass runs the explicit algorithm of [cleanup_mesh]; [merge] is its
    [merge_vertices]. *)
Definition bare_api (merge : Py (Trimesh F) unit) : TrimeshAPI F :=
  mkAPI None None None None None None merge.

End Vocabulary.



(** The candidate names of the collision loop: the plain name first,
    then the numbered ones. *)
Definition candidate (out_name : string) (k : nat) : string :=
  match k with
  | O => (out_name ++ ".obj")%string
  | S _ => (out_name ++ "_" ++ pretty k ++ ".obj")%string
  end.

(** The folder in which the output of a job is placed (line 916). *)
Definition dest_folder (out_dir_text : string) (inp : Path) : string :=
  match out_dir out_dir_text with Some d => d | None => parent inp end.

Section NamerVocabulary.
Context {fold : CaseFold}.
Variable existing : gset Path.
Variable stat_error : Path -> option string.
Variable out_dir_text : string.

(** A name is free for a job when no earlier job of the run was given
    it (letter case aside) and the disk answers that no file of that
    name lies in the folder. *)
Definition name_free (earlier : list string) (folder c : string) : Prop :=
  (py_lower c ∉ map py_lower earlier)
  /\ path_exists existing stat_error (joinpath folder c) = Ok false.

(** A name is taken when an earlier job of the run was given it (letter
    case aside), or the disk answers that a file of that name lies in
    the folder. *)
Definition name_taken (earlier : list string) (folder c : string) : Prop :=
  (py_lower c ∈ map py_lower earlier)
  \/ path_exists existing stat_error (joinpath folder c) = Ok true.

(** The names given so far, as the loop keeps them in [used_names]. *)
Definition names_of (names : list string) : gset string :=
  list_to_set (map py_lower names).

(** The job is given the name [c] and the output [out]: [c] is the
    first free name in the row of candidates of the stem, every
    candidate before it is taken, and [out] is [c] joined to the folder
    of the job. *)
Definition resolved (earlier : list string) (stem_ : string) (inp : Path)
  (c : string) (out : Path) : Prop :=
  exists k,
    c = candidate stem_ k /\
    out = joinpath (dest_folder out_dir_text inp) c /\
    name_free earlier (dest_folder out_dir_text inp) c /\
    forall j, (j < k)%nat ->
      name_taken earlier (dest_folder out_dir_text inp) (candidate stem_ j).

(** The disk refuses the question for a candidate of the stem, after
    having answered that every candidate before it is taken. *)
Definition refused (earlier : list string) (stem_ : string) (inp : Path)
  (msg : string) : Prop :=
  exists k,
    (py_lower (candidate stem_ k) ∉ map py_lower earlier) /\
    stat_error (joinpath (dest_folder out_dir_text inp) (candidate stem_ k)) = Some msg /\
    forall j, (j < k)%nat ->
      name_taken earlier (dest_folder out_dir_text inp) (candidate stem_ j).

End NamerVocabulary.

(** ** Example data *)

Module Ex.

Definition p (x y z : Z) : Vec3 F64.t := (F64.of_Z x, F64.of_Z y, F64.of_Z z).

(** A tetrahedron. *)
Definition tetra : Trimesh F64.t :=
  mkTrimesh [p 0 0 0; p 1 0 0; p 0 1 0; p 0 0 1]
    [(0, 1, 2); (0, 3, 1); (0, 2, 3); (1, 3, 2)].

(** A triangle and one vertex that no face uses. *)
Definition loose_vertex : Trimesh F64.t :=
  mkTrimesh [p 0 0 0; p 1 0 0; p 0 1 0; p 5 5 5] [(0, 1, 2)].

Definition empty_mesh {F} : Trimesh F := mkTrimesh [] [].

Definition opts (center : bool) : ConvertOptions F64.t :=
  mkOptions false false F64.one center false false false false.

Definition opts_clean : ConvertOptions F64.t :=
  mkOptions false true F64.one false false false false false.

(** A [merge_vertices] that finds nothing to merge. *)
Definition merge_nothing : Py (Trimesh F64.t) unit := py_ret tt.

(** A file system that answers every question about a path. *)
Definition no_stat_error : Path -> option string := fun _ => None.

Definition stl (nm : string) : Path := mkPath "/in" nm.
Definition obj (nm : string) : Path := mkPath "/out" nm.

Definition three_jobs : list (Path * Path) :=
  [(stl "a.stl", obj "a.obj"); (stl "b.stl", obj "b.obj"); (stl "c.stl", obj "c.obj")].

Definition world0 : World F64.t :=
  mkWorld
    (mkDisk {[ stl "a.stl" := StlFile (LoadedMesh tetra);
               stl "b.stl" := StlFile (LoadedMesh loose_vertex);
               stl "c.stl" := StlFile (LoadedMesh tetra) ]} ∅)
    0.






(** A disk with one STL file that holds no geometry at all. *)
Definition world_empty_stl : World F64.t :=
  mkWorld (mkDisk {[ stl "e.stl" := StlFile (LoadedMesh empty_mesh) ]} ∅) 0.

(** A mesh with a face listed twice, once with the other winding, and a
    face that repeats a vertex. *)
Definition untidy : Trimesh F64.t :=
  mkTrimesh [p 0 0 0; p 1 0 0; p 0 1 0; p 0 0 1]
    [(0, 1, 2); (2, 1, 0); (0, 0, 1); (0, 3, 1)].



(** A face whose second index is beyond the three vertices. *)
Definition dangling : Trimesh F64.t :=
  mkTrimesh [p 0 0 0; p 1 0 0; p 0 1 0] [(0, 7, 2)].

Local Open Scope py_scope.

(** A [merge_vertices] that finds the vertices 1 and 2 equal and lets
    the faces use vertex 1 for both. *)
Definition weld_index (i : Z) : Z := if i =? 2 then 1 else i.
Definition weld : Py (Trimesh F64.t) unit :=
  m <- py_get ;;
  set_faces (map (fun '(a, b, c) => (weld_index a, weld_index b, weld_index c)) (faces m)).

(** Merging and cleanup switched on. *)
Definition opts_weld : ConvertOptions F64.t :=
  mkOptions true true F64.one false false false false false.

(** A trimesh whose [fix_normals] turns every face around. *)
Definition turn (f : Face) : Face := let '(a, b, c) := f in (a, c, b).
Definition turning_api : TrimeshAPI F64.t :=
  mkAPI None None None None None
    (Some (m <- py_get ;; set_faces (map turn (faces m))))
    merge_nothing.


(** A trimesh whose [remove_duplicate_faces] has dropped the faces when
    it fails. *)
Definition breaking_api : TrimeshAPI F64.t :=
  mkAPI None None None
    (Some (set_faces [] ;;; py_raise (LibraryError "interrupted")))
    None None merge_nothing.


End Ex.

(** ** Further vocabulary and models *)

(** No terminal signal among the signals. *)
Definition no_done {F} (l : list (Signal F)) : Prop :=
  forall ok msg, SigDone ok msg ∉ l.

(** Every step of a block keeps the world within a relation. *)
Definition within {F A} (R : relation (World F)) (c : Py (World F) A) : Prop :=
  forall w, R w (fst (c w)).

(** Apart from the file at [outp] the disk is the same. *)
Definition same_but {F} (outp : Path) (w w' : World F) : Prop :=
  write_denied (disk w') = write_denied (disk w) /\
  (files (disk w') = files (disk w) \/
   exists mesh, files (disk w') = <[outp := ObjFile mesh]> (files (disk w))).

(** Apart from the files at [outs] the disk is the same. *)
Definition untouched {F} (outs : list Path) (w w' : World F) : Prop :=
  write_denied (disk w') = write_denied (disk w) /\
  forall p, p ∉ outs -> files (disk w') !! p = files (disk w) !! p.

Section Geometry.
Context {F : Type} {ops : CoordOps F}.

(** Every face index names a vertex, counted from the front. *)
Definition indices_in_range (m : Trimesh F) : Prop :=
  Forall (fun i => 0 <= i < Z.of_nat (length (vertices m))) (Np.flatten_rows (faces m)).

(** The vertex that a face index names. *)
Definition corner (m : Trimesh F) (i : Z) : option (Vec3 F) :=
  vertices m !! Z.to_nat i.

(** A face as the three points it joins. *)
Definition triangle (m : Trimesh F) (f : Face) :
    option (Vec3 F) * option (Vec3 F) * option (Vec3 F) :=
  (corner m f.1.1, corner m f.1.2, corner m f.2).

Definition triangles (m : Trimesh F) :
    list (option (Vec3 F) * option (Vec3 F) * option (Vec3 F)) :=
  map (triangle m) (faces m).

Definition finite_corner (m : Trimesh F) (i : Z) : bool :=
  match corner m i with
  | Some v => finite_row v
  | None => false
  end.

(** The three corners of the face have finite coordinates. *)
Definition finite_face (m : Trimesh F) (f : Face) : bool :=
  finite_corner m f.1.1 && finite_corner m f.1.2 && finite_corner m f.2.

(** The position among the set entries of a mask. *)
Definition rank (mask : list bool) (i : Z) : Z :=
  Z.of_nat (Np.count_true (take (Z.to_nat i) mask)).

(** Two faces whose indices correspond under a renumbering. *)
Definition renumbered (R : Z -> Z -> Prop) (f f' : Face) : Prop :=
  R f.1.1 f'.1.1 /\ R f.1.2 f'.1.2 /\ R f.2 f'.2.

End Geometry.

(** ** The file list: [_try_add_file] and [_on_files_dropped] *)



Section FileList.
Context {fold : CaseFold}.

(** What the file system answers; each question may end in an
    exception of the operating system. *)
Variable exists_ : Path -> Exc bool.                   (* [p.exists()] *)
Variable is_dir : Path -> Exc bool.                    (* [p.is_dir()] *)
Variable glob : Path -> string -> Exc (list Path).     (* [list(p.glob(pattern))] *)
Variable resolve : Path -> Exc Path.                   (* [p.resolve()] *)











End FileList.

(** ** The statistics panel: [_update_stats_preview] *)

(** What the panel shows: nothing, the statistics of a file, or dashes
    together with a line in the log. *)
Inductive Preview (F : Type) : Type :=
| PreviewNone
| PreviewStats (file : string) (stats : MeshStats F)
| PreviewFailed (file : string) (log_line : string).
Arguments PreviewNone {F}.
Arguments PreviewStats {F} file stats.
Arguments PreviewFailed {F} file log_line.

Section Preview.
Context {F : Type} {ops : CoordOps F}.
Variable api : TrimeshAPI F.

Local Open Scope py_scope.
Local Open Scope string_scope.

(** The item that is previewed (lines 848-859): the first selected one,
    or the first of the list when none is selected. *)
Definition preview_item (selected all_items : list Path) : option Path :=
  match selected with
  | [] => match all_items with [] => None | item :: _ => Some item end
  | item :: _ => Some item
  end.

(** What stands inside the [try] (lines 866-874). *)
Definition preview_stats (p : Path) (opt : ConvertOptions F)
  : Py (World F) (MeshStats F) :=
  mesh <- load_stl_as_mesh p ;;
  mesh <- (if merge_vertices opt
           then py_lift (match api_merge_vertices api mesh with
                         | (m, Ok _) => Ok m
                         | (_, Raise e) => Raise e
                         end)
           else py_ret mesh) ;;
  mesh <- py_lift (apply_transforms mesh opt) ;;
  py_lift (safe_mesh_stats mesh).

Definition _update_stats_preview (selected all_items : list Path)
  (opt : ConvertOptions F) : Py (World F) (Preview F) :=
  match preview_item selected all_items with
  | None => py_ret PreviewNone
  | Some p =>
      fun w =>
        match preview_stats p opt w with
        | (w', Ok stats) => (w', Ok (PreviewStats (name p) stats))
        | (w', Raise e) =>
            (w', Ok (PreviewFailed (name p)
                       ("Stats preview failed for " ++ name p ++ ": " ++ exc_message e)))
        end
  end.

End Preview.

(** ** Starting a batch: [_start_conversion] *)

(** How [_start_conversion] ends: with the status line of a running
    batch, with one of the two warning boxes, or with a worker started
    on the pairs and options. *)
Inductive StartOutcome (F : Type) : Type :=
| AlreadyConverting
| NamingError (msg : string)
| NothingToConvert
| WorkerStarted (pairs : list (Path * Path)) (opt : ConvertOptions F).
Arguments AlreadyConverting {F}.
Arguments NamingError {F} msg.
Arguments NothingToConvert {F}.
Arguments WorkerStarted {F} pairs opt.

Section Start.
Context {F : Type} {fold : CaseFold}.
Variable worker_running : bool.  (* [self._worker is not None and isRunning()] *)
Variable existing : gset Path.
Variable stat_error : Path -> option string.
Variables selected all_items : list Path.
Variable out_dir_text : string.
Variable naming_index : Z.
Variable custom_name_text : string.
Variable opt : ConvertOptions F.  (* [self._gather_options()] *)

(** Lines 945-973; only a [ValueError] of the naming is caught, any
    other exception of [_build_conversion_list] leaves the method. *)
Definition _start_conversion : option (Exc (StartOutcome F)) :=
  if worker_running then Some (Ok AlreadyConverting)
  else
    match _build_conversion_list existing stat_error selected all_items out_dir_text
            naming_index custom_name_text with
    | None => None
    | Some (Raise (ValueError msg)) => Some (Ok (NamingError msg))
    | Some (Raise e) => Some (Raise e)
    | Some (Ok []) => Some (Ok NothingToConvert)
    | Some (Ok pairs) => Some (Ok (WorkerStarted pairs opt))
    end.

End Start.

(** ** More example data *)

Module Cases.

(** The disk of [Ex.world0] without the second input. *)
Definition world_missing_b : World F64.t :=
  mkWorld
    (mkDisk {[ Ex.stl "a.stl" := StlFile (LoadedMesh Ex.tetra);
               Ex.stl "c.stl" := StlFile (LoadedMesh Ex.tetra) ]} ∅)
    0.

(** Two triangles, one of them with a corner at infinity. *)
Definition spiked : Trimesh F64.t :=
  mkTrimesh [Ex.p 0 0 0; (F64.inf, F64.zero, F64.zero); Ex.p 1 0 0; Ex.p 0 1 0]
    [(0, 1, 2); (0, 2, 3)].

(** The files that exist on [Ex.world0]. *)
Definition on_world0 : gset Path :=
  {[ Ex.stl "a.stl"; Ex.stl "b.stl"; Ex.stl "c.stl" ]}.

End Cases.

(** * Proofs *)

(** ** The object monad *)

Section MonadFacts.
Context {S : Type}.

Lemma try_pass_result (c : Py S unit) (s : S) : try_pass c s = (fst (c s), Ok tt).
Proof. reflexivity. Qed.

Lemma bind_try_pass {B} (c : Py S unit) (k : unit -> Py S B) (s : S) :
  py_bind (try_pass c) k s = k tt (fst (c s)).
Proof. reflexivity. Qed.

Lemma try_pass_skips (c : Py S unit) (s : S) (e : PyExc) :
  atomic c -> snd (c s) = Raise e -> try_pass c s = (s, Ok tt).
Proof. intros Hc He. unfold try_pass. by rewrite (Hc s e He). Qed.

Lemma atomic_ret {A} (a : A) : atomic (py_ret (S := S) a).
Proof. by intros s e. Qed.

Lemma atomic_raise {A} (e : PyExc) : atomic (py_raise (S := S) (A := A) e).
Proof. by intros s e'. Qed.

Lemma read_only_get : read_only (py_get (S := S)).
Proof. by intros s. Qed.

Lemma read_only_lift {A} (x : Exc A) : read_only (py_lift (S := S) x).
Proof. by intros s. Qed.

(** A query followed by an atomic block is atomic. *)
Lemma atomic_bind_read_only {A B} (c : Py S A) (k : A -> Py S B) :
  read_only c -> (forall a, atomic (k a)) -> atomic (py_bind c k).
Proof.
  intros Hc Hk s e. unfold py_bind.
  specialize (Hc s). destruct (c s) as [s' [a|e']]; simpl in *; subst s'.
  - apply Hk.
  - done.
Qed.

End MonadFacts.

(** ** numpy indexing *)

Section NumpyFacts.
Context {A : Type}.
Implicit Types (arr : list A) (mask : list bool) (idx : list Z).

Lemma compress_map (p : A -> bool) arr :
  Np.compress (map p arr) arr = List.filter p arr.
Proof.
  induction arr as [|a arr IH]; simpl; [done|].
  destruct (p a); by rewrite IH.
Qed.

Lemma compress_all_true arr :
  Np.compress (replicate (length arr) true) arr = arr.
Proof. induction arr as [|a arr IH]; simpl; [done|]. by rewrite IH. Qed.

Lemma bool_index_same_length arr mask :
  length mask = length arr -> Np.bool_index arr mask = Ok (Np.compress mask arr).
Proof. intros H. unfold Np.bool_index. by rewrite H, Nat.eqb_refl. Qed.

Lemma norm_index_nat (n k : nat) :
  (k < n)%nat -> Np.norm_index n (Z.of_nat k) = Ok k.
Proof.
  intros H. unfold Np.norm_index.
  destruct (Z.leb_spec 0 (Z.of_nat k)); [|lia].
  destruct (Z.ltb_spec (Z.of_nat k) (Z.of_nat n)); [|lia].
  simpl. by rewrite Nat2Z.id.
Qed.

Lemma norm_index_Ok (n : nat) (i : Z) (k : nat) :
  Np.norm_index n i = Ok k ->
  (k < n)%nat /\ (i = Z.of_nat k \/ i = Z.of_nat k - Z.of_nat n).
Proof.
  unfold Np.norm_index.
  destruct (Z.leb_spec 0 i), (Z.ltb_spec i (Z.of_nat n)); simpl;
    try (intros [= <-]; lia).
  all: destruct (Z.leb_spec (- Z.of_nat n) i), (Z.ltb_spec i 0); simpl;
    try done; intros [= <-]; lia.
Qed.

Lemma norm_index_nonneg_Ok (n : nat) (i : Z) (k : nat) :
  0 <= i -> Np.norm_index n i = Ok k -> i = Z.of_nat k /\ (k < n)%nat.
Proof. intros Hi H. apply norm_index_Ok in H. lia. Qed.

Lemma norm_index_out_of_range (n : nat) (i : Z) :
  Z.of_nat n <= i -> exists e, Np.norm_index n i = Raise e.
Proof.
  intros H. unfold Np.norm_index.
  destruct (Z.leb_spec 0 i), (Z.ltb_spec i (Z.of_nat n)); simpl; try lia.
  destruct (Z.leb_spec (- Z.of_nat n) i), (Z.ltb_spec i 0); simpl; try lia; eauto.
Qed.

Lemma index_nat arr (k : nat) (a : A) :
  arr !! k = Some a -> Np.index arr (Z.of_nat k) = Ok a.
Proof.
  intros H. unfold Np.index.
  rewrite norm_index_nat by (by eapply lookup_lt_Some). simpl. by rewrite H.
Qed.

Lemma index_is_ok arr (i : Z) :
  is_ok (Np.index arr i) = is_ok (Np.norm_index (length arr) i).
Proof.
  unfold Np.index. destruct (Np.norm_index (length arr) i) as [k|e] eqn:E; [|done].
  simpl. apply norm_index_Ok in E as [Hk _].
  destruct (lookup_lt_is_Some_2 arr k Hk) as [a ->]. done.
Qed.

End NumpyFacts.

Section TransformFacts.
Context {F : Type} {ops : CoordOps F}.

Lemma transformed_vertices_pointwise (V : list (Vec3 F)) (opt : ConvertOptions F) :
  transformed_vertices V opt = map (spec_steps_1_to_3 opt) V.
Proof.
  unfold transformed_vertices, spec_steps_1_to_3, spec_scale, spec_flip, spec_swap.
  destruct (swap_yz opt), (flip_x opt), (flip_y opt), (flip_z opt),
    (f_eqb (scale_factor opt) f_one); simpl;
    (induction V as [|[[x y] z] V IH]; simpl; [done|]; f_equal; exact IH).
Qed.

Lemma apply_transforms_unfold (m : Trimesh F) (opt : ConvertOptions F) :
  apply_transforms m opt =
    let V := map (spec_steps_1_to_3 opt) (vertices m) in
    if center_to_origin opt then
      match bounds (mkTrimesh V (faces m)) with
      | Some b => Ok (mkTrimesh (map (fun v => vadd v (vneg (midpoint b))) V) (faces m))
      | None => Raise (TypeError "'NoneType' object is not subscriptable")
      end
    else Ok (mkTrimesh V (faces m)).
Proof.
  unfold apply_transforms. rewrite transformed_vertices_pointwise. simpl.
  destruct (center_to_origin opt); [|done].
  destruct (bounds _) as [[lo hi]|]; done.
Qed.

End TransformFacts.

(** ** Centering in exact arithmetic *)








(** ** Faces and their canonical form *)

Lemma face_eqb_eq (f g : Face) : face_eqb f g = true <-> f = g.
Proof.
  destruct f as [[a b] c], g as [[x y] z]. unfold face_eqb.
  rewrite !andb_true_iff, !Z.eqb_eq. split; [intros [[-> ->] ->]; done|].
  by intros [= -> -> ->].
Qed.

Lemma existsb_face_eqb (r : Face) (seen : list Face) :
  existsb (face_eqb r) seen = true <-> r ∈ seen.
Proof.
  rewrite existsb_exists. setoid_rewrite face_eqb_eq.
  rewrite list_elem_of_In. split; [by intros (x & Hx & ->)|eauto].
Qed.

Lemma canonical_form_sort_row (f : Face) :
  canonical_form f = [(sort_row f).1.1; (sort_row f).1.2; (sort_row f).2].
Proof.
  destruct f as [[a b] c]. unfold canonical_form, sort_row. simpl.
  cbv [merge_sort merge_sort_aux merge_list_to_stack merge_stack list_merge].
  destruct (Z.leb_spec a b), (Z.leb_spec b c), (Z.leb_spec a c);
    repeat (simpl; case_decide); simpl;
    repeat match goal with |- context [Z.leb ?x ?y] => destruct (Z.leb_spec x y) end;
    simpl; try lia; f_equal; try lia; f_equal; try lia; f_equal; lia.
Qed.

Lemma sort_row_eq_canonical (f g : Face) :
  sort_row f = sort_row g <-> canonical_form f = canonical_form g.
Proof.
  rewrite !canonical_form_sort_row.
  destruct (sort_row f) as [[a b] c], (sort_row g) as [[x y] z]. simpl.
  split; [by intros [= -> -> ->]|by intros [= -> -> ->]].
Qed.





(** ** [np.unique(..., return_index=True)] *)

Lemma elem_of_unique_index_from (i : Z) (seen rows : list Face) (x : Z) :
  x ∈ unique_index_from i seen rows <->
  exists (k : nat) (r : Face),
    x = i + Z.of_nat k /\ rows !! k = Some r /\ (r ∉ seen) /\
    forall (j : nat) r', (j < k)%nat -> rows !! j = Some r' -> r' <> r.
Proof.
  revert i seen. induction rows as [|r0 rows IH]; intros i seen; simpl.
  { split; [by intros ?%elem_of_nil|by intros (k & r & _ & ? & _)]. }
  destruct (existsb (face_eqb r0) seen) eqn:E.
  - apply existsb_face_eqb in E. rewrite IH. split.
    + intros (k & r & -> & Hk & Hr & Hfirst). exists (S k), r.
      split; [lia|]. split; [done|]. split; [done|].
      intros [|j] r' Hj; simpl; [|apply Hfirst; lia].
      intros [= <-]. by intros ->.
    + intros ([|k] & r & -> & Hk & Hr & Hfirst); simpl in Hk.
      { by injection Hk as ->. }
      exists k, r. split; [lia|]. split; [done|]. split; [done|].
      intros j r' Hj Hr'. apply (Hfirst (S j)); [lia|done].
  - assert (r0 ∉ seen) as Hr0.
    { intros H%existsb_face_eqb. congruence. }
    rewrite elem_of_cons, IH. split.
    + intros [->|(k & r & -> & Hk & Hr & Hfirst)].
      * exists 0%nat, r0. split; [lia|]. split; [done|]. split; [done|]. lia.
      * exists (S k), r. split; [lia|]. split; [done|].
        apply not_elem_of_cons in Hr as [Hne Hr]. split; [done|].
        intros [|j] r' Hj; simpl; [by intros [= <-]|].
        apply Hfirst. lia.
    + intros ([|k] & r & -> & Hk & Hr & Hfirst); simpl in Hk.
      { left. lia. }
      right. exists k, r. split; [lia|]. split; [done|]. split.
      * apply not_elem_of_cons. split; [|done].
        intros ->. apply (Hfirst 0%nat r0); [lia|done|done].
      * intros j r' Hj Hr'. apply (Hfirst (S j)); [lia|done].
Qed.

Lemma elem_of_unique_index (rows : list Face) (x : Z) :
  x ∈ unique_index rows <->
  exists (k : nat) (r : Face),
    x = Z.of_nat k /\ rows !! k = Some r /\
    forall (j : nat) r', (j < k)%nat -> rows !! j = Some r' -> r' <> r.
Proof.
  unfold unique_index. rewrite elem_of_unique_index_from.
  split; intros (k & r & -> & Hk & H); exists k, r.
  - destruct H as [_ H]. split; [lia|done].
  - split; [lia|]. split; [done|]. split; [apply not_elem_of_nil|done].
Qed.

Section PutFacts.
Context {A : Type}.

Lemma put_length (arr : list A) (idx : list Z) (vals r : list A) :
  Np.put arr idx vals = Ok r -> length r = length arr.
Proof.
  revert arr vals. induction idx as [|i idx IH]; intros arr vals; simpl.
  { by intros [= <-]. }
  destruct vals as [|v vals]; [by intros [= <-]|].
  destruct (Np.norm_index (length arr) i) as [k|e]; simpl; [|done].
  intros H%IH. by rewrite length_insert in H.
Qed.

(** A successful assignment had every index in range. *)
Lemma put_Ok_indices (arr : list A) (idx : list Z) (vals r : list A) :
  (length idx <= length vals)%nat ->
  Np.put arr idx vals = Ok r ->
  Forall (fun i => is_ok (Np.norm_index (length arr) i) = true) idx.
Proof.
  revert arr vals. induction idx as [|i idx IH]; intros arr vals Hlen; simpl.
  { constructor. }
  destruct vals as [|v vals]; [simpl in Hlen; lia|].
  destruct (Np.norm_index (length arr) i) as [k|e] eqn:E; simpl; [|done].
  intros H. constructor; [by rewrite E|].
  eapply IH in H; [|simpl in Hlen; lia]. by rewrite length_insert in H.
Qed.

(** One index out of range makes the whole assignment fail. *)
Lemma put_out_of_range (arr : list A) (idx : list Z) (vals : list A) :
  (length idx <= length vals)%nat ->
  Exists (fun i => is_ok (Np.norm_index (length arr) i) = false) idx ->
  exists e, Np.put arr idx vals = Raise e.
Proof.
  revert arr vals. induction idx as [|i idx IH]; intros arr vals Hlen Hex; simpl.
  { by apply Exists_nil in Hex. }
  destruct vals as [|v vals]; [simpl in Hlen; lia|].
  destruct (Np.norm_index (length arr) i) as [k|e] eqn:E; simpl; [|eauto].
  apply Exists_cons in Hex as [Hex|Hex]; [by rewrite E in Hex|].
  apply IH; [simpl in Hlen; lia|]. by rewrite length_insert.
Qed.

Lemma put_scalar_in_range (arr : list A) (idx : list Z) (v : A) :
  Forall (fun i => 0 <= i < Z.of_nat (length arr)) idx ->
  Np.put_scalar arr idx v =
    Ok (imap (fun k a => if bool_decide (Z.of_nat k ∈ idx) then v else a) arr).
Proof.
  unfold Np.put_scalar. revert arr.
  induction idx as [|i idx IH]; intros arr Hidx; simpl.
  { f_equal. apply list_eq; intros k. rewrite list_lookup_imap.
    by destruct (arr !! k). }
  apply Forall_cons in Hidx as [Hi Hidx].
  replace i with (Z.of_nat (Z.to_nat i)) at 1 by lia.
  rewrite norm_index_nat by lia. simpl.
  rewrite IH by (by rewrite length_insert). f_equal.
  apply list_eq; intros k. rewrite !list_lookup_imap.
  destruct (decide (k = Z.to_nat i)) as [->|Hne].
  - rewrite list_lookup_insert_eq by lia. 
    destruct (lookup_lt_is_Some_2 arr (Z.to_nat i)) as [a ->]; [lia|]. simpl.
    rewrite (bool_decide_eq_true_2 (_ ∈ i :: idx)); [|apply elem_of_cons; left; lia].
    by destruct (bool_decide _).
  - rewrite list_lookup_insert_ne by done.
    destruct (arr !! k); simpl; [|done]. f_equal.
    rewrite (bool_decide_ext (Z.of_nat k ∈ i :: idx) (Z.of_nat k ∈ idx)); [done|].
    rewrite elem_of_cons. split; [|tauto]. intros [?|?]; [lia|done].
Qed.

End PutFacts.

(** ** The cleanup passes *)

Section CleanerFacts.
Context {F : Type} {ops : CoordOps F}.
Implicit Types (api : TrimeshAPI F) (m : Trimesh F).

Lemma update_faces_same_length (mask : list bool) m :
  length mask = length (faces m) ->
  update_faces mask m = (mkTrimesh (vertices m) (Np.compress mask (faces m)), Ok tt).
Proof.
  intros H. unfold update_faces, py_bind, py_get, py_lift.
  by rewrite bool_index_same_length.
Qed.

Lemma update_faces_atomic (mask : list bool) : atomic (update_faces (F := F) mask).
Proof.
  intros m e. unfold update_faces, py_bind, py_get, py_lift.
  by destruct (Np.bool_index _ _).
Qed.

Lemma distinct_indices_spec (f : Face) : distinct_indices f = true <-> ~ degenerate f.
Proof.
  destruct f as [[a b] c]. unfold distinct_indices, degenerate. simpl.
  rewrite !andb_true_iff, !negb_true_iff, !Z.eqb_neq. tauto.
Qed.

Lemma filter_distinct_indices (fs : list Face) :
  List.filter distinct_indices fs = filter (fun f => ~ degenerate f) fs.
Proof.
  induction fs as [|f fs IH]; simpl; [done|].
  rewrite filter_cons. destruct (distinct_indices f) eqn:E.
  - rewrite decide_True by (by apply distinct_indices_spec). by rewrite IH.
  - rewrite decide_False; [done|]. rewrite <- distinct_indices_spec. congruence.
Qed.

Lemma degenerate_last_resort_result m :
  degenerate_last_resort m =
    (mkTrimesh (vertices m) (filter (fun f => ~ degenerate f) (faces m)), Ok tt).
Proof.
  unfold degenerate_last_resort, py_bind at 1, py_get.
  rewrite update_faces_same_length by (by rewrite length_map).
  by rewrite compress_map, filter_distinct_indices.
Qed.

(** The mask that the explicit duplicate pass computes. *)
Lemma duplicate_fallback_result m :
  exists mask,
    length mask = length (faces m) /\
    duplicate_fallback m = (mkTrimesh (vertices m) (Np.compress mask (faces m)), Ok tt) /\
    forall i, mask !! i = Some true <-> first_of_its_form (faces m) i.
Proof.
  unfold duplicate_fallback, py_bind at 1, py_get.
  destruct (faces m) as [|f0 fs] eqn:Hfs.
  { exists []. split; [done|]. split; [destruct m; simpl in *; by subst|].
    intros i. split; [done|]. by intros (f & ? & _). }
  rewrite <- Hfs. assert ((0 <? length (faces m))%nat = true) as ->.
  { rewrite Hfs. done. }
  set (canonical := map sort_row (faces m)).
  assert (Forall (fun i => 0 <= i < Z.of_nat (length (replicate (length (faces m)) false)))
            (unique_index canonical)) as Hrange.
  { apply Forall_forall. intros x (k & r & -> & Hk & _)%elem_of_unique_index.
    apply lookup_lt_Some in Hk. unfold canonical in Hk.
    rewrite length_map in Hk. rewrite length_replicate. lia. }
  unfold py_bind, py_lift. rewrite put_scalar_in_range by done.
  set (mask := imap _ _).
  assert (length mask = length (faces m)) as Hlen.
  { unfold mask. by rewrite length_imap, length_replicate. }
  exists mask. split; [done|]. split; [by apply update_faces_same_length|].
  intros i. unfold mask. rewrite list_lookup_imap.
  unfold first_of_its_form. split.
  - destruct (replicate (length (faces m)) false !! i) as [b|] eqn:Hb; simpl; [|done].
    apply lookup_replicate in Hb as [-> _].
    case_bool_decide as Hin; [|done].
    intros _. apply elem_of_unique_index in Hin as (k & r & Hk & Hr & Hfirst).
    apply Nat2Z.inj in Hk as <-. unfold canonical in Hr, Hfirst.
    rewrite list_lookup_fmap in Hr.
    destruct (faces m !! i) as [f|] eqn:Hf; simpl in Hr; [|done].
    injection Hr as <-. exists f. split; [done|].
    intros j g Hj Hg. rewrite <- sort_row_eq_canonical.
    apply (Hfirst j); [done|]. by rewrite list_lookup_fmap, Hg.
  - intros (f & Hf & Hfirst).
    assert (i < length (faces m))%nat as Hi by (by eapply lookup_lt_Some).
    destruct (lookup_lt_is_Some_2 (replicate (length (faces m)) false) i) as [b ->].
    { by rewrite length_replicate. }
    simpl. rewrite bool_decide_eq_true_2; [done|].
    apply elem_of_unique_index. exists i, (sort_row f).
    split; [done|]. unfold canonical. split; [by rewrite list_lookup_fmap, Hf|].
    intros j r' Hj. rewrite list_lookup_fmap.
    destruct (faces m !! j) as [g|] eqn:Hg; simpl; [|done].
    intros [= <-]. rewrite sort_row_eq_canonical. by eapply Hfirst.
Qed.

End CleanerFacts.

(** ** [np.arange], [np.unique] and whole-array indexing *)

Lemma exc_mapM_Forall2 {A B} (f : A -> Exc B) (l : list A) (k : list B) :
  Forall2 (fun a b => f a = Ok b) l k -> exc_mapM f l = Ok k.
Proof. induction 1 as [|a b l k Hab _ IH]; simpl; [done|]. by rewrite Hab, IH. Qed.

Lemma exc_mapM_is_ok {A B} (f : A -> Exc B) (l : list A) :
  Forall (fun a => is_ok (f a) = true) l -> is_ok (exc_mapM f l) = true.
Proof.
  induction 1 as [|a l Ha _ IH]; simpl; [done|].
  destruct (f a); [|done]. simpl. by destruct (exc_mapM f l).
Qed.

Lemma StronglySorted_seqZ (m n : Z) : StronglySorted Z.le (seqZ m n).
Proof.
  remember (Z.to_nat n) as k eqn:Hk. revert m n Hk.
  induction k as [|k IH]; intros m n Hk.
  { rewrite seqZ_nil by lia. constructor. }
  rewrite seqZ_cons by lia. constructor.
  - apply IH. lia.
  - apply Forall_seqZ. lia.
Qed.

Lemma StronglySorted_remove_dups {A} `{EqDecision A} (R : relation A) (l : list A) :
  StronglySorted R l -> StronglySorted R (remove_dups l).
Proof.
  induction 1 as [|x l _ IH Hx]; simpl; [constructor|].
  case_match; [done|]. constructor; [done|].
  apply Forall_forall. intros y Hy. apply (proj1 (elem_of_remove_dups _ _)) in Hy.
  rewrite Forall_forall in Hx. by apply Hx.
Qed.

Lemma elem_of_unique (l : list Z) (x : Z) : x ∈ Np.unique l <-> x ∈ l.
Proof. unfold Np.unique. by rewrite elem_of_remove_dups, (merge_sort_Permutation Z.le). Qed.

Lemma unique_full_range (l : list Z) (n : nat) :
  (forall x, x ∈ l <-> 0 <= x < Z.of_nat n) -> Np.unique l = Np.arange n.
Proof.
  intros H. apply (StronglySorted_unique Z.le).
  - apply StronglySorted_remove_dups, (StronglySorted_merge_sort Z.le).
  - apply StronglySorted_seqZ.
  - apply NoDup_Permutation.
    + apply NoDup_remove_dups.
    + apply NoDup_seqZ.
    + intros x. rewrite elem_of_unique, H. unfold Np.arange. rewrite elem_of_seqZ. lia.
Qed.

Section WholeArray.
Context {A : Type}.

Lemma put_seqZ (vals arr : list A) (s : nat) :
  (s + length vals <= length arr)%nat ->
  Np.put arr (seqZ (Z.of_nat s) (Z.of_nat (length vals))) vals =
    Ok (take s arr ++ vals ++ drop (s + length vals) arr).
Proof.
  revert arr s. induction vals as [|v vals IH]; intros arr s Hlen.
  { rewrite seqZ_nil by (simpl; lia). simpl. by rewrite Nat.add_0_r, take_drop. }
  simpl in Hlen. rewrite seqZ_cons by (simpl; lia). simpl.
  rewrite norm_index_nat by lia. simpl.
  replace (Z.succ (Z.of_nat s)) with (Z.of_nat (S s)) by lia.
  replace (Z.pred (Z.of_nat (S (length vals)))) with (Z.of_nat (length vals)) by lia.
  rewrite IH by (rewrite length_insert; lia). f_equal.
  rewrite (take_S_r _ _ v) by (apply list_lookup_insert_eq; lia).
  rewrite take_insert_ge by lia. rewrite drop_insert_lt by lia.
  rewrite <- app_assoc. simpl. by rewrite Nat.add_succ_r.
Qed.

Lemma put_arange (vals arr : list A) :
  length vals = length arr -> Np.put arr (Np.arange (length vals)) vals = Ok vals.
Proof.
  intros H. unfold Np.arange. change 0 with (Z.of_nat 0).
  rewrite (put_seqZ vals arr 0) by lia. simpl.
  by rewrite drop_ge, app_nil_r by lia.
Qed.

Lemma take_arange (arr : list A) : Np.take arr (Np.arange (length arr)) = Ok arr.
Proof.
  unfold Np.take. apply exc_mapM_Forall2.
  apply Forall2_same_length_lookup_2.
  { unfold Np.arange. rewrite length_seqZ. lia. }
  intros i x a Hx Ha. apply lookup_seqZ in Hx as [-> _]. simpl.
  by apply index_nat.
Qed.

End WholeArray.

Lemma take_rows_arange (n : nat) (rows : list Face) :
  Forall (fun i => 0 <= i < Z.of_nat n) (Np.flatten_rows rows) ->
  Np.take_rows (Np.arange n) rows = Ok rows.
Proof.
  intros H. unfold Np.take_rows. apply exc_mapM_Forall2.
  apply Forall2_same_length_lookup_2; [done|].
  intros i f g Hf Hg. rewrite Hf in Hg. injection Hg as <-.
  assert (Forall (fun i => 0 <= i < Z.of_nat n) [f.1.1; f.1.2; f.2]) as Hf3.
  { apply Forall_forall. intros x Hx. eapply Forall_forall in H; [done|].
    unfold Np.flatten_rows. apply list_elem_of_In, in_flat_map.
    exists f. split; [by eapply list_elem_of_In, list_elem_of_lookup_2|].
    destruct f as [[a b] c]. by apply list_elem_of_In. }
  destruct f as [[a b] c]. simpl in Hf3.
  apply Forall_cons in Hf3 as [Ha Hf3]. apply Forall_cons in Hf3 as [Hb Hf3].
  apply Forall_cons in Hf3 as [Hc _].
  assert (forall x, 0 <= x < Z.of_nat n -> Np.index (Np.arange n) x = Ok x) as Hidx.
  { intros x Hx. replace x with (Z.of_nat (Z.to_nat x)) at 1 by lia.
    apply index_nat. unfold Np.arange. rewrite lookup_seqZ_lt by lia. f_equal. lia. }
  by rewrite !Hidx.
Qed.

Lemma take_rows_is_ok {A} (arr : list A) (rows : list Face) :
  Forall (fun i => is_ok (Np.norm_index (length arr) i) = true) (Np.flatten_rows rows) ->
  is_ok (Np.take_rows arr rows) = true.
Proof.
  intros H. unfold Np.take_rows. apply exc_mapM_is_ok.
  apply Forall_forall. intros [[a b] c] Hf.
  assert (forall x, x ∈ [a; b; c] -> is_ok (Np.index arr x) = true) as Hx.
  { intros x Hx. rewrite index_is_ok. eapply Forall_forall in H; [done|].
    unfold Np.flatten_rows. apply list_elem_of_In, in_flat_map.
    exists (a, b, c). split; [by apply list_elem_of_In|]. by apply list_elem_of_In. }
  pose proof (Hx a ltac:(set_solver)) as Ha.
  pose proof (Hx b ltac:(set_solver)) as Hb.
  pose proof (Hx c ltac:(set_solver)) as Hc. simpl.
  destruct (Np.index arr a); [|done]. destruct (Np.index arr b); [|done].
  by destruct (Np.index arr c).
Qed.

Section PassFacts.
Context {F : Type} {ops : CoordOps F}.
Implicit Types (api : TrimeshAPI F) (m : Trimesh F).

Lemma mesh_eta m : mkTrimesh (vertices m) (faces m) = m.
Proof. by destruct m. Qed.

(** *** Failure atomicity of the explicit algorithms *)

Lemma nonfinite_fallback_atomic : atomic (nonfinite_fallback (F := F)).
Proof.
  intros m e. unfold nonfinite_fallback, py_bind, py_get, py_lift, py_ret.
  destruct (negb _); [|done].
  destruct (Np.take_rows (map finite_row (vertices m)) (faces m)); [|done].
  by destruct (Np.take_rows _ _).
Qed.

Lemma degenerate_last_resort_atomic : atomic (degenerate_last_resort (F := F)).
Proof. intros m e. by rewrite degenerate_last_resort_result. Qed.

Lemma degenerate_via_keep_atomic (q : Py (Trimesh F) (option KeepSpec)) :
  read_only q -> atomic (degenerate_via_keep q).
Proof.
  intros Hq. apply atomic_bind_read_only; [done|].
  intros [keep|]; [|apply atomic_ret].
  apply atomic_bind_read_only; [apply read_only_get|]. intros m.
  apply atomic_bind_read_only; [apply read_only_lift|]. intros mask.
  apply update_faces_atomic.
Qed.

Lemma duplicate_fallback_atomic : atomic (duplicate_fallback (F := F)).
Proof.
  intros m e. destruct (duplicate_fallback_result m) as (mask & _ & -> & _). done.
Qed.

Lemma unreferenced_fallback_atomic : atomic (unreferenced_fallback (F := F)).
Proof.
  intros m e. unfold unreferenced_fallback, py_bind, py_get, py_lift.
  set (used := Np.unique (Np.flatten_rows (faces m))).
  destruct (Np.put _ used _) as [new_index|e1] eqn:Hput; [|done].
  destruct (Np.take (vertices m) used) as [v|e2]; [|done]. simpl.
  assert (is_ok (Np.take_rows new_index (faces m)) = true) as Hok.
  { apply take_rows_is_ok. apply Forall_forall. intros i Hi.
    pose proof (put_length _ _ _ _ Hput) as Hlen.
    apply put_Ok_indices in Hput.
    2:{ unfold Np.arange. rewrite length_seqZ. lia. }
    rewrite Forall_forall in Hput. rewrite Hlen. apply Hput.
    by apply elem_of_unique. }
  by destruct (Np.take_rows new_index (faces m)).
Qed.

(** *** The explicit algorithms on a mesh that needs no cleaning *)

Lemma nonfinite_fallback_finite m :
  all_finite m -> nonfinite_fallback m = (m, Ok tt).
Proof.
  intros H. unfold nonfinite_fallback, py_bind, py_get.
  assert (Np.all (map finite_row (vertices m)) = true) as ->; [|done].
  unfold Np.all. rewrite forallb_forall. intros b (v & <- & Hv)%in_map_iff.
  unfold all_finite in H. rewrite Forall_forall in H.
  by apply H, list_elem_of_In.
Qed.

Lemma filter_all {A} (P : A -> Prop) `{forall x, Decision (P x)} (l : list A) :
  Forall P l -> filter P l = l.
Proof.
  induction 1 as [|x l Hx _ IH]; [done|].
  by rewrite filter_cons, decide_True, IH.
Qed.

Lemma degenerate_last_resort_clean m :
  no_degenerate m -> degenerate_last_resort m = (m, Ok tt).
Proof.
  intros H. rewrite degenerate_last_resort_result.
  by rewrite filter_all, mesh_eta.
Qed.

Lemma duplicate_fallback_clean m :
  no_duplicate m -> duplicate_fallback m = (m, Ok tt).
Proof.
  intros H. destruct (duplicate_fallback_result m) as (mask & Hlen & -> & Hmask).
  assert (mask = replicate (length (faces m)) true) as ->.
  { apply list_eq. intros i. destruct (decide (i < length (faces m))%nat) as [Hi|Hi].
    - rewrite lookup_replicate_2 by done. apply Hmask.
      destruct (lookup_lt_is_Some_2 (faces m) i Hi) as [f Hf].
      exists f. split; [done|]. intros j g Hj Hg Heq.
      unfold no_duplicate in H. 
      eapply (NoDup_lookup _ i j) in H; [lia| |]; rewrite list_lookup_fmap.
      + by rewrite Hf.
      + rewrite Hg. simpl. by rewrite Heq.
    - rewrite !lookup_ge_None_2; [done| |]; [rewrite length_replicate|]; lia. }
  by rewrite compress_all_true, mesh_eta.
Qed.

Lemma elem_of_flatten_rows (rows : list Face) (x : Z) :
  x ∈ Np.flatten_rows rows <-> exists f, f ∈ rows /\ x ∈ [f.1.1; f.1.2; f.2].
Proof.
  unfold Np.flatten_rows. rewrite list_elem_of_In, in_flat_map.
  split; intros (f & Hf & Hx); exists f; destruct f as [[a b] c];
    (split; [by apply list_elem_of_In|by apply list_elem_of_In]).
Qed.

Lemma unreferenced_fallback_clean m :
  indices_nonneg m -> all_referenced m -> fst (unreferenced_fallback m) = m.
Proof.
  intros Hnn Href.
  destruct (decide (Forall (fun i => i < Z.of_nat (length (vertices m)))
                      (Np.flatten_rows (faces m)))) as [Hlt|Hge].
  - assert (Np.unique (Np.flatten_rows (faces m)) = Np.arange (length (vertices m)))
      as Hused.
    { apply unique_full_range. intros x. split.
      - intros Hx. unfold indices_nonneg in Hnn. rewrite Forall_forall in Hnn, Hlt.
        split; [by apply Hnn|by apply Hlt].
      - intros Hx. unfold all_referenced in Href. rewrite Forall_forall in Href.
        replace x with (Z.of_nat (Z.to_nat x)) by lia. apply Href.
        apply elem_of_seq. lia. }
    unfold unreferenced_fallback, py_bind, py_get, py_lift. rewrite Hused.
    assert (length (Np.arange (length (vertices m))) = length (vertices m)) as Hlen.
    { unfold Np.arange. rewrite length_seqZ. lia. }
    rewrite Hlen. rewrite <- Hlen at 2.
    rewrite put_arange by (by rewrite length_replicate).
    rewrite take_arange. simpl.
    rewrite take_rows_arange; [simpl; apply mesh_eta|].
    unfold indices_nonneg in Hnn. rewrite Forall_forall in Hnn, Hlt.
    apply Forall_forall. intros i Hi. split; [by apply Hnn|by apply Hlt].
  - apply not_Forall_Exists in Hge; [|apply _].
    unfold unreferenced_fallback, py_bind, py_get, py_lift.
    destruct (put_out_of_range (replicate (length (vertices m)) (-1))
                (Np.unique (Np.flatten_rows (faces m)))
                (Np.arange (length (Np.unique (Np.flatten_rows (faces m))))))
      as [e ->]; [| |done].
    { unfold Np.arange. rewrite length_seqZ. lia. }
    apply Exists_exists in Hge as (i & Hi & Hbig). simpl in Hbig.
    apply Exists_exists. exists i. split; [by apply elem_of_unique|].
    rewrite length_replicate.
    destruct (norm_index_out_of_range (length (vertices m)) i) as [e ->]; [lia|done].
Qed.

End PassFacts.

Section CleanupTheorems.
Context {F : Type} {ops : CoordOps F}.
Implicit Types (api : TrimeshAPI F) (m : Trimesh F).

Local Open Scope py_scope.

Lemma pass_nonfinite_block api : pass_nonfinite api = try_pass (block_nonfinite api).
Proof. unfold pass_nonfinite, block_nonfinite. by destruct (api_remove_infinite_values api). Qed.

Lemma cleanup_passes_blocks api :
  cleanup_passes api =
    (try_pass (block_nonfinite api) ;;;
     try_pass (block_degenerate api) ;;;
     try_pass (block_duplicate api) ;;;
     try_pass (block_unreferenced api) ;;;
     try_pass (block_normals api)).
Proof. unfold cleanup_passes. by rewrite pass_nonfinite_block. Qed.

Lemma cleanup_passes_result api m :
  cleanup_passes api m =
    (fst (block_normals api
       (fst (block_unreferenced api
          (fst (block_duplicate api
             (fst (block_degenerate api
                (fst (block_nonfinite api m))))))))), Ok tt).
Proof. by rewrite cleanup_passes_blocks. Qed.

Lemma cleanup_mesh_returns api m : exists m', cleanup_mesh api m = Ok m'.
Proof. unfold cleanup_mesh. rewrite cleanup_passes_result. eauto. Qed.

(** *** Which block a pass runs *)

Lemma block_nonfinite_offered api c :
  api_remove_infinite_values api = Some c -> block_nonfinite api = c.
Proof. unfold block_nonfinite. by intros ->. Qed.

Lemma block_degenerate_offered api c :
  api_remove_degenerate_faces api = Some c -> block_degenerate api = c.
Proof. unfold block_degenerate. by intros ->. Qed.

Lemma block_degenerate_query api q :
  api_remove_degenerate_faces api = None -> api_nondegenerate_faces api = Some q ->
  block_degenerate api = degenerate_via_keep q.
Proof. unfold block_degenerate. by intros -> ->. Qed.

Lemma block_duplicate_offered api c :
  api_remove_duplicate_faces api = Some c -> block_duplicate api = c.
Proof. unfold block_duplicate. by intros ->. Qed.

Lemma block_unreferenced_offered api c :
  api_remove_unreferenced_vertices api = Some c -> block_unreferenced api = c.
Proof. unfold block_unreferenced. by intros ->. Qed.

Lemma block_normals_offered api c :
  api_fix_normals api = Some c -> block_normals api = c.
Proof. unfold block_normals. by intros ->. Qed.

Lemma block_nonfinite_explicit api :
  api_remove_infinite_values api = None -> block_nonfinite api = nonfinite_fallback.
Proof. unfold block_nonfinite. by intros ->. Qed.

Lemma block_degenerate_explicit api :
  api_remove_degenerate_faces api = None -> api_nondegenerate_faces api = None ->
  block_degenerate api = degenerate_last_resort.
Proof. unfold block_degenerate. by intros -> ->. Qed.

Lemma block_duplicate_explicit api :
  api_remove_duplicate_faces api = None -> block_duplicate api = duplicate_fallback.
Proof. unfold block_duplicate. by intros ->. Qed.

Lemma block_unreferenced_explicit api :
  api_remove_unreferenced_vertices api = None ->
  block_unreferenced api = unreferenced_fallback.
Proof. unfold block_unreferenced. by intros ->. Qed.

Lemma block_normals_explicit api :
  api_fix_normals api = None -> block_normals api = py_ret tt.
Proof. unfold block_normals. by intros ->. Qed.


(** C10, as amended.  Every pass of [cleanup_mesh] stands in its own
    [try]: an exception raised by the block of a pass is caught there,
    the next pass goes on with the mesh as the block left it, and
    [cleanup_mesh] itself always returns a mesh.  Where a pass runs the
    explicit algorithm of the source, a failure leaves the mesh as it
    was before the pass (the pass through [nondegenerate_faces] as the
    query left it).  Where a pass calls a method of trimesh, the block
    is that call: the mesh has whatever the method did to it before it
    raised. *)
Theorem cleanup_absorbs_pass_failures api m :
  (exists m', cleanup_mesh api m = Ok m') /\
  cleanup_passes api =
    (try_pass (block_nonfinite api) ;;;
     try_pass (block_degenerate api) ;;;
     try_pass (block_duplicate api) ;;;
     try_pass (block_unreferenced api) ;;;
     try_pass (block_normals api)) /\
  (forall (block : Py (Trimesh F) unit) s, try_pass block s = (fst (block s), Ok tt)) /\
  (api_remove_infinite_values api = None -> atomic (block_nonfinite api)) /\
  (api_remove_degenerate_faces api = None -> api_nondegenerate_faces api = None ->
   atomic (block_degenerate api)) /\
  (forall q, api_remove_degenerate_faces api = None -> api_nondegenerate_faces api = Some q ->
     forall s e, snd (block_degenerate api s) = Raise e ->
       fst (block_degenerate api s) = fst (q s)) /\
  (api_remove_duplicate_faces api = None -> atomic (block_duplicate api)) /\
  (api_remove_unreferenced_vertices api = None -> atomic (block_unreferenced api)) /\
  (api_fix_normals api = None -> atomic (block_normals api)) /\
  (forall c, api_remove_infinite_values api = Some c -> block_nonfinite api = c) /\
  (forall c, api_remove_degenerate_faces api = Some c -> block_degenerate api = c) /\
  (forall c, api_remove_duplicate_faces api = Some c -> block_duplicate api = c) /\
  (forall c, api_remove_unreferenced_vertices api = Some c -> block_unreferenced api = c) /\
  (forall c, api_fix_normals api = Some c -> block_normals api = c).
Proof.
  split; [apply cleanup_mesh_returns|].
  split; [apply cleanup_passes_blocks|].
  split; [intros block s; apply try_pass_result|].
  split; [intros H; rewrite block_nonfinite_explicit by done;
          apply nonfinite_fallback_atomic|].
  split; [intros H1 H2; rewrite block_degenerate_explicit by done;
          apply degenerate_last_resort_atomic|].
  split.
  { intros q H1 H2 s e. rewrite (block_degenerate_query api q H1 H2).
    unfold degenerate_via_keep, py_bind.
    destruct (q s) as [m1 [[keep|]|e1]]; simpl; [|done|done].
    unfold py_get, py_lift.
    destruct (face_mask_of_keep (length (faces m1)) keep) as [mask|e2]; simpl; [|done].
    apply update_faces_atomic. }
  split; [intros H; rewrite block_duplicate_explicit by done;
          apply duplicate_fallback_atomic|].
  split; [intros H; rewrite block_unreferenced_explicit by done;
          apply unreferenced_fallback_atomic|].
  split; [intros H; rewrite block_normals_explicit by done; apply atomic_ret|].
  split; [apply block_nonfinite_offered|].
  split; [apply block_degenerate_offered|].
  split; [apply block_duplicate_offered|].
  split; [apply block_unreferenced_offered|apply block_normals_offered].
Qed.

(** *** A clean mesh goes through every pass unchanged *)

Lemma block_nonfinite_clean api m :
  idle_at api m -> clean m -> fst (block_nonfinite api m) = m.
Proof.
  intros Hapi Hm. unfold block_nonfinite.
  destruct (api_remove_infinite_values api) eqn:E;
    [by eapply idle_remove_infinite_values|].
  rewrite nonfinite_fallback_finite; [done|apply Hm].
Qed.

Lemma block_degenerate_clean api m :
  idle_at api m -> clean m -> fst (block_degenerate api m) = m.
Proof.
  intros Hapi Hm. unfold block_degenerate.
  destruct (api_remove_degenerate_faces api) eqn:E1;
    [by eapply idle_remove_degenerate_faces|].
  destruct (api_nondegenerate_faces api) as [q|] eqn:E2.
  - destruct (idle_nondegenerate_faces api m Hapi q E2) as [Hq Hkeep].
    unfold degenerate_via_keep, py_bind at 1.
    destruct (q m) as [m' [[keep|]|e]]; simpl in *; subst m'; [|done|done].
    unfold py_bind, py_get, py_lift. rewrite (Hkeep keep eq_refl).
    rewrite update_faces_same_length by (by rewrite length_replicate).
    simpl. by rewrite compress_all_true, mesh_eta.
  - rewrite degenerate_last_resort_clean; [done|apply Hm].
Qed.

Lemma block_duplicate_clean api m :
  idle_at api m -> clean m -> fst (block_duplicate api m) = m.
Proof.
  intros Hapi Hm. unfold block_duplicate.
  destruct (api_remove_duplicate_faces api) eqn:E;
    [by eapply idle_remove_duplicate_faces|].
  rewrite duplicate_fallback_clean; [done|apply Hm].
Qed.

Lemma block_unreferenced_clean api m :
  idle_at api m -> clean m -> fst (block_unreferenced api m) = m.
Proof.
  intros Hapi Hm. unfold block_unreferenced.
  destruct (api_remove_unreferenced_vertices api) eqn:E;
    [by eapply idle_remove_unreferenced_vertices|].
  apply unreferenced_fallback_clean; apply Hm.
Qed.

Lemma block_normals_clean api m :
  idle_at api m -> clean m -> fst (block_normals api m) = m.
Proof.
  intros Hapi Hm. unfold block_normals.
  destruct (api_fix_normals api) eqn:E; [by eapply idle_fix_normals|done].
Qed.

Lemma cleanup_mesh_idle api m :
  idle_at api m -> clean m -> cleanup_mesh api m = Ok m.
Proof.
  intros Hapi Hm. unfold cleanup_mesh. rewrite cleanup_passes_result.
  rewrite block_nonfinite_clean, block_degenerate_clean, block_duplicate_clean,
    block_unreferenced_clean, block_normals_clean by done. done.
Qed.

Lemma bare_api_idle (merge : Py (Trimesh F) unit) m : idle_at (bare_api merge) m.
Proof. by split. Qed.

(** C1, as amended.  Take a mesh with finite coordinates, without
    degenerate and duplicate faces, without negative face indices and in
    which every vertex is used by some face.  Every pass that runs the
    explicit algorithm of the source leaves it as it is.  So
    [cleanup_mesh] returns it unchanged (same vertices, same faces) when
    trimesh offers none of the optional methods, and more generally when
    the methods that are offered leave this mesh as it is.  (Without
    the condition on the vertices pass 4 removes the unused ones and
    renumbers the faces; a method of trimesh that is offered is called
    and decides what its pass does.) *)
Theorem cleanup_leaves_clean_mesh api m :
  clean m ->
  (api_remove_infinite_values api = None -> pass_nonfinite api m = (m, Ok tt)) /\
  (api_remove_degenerate_faces api = None -> api_nondegenerate_faces api = None ->
   pass_degenerate api m = (m, Ok tt)) /\
  (api_remove_duplicate_faces api = None -> pass_duplicate api m = (m, Ok tt)) /\
  (api_remove_unreferenced_vertices api = None -> pass_unreferenced api m = (m, Ok tt)) /\
  (api_fix_normals api = None -> pass_normals api m = (m, Ok tt)) /\
  (forall merge, cleanup_mesh (bare_api merge) m = Ok m) /\
  (idle_at api m ->
   cleanup_mesh api m = Ok m /\
   forall m', cleanup_mesh api m = Ok m' ->
     length (vertices m') = length (vertices m) /\
     length (faces m') = length (faces m) /\
     faces m' = faces m).
Proof.
  intros Hm.
  split.
  { intros H. rewrite pass_nonfinite_block, try_pass_result.
    rewrite block_nonfinite_explicit by done.
    rewrite nonfinite_fallback_finite; [done|apply Hm]. }
  split.
  { intros H1 H2. unfold pass_degenerate. rewrite try_pass_result.
    rewrite block_degenerate_explicit by done.
    rewrite degenerate_last_resort_clean; [done|apply Hm]. }
  split.
  { intros H. unfold pass_duplicate. rewrite try_pass_result.
    rewrite block_duplicate_explicit by done.
    rewrite duplicate_fallback_clean; [done|apply Hm]. }
  split.
  { intros H. unfold pass_unreferenced. rewrite try_pass_result.
    rewrite block_unreferenced_explicit by done.
    rewrite unreferenced_fallback_clean; [done|apply Hm|apply Hm]. }
  split.
  { intros H. unfold pass_normals. rewrite try_pass_result.
    by rewrite block_normals_explicit. }
  split.
  { intros merge. apply cleanup_mesh_idle; [apply bare_api_idle|done]. }
  intros Hapi. rewrite cleanup_mesh_idle by done.
  split; [done|]. by intros m' [= <-].
Qed.



End CleanupTheorems.

(** ** Strings *)

Section StringFacts.
Local Open Scope string_scope.
Implicit Types (s t u : string).

Lemma string_length_app s t : String.length (s ++ t) = (String.length s + String.length t)%nat.
Proof. induction s as [|c s IH]; simpl; [done|]. by rewrite IH. Qed.

Lemma string_app_inv_tail s t u : s ++ u = t ++ u -> s = t.
Proof.
  revert t. induction s as [|c s IH]; intros [|d t]; simpl; [done| | |].
  - intros H. apply (f_equal String.length) in H.
    rewrite !string_length_app in H. simpl in H. lia.
  - intros H. apply (f_equal String.length) in H.
    rewrite !string_length_app in H. simpl in H. lia.
  - intros [= -> H]. by rewrite (IH t H).
Qed.

Lemma is_digit_pretty_N_char (x : N) : Str.is_digit (pretty_N_char x) = true.
Proof.
  unfold pretty_N_char.
  repeat first [ reflexivity
               | match goal with
                 | |- context [match ?p with _ => _ end] => destruct p
                 end ].
Qed.

Lemma all_digits_pretty_N_go (x : N) s :
  Str.all_digits s = true -> Str.all_digits (pretty_N_go x s) = true.
Proof.
  revert s. induction (N.lt_wf_0 x) as [x _ IH]; intros s Hs.
  destruct (decide (x = 0)%N) as [->|Hx]; [by rewrite pretty_N_go_0|].
  rewrite (pretty_N_go_step x s) by lia.
  apply IH; [apply N.div_lt; lia|].
  change (Str.is_digit (pretty_N_char (x `mod` 10)) && Str.all_digits s = true).
  by rewrite is_digit_pretty_N_char, Hs.
Qed.

Lemma all_digits_pretty (k : nat) : Str.all_digits (pretty k) = true.
Proof.
  unfold pretty, pretty_nat, pretty, pretty_N.
  case_decide; [done|]. by apply all_digits_pretty_N_go.
Qed.

Lemma all_digits_fmt_02d (k : nat) : Str.all_digits (Str.fmt_02d k) = true.
Proof.
  unfold Str.fmt_02d. destruct (_ <? _)%nat; [|apply all_digits_pretty].
  change (Str.is_digit "0" && Str.all_digits (pretty k) = true).
  by rewrite all_digits_pretty.
Qed.

Lemma is_digit_no_slash (c : ascii) : Str.is_digit c = true -> Ascii.eqb c "/" = false.
Proof.
  destruct c as [[] [] [] [] [] [] [] []]; (discriminate || reflexivity).
Qed.

Lemma all_digits_no_slash s : Str.all_digits s = true -> Str.no_slash s = true.
Proof.
  induction s as [|c s IH]; [done|]. simpl.
  intros [Hc Hs]%andb_prop. by rewrite (is_digit_no_slash c Hc), IH.
Qed.

Lemma no_slash_app s t : Str.no_slash (s ++ t) = Str.no_slash s && Str.no_slash t.
Proof. induction s as [|c s IH]; simpl; [done|]. by rewrite IH, andb_assoc. Qed.

Lemma candidate_succ (out_name : string) (k : nat) :
  candidate out_name (S k) = out_name ++ "_" ++ pretty (S k) ++ ".obj".
Proof. done. Qed.

(** The numbered candidates differ from each other, also after
    lowering. *)
Lemma lower_candidate_inj {fold : CaseFold} (out_name : string) (j k : nat) :
  py_lower (candidate out_name (S j)) = py_lower (candidate out_name (S k)) -> j = k.
Proof.
  rewrite !candidate_succ. intros H.
  apply py_lower_numbered in H; [|apply all_digits_pretty..].
  apply (inj pretty) in H. lia.
Qed.

Lemma truthy_empty s : Str.truthy s = false <-> s = "".
Proof. by destruct s. Qed.

(** *** Path texts *)

Lemma split_no_slash t : Str.no_slash t = true -> Str.split_slash t = [t].
Proof.
  induction t as [|c t IH]; [done|]. simpl.
  intros [Hc Ht]%andb_prop. apply negb_true_iff in Hc. by rewrite Hc, IH.
Qed.

(** The text after the last slash takes up what is appended, as long as
    that holds no slash. *)
Lemma split_slash_app s :
  exists init z,
    Str.split_slash s = (init ++ [z])%list /\
    forall t, Str.no_slash t = true -> Str.split_slash (s ++ t) = (init ++ [(z ++ t)%string])%list.
Proof.
  induction s as [|c s (init & z & Hs & Hst)].
  { exists [], "". split; [done|]. intros t Ht. by rewrite split_no_slash. }
  simpl. destruct (Ascii.eqb c "/") eqn:Hc.
  - exists ("" :: init), z. rewrite Hs. split; [done|].
    intros t Ht. by rewrite Hst.
  - destruct init as [|h init].
    + exists [], (String c z). rewrite Hs. split; [done|].
      intros t Ht. by rewrite Hst.
    + exists (String c h :: init), z. rewrite Hs. split; [done|].
      intros t Ht. by rewrite Hst.
Qed.

Lemma name_joinpath folder c (init : list string) z :
  Str.split_slash c = (init ++ [z])%list -> Str.kept z = true ->
  name (joinpath folder c) = z.
Proof.
  intros Hc Hz. unfold joinpath, Str.parts. rewrite Hc, List.filter_app. simpl.
  rewrite Hz. destruct (Str.truthy (Str.root c)); simpl.
  - apply List.last_last.
  - rewrite app_assoc. apply List.last_last.
Qed.

Lemma kept_cons2 (c d : ascii) s : Str.kept (String c (String d s)) = true.
Proof. unfold Str.kept. cbn. by destruct (Ascii.eqb c "."). Qed.

Lemma kept_numbered z t : Str.kept (z ++ "_" ++ t) = true.
Proof. destruct z as [|c [|d z]]; [reflexivity|apply kept_cons2..]. Qed.

Lemma kept_obj z : Str.kept (z ++ ".obj") = true.
Proof. destruct z as [|c [|d z]]; [reflexivity|apply kept_cons2..]. Qed.

(** A numbered candidate keeps its number in the name of the path. *)
Lemma name_joinpath_numbered folder s :
  exists z, forall x, Str.no_slash x = true ->
    name (joinpath folder (s ++ "_" ++ x ++ ".obj")) = z ++ "_" ++ x ++ ".obj".
Proof.
  destruct (split_slash_app s) as (init & z & Hs & Hst).
  exists z. intros x Hx. apply (name_joinpath _ _ init).
  - apply Hst.
    change (negb (Ascii.eqb "_" "/") && Str.no_slash (x ++ ".obj") = true).
    by rewrite no_slash_app, Hx.
  - apply kept_numbered.
Qed.

Lemma joinpath_candidate_inj folder (out_name : string) (j k : nat) :
  joinpath folder (candidate out_name (S j)) = joinpath folder (candidate out_name (S k)) ->
  j = k.
Proof.
  rewrite !candidate_succ. intros H. apply (f_equal name) in H.
  destruct (name_joinpath_numbered folder out_name) as [z Hz].
  rewrite !Hz in H by apply all_digits_no_slash, all_digits_pretty.
  apply (inj (String.append _)) in H. apply (inj (String.append _)) in H.
  apply string_app_inv_tail in H. apply (inj pretty) in H. lia.
Qed.

(** A candidate of a stem without a slash is the name of its path. *)
Lemma name_joinpath_candidate folder stem_ (k : nat) :
  Str.no_slash stem_ = true ->
  name (joinpath folder (candidate stem_ k)) = candidate stem_ k.
Proof.
  intros Hs. apply (name_joinpath _ _ []).
  - apply split_no_slash. destruct k as [|k].
    + unfold candidate. by rewrite no_slash_app, Hs.
    + rewrite candidate_succ, no_slash_app, Hs.
      change (negb (Ascii.eqb "_" "/") && Str.no_slash (pretty (S k) ++ ".obj") = true).
      rewrite no_slash_app, all_digits_no_slash; [done|apply all_digits_pretty].
  - destruct k; [apply kept_obj|apply kept_numbered].
Qed.

End StringFacts.
(** ** The collision loop *)

Section NamerFacts.
Context {fold : CaseFold}.
Variable existing : gset Path.
Variable stat_error : Path -> option string.
Implicit Types (used : gset string) (folder out_name c : string).

Lemma path_exists_true (p : Path) :
  path_exists existing stat_error p = Ok true -> p ∈ existing.
Proof.
  unfold path_exists. destruct (stat_error p); [done|].
  intros [= H]. by apply bool_decide_eq_true in H.
Qed.

Lemma path_exists_false (p : Path) :
  path_exists existing stat_error p = Ok false <-> stat_error p = None /\ p ∉ existing.
Proof.
  unfold path_exists. destruct (stat_error p); [by split; [|intros []]|].
  split.
  - intros [= H]. by apply bool_decide_eq_false in H.
  - intros [_ H]. f_equal. by apply bool_decide_eq_false.
Qed.

Lemma path_exists_raise (p : Path) (e : PyExc) :
  path_exists existing stat_error p = Raise e <->
  exists msg, e = OSError msg /\ stat_error p = Some msg.
Proof.
  unfold path_exists. destruct (stat_error p) as [msg|].
  - split; [intros [= <-]; by exists msg|]. by intros (? & -> & [= ->]).
  - split; [done|]. by intros (? & _ & ?).
Qed.

Lemma path_exists_answers (p : Path) :
  stat_error p = None ->
  path_exists existing stat_error p = Ok (bool_decide (p ∈ existing)).
Proof. unfold path_exists. by intros ->. Qed.

Lemma taken_false used folder c :
  taken existing stat_error used folder c = Ok false <->
  (py_lower c ∉ used) /\ path_exists existing stat_error (joinpath folder c) = Ok false.
Proof.
  unfold taken. case_bool_decide; [|tauto]. split; [done|]. by intros [? _].
Qed.

Lemma taken_true used folder c :
  taken existing stat_error used folder c = Ok true ->
  py_lower c ∈ used \/ path_exists existing stat_error (joinpath folder c) = Ok true.
Proof. unfold taken. case_bool_decide; tauto. Qed.

Lemma taken_raise used folder c (e : PyExc) :
  taken existing stat_error used folder c = Raise e <->
  (py_lower c ∉ used) /\ path_exists existing stat_error (joinpath folder c) = Raise e.
Proof.
  unfold taken. case_bool_decide; [|tauto]. split; [done|]. by intros [? _].
Qed.

(** With enough fuel the loop stops at the first candidate for which the
    test is not true: there it returns the candidate, or passes on the
    exception of the test. *)
Lemma resolve_loop_first_stop used folder out_name (fuel j k : nat) :
  (j <= k < j + fuel)%nat ->
  taken existing stat_error used folder (candidate out_name k) <> Ok true ->
  exists k',
    (j <= k' <= k)%nat /\
    (forall i, (j <= i < k')%nat ->
       taken existing stat_error used folder (candidate out_name i) = Ok true) /\
    ((taken existing stat_error used folder (candidate out_name k') = Ok false /\
      resolve_loop existing stat_error fuel used folder out_name (S j) (candidate out_name j)
        = Some (Ok (candidate out_name k'))) \/
     (exists e,
        taken existing stat_error used folder (candidate out_name k') = Raise e /\
        resolve_loop existing stat_error fuel used folder out_name (S j) (candidate out_name j)
          = Some (Raise e))).
Proof.
  revert j. induction fuel as [|fuel IH]; intros j Hk Hstop; [lia|].
  simpl. destruct (taken existing stat_error used folder (candidate out_name j))
    as [[|]|e] eqn:Hj.
  - assert (j <> k) by (intros ->; congruence).
    destruct (IH (S j)) as (k' & Hk' & Hall & Hres); [lia|done|].
    exists k'. split; [lia|]. split; [|done].
    intros i Hi. destruct (decide (i = j)) as [->|]; [done|]. apply Hall. lia.
  - exists j. split; [lia|]. split; [intros i Hi; lia|]. left. by rewrite Hj.
  - exists j. split; [lia|]. split; [intros i Hi; lia|]. right. exists e. by rewrite Hj.
Qed.

(** Among the first [size used + size existing + 1] numbered candidates
    there is one for which the test is not true. *)
Lemma some_candidate_stops used folder out_name :
  exists k, (1 <= k < size used + size existing + 2)%nat /\
    taken existing stat_error used folder (candidate out_name k) <> Ok true.
Proof.
  set (N := (size used + size existing + 1)%nat).
  set (L := seq 1 N).
  set (goes_on := fun k : nat =>
         match taken existing stat_error used folder (candidate out_name k) with
         | Ok true => true
         | _ => false
         end).
  destruct (decide (Exists (fun k => goes_on k = false) L)) as [Hex|Hall].
  { apply Exists_exists in Hex as (k & Hk & Hfree). apply elem_of_seq in Hk.
    exists k. split; [unfold N in Hk; lia|]. unfold goes_on in Hfree.
    intros Heq. by rewrite Heq in Hfree. }
  exfalso. apply not_Exists_Forall in Hall; [|apply _].
  rewrite Forall_forall in Hall.
  set (P := fun k : nat => py_lower (candidate out_name k) ∈ used).
  pose proof (filter_app_complement P L) as Hperm.
  apply Permutation_length in Hperm. rewrite length_app in Hperm.
  assert (length L = N) as HL by apply length_seq.
  assert (forall k, k ∈ L -> exists k', k = S k') as Hpos.
  { intros k Hk%elem_of_seq. exists (pred k). lia. }
  assert (length (filter P L) <= size used)%nat as H1.
  { rewrite <- (length_fmap (fun k => py_lower (candidate out_name k))).
    unfold size, set_size. simpl. apply submseteq_length, NoDup_submseteq.
    - apply NoDup_fmap_2_strong; [|apply NoDup_filter, NoDup_seq].
      intros x y [_ Hx]%list_elem_of_filter [_ Hy]%list_elem_of_filter Heq.
      destruct (Hpos x Hx) as [x' ->], (Hpos y Hy) as [y' ->].
      f_equal. by eapply lower_candidate_inj.
    - intros s (k & -> & [Hk _]%list_elem_of_filter)%list_elem_of_fmap.
      by apply elem_of_elements. }
  assert (length (filter (fun k => ~ P k) L) <= size existing)%nat as H2.
  { rewrite <- (length_fmap (fun k => joinpath folder (candidate out_name k))).
    unfold size, set_size. simpl. apply submseteq_length, NoDup_submseteq.
    - apply NoDup_fmap_2_strong; [|apply NoDup_filter, NoDup_seq].
      intros x y [_ Hx]%list_elem_of_filter [_ Hy]%list_elem_of_filter Heq.
      destruct (Hpos x Hx) as [x' ->], (Hpos y Hy) as [y' ->].
      f_equal. by eapply joinpath_candidate_inj.
    - intros s (k & -> & [Hk HkL]%list_elem_of_filter)%list_elem_of_fmap.
      apply elem_of_elements. specialize (Hall k HkL). simpl in Hall.
      unfold goes_on in Hall.
      destruct (taken existing stat_error used folder (candidate out_name k))
        as [[|]|e] eqn:Htaken; [|done|done].
      apply taken_true in Htaken as [?|?]; [done|].
      by apply path_exists_true. }
  unfold N in HL. lia.
Qed.

(** The loop ends: at the first candidate that is free, or at the first
    one for which the disk refuses the question. *)
Lemma resolve_loop_result used folder out_name :
  exists k,
    (forall i, (i < k)%nat ->
       taken existing stat_error used folder (candidate out_name i) = Ok true) /\
    ((taken existing stat_error used folder (candidate out_name k) = Ok false /\
      resolve_loop existing stat_error (resolve_fuel existing used) used folder out_name 1
        (out_name ++ ".obj")%string = Some (Ok (candidate out_name k))) \/
     (exists e,
        taken existing stat_error used folder (candidate out_name k) = Raise e /\
        resolve_loop existing stat_error (resolve_fuel existing used) used folder out_name 1
          (out_name ++ ".obj")%string = Some (Raise e))).
Proof.
  destruct (some_candidate_stops used folder out_name) as (k & Hk & Hstop).
  destruct (resolve_loop_first_stop used folder out_name (resolve_fuel existing used) 0 k)
    as (k' & Hk' & Hall & Hres); [unfold resolve_fuel; lia|done|].
  exists k'. split; [|done]. intros i Hi. apply Hall. lia.
Qed.

End NamerFacts.

Section BuildFacts.
Context {fold : CaseFold}.
Variable existing : gset Path.
Variable stat_error : Path -> option string.
Variable out_dir_text : string.
Variable naming_index : Z.
Variable custom_name_text : string.

Lemma names_of_snoc (names : list string) (c : string) :
  names_of (names ++ [c]) = {[py_lower c]} ∪ names_of names.
Proof.
  unfold names_of. rewrite map_app. simpl.
  change (map ?f ?l) with (f <$> l). rewrite list_to_set_app_L. simpl.
  rewrite (right_id_L ∅ (∪)). apply (comm_L (∪)).
Qed.

Lemma taken_name_free (names : list string) (folder c : string) :
  taken existing stat_error (names_of names) folder c = Ok false <->
  name_free existing stat_error names folder c.
Proof.
  rewrite taken_false. unfold name_free, names_of.
  by rewrite elem_of_list_to_set.
Qed.

Lemma taken_name_taken (names : list string) (folder c : string) :
  taken existing stat_error (names_of names) folder c = Ok true ->
  name_taken existing stat_error names folder c.
Proof.
  intros H%taken_true. unfold name_taken, names_of in *.
  by rewrite elem_of_list_to_set in H.
Qed.

(** What the loop over the jobs returns.  An exception is the one of
    the naming mode for some job, or the one of the disk for a
    candidate of some job.  Otherwise every job was given a name, the
    first free one of its row. *)
Lemma build_loop_spec (n idx : nat) (items : list Path) (names : list string)
    (pairs : list (Path * Path)) :
  exists r,
    build_loop existing stat_error out_dir_text naming_index custom_name_text n idx items
      (names_of names) pairs = Some r /\
    match r with
    | Raise e =>
        exists i inp given,
          items !! i = Some inp /\ length given = i /\
          (forall j c, given !! j = Some c ->
             exists inp' stem',
               items !! j = Some inp' /\
               out_name_of naming_index custom_name_text n (idx + j) inp' = Ok stem' /\
               resolved existing stat_error out_dir_text (names ++ take j given)
                 stem' inp' c (joinpath (dest_folder out_dir_text inp') c)) /\
          (out_name_of naming_index custom_name_text n (idx + i) inp = Raise e \/
           exists stem_ msg,
             out_name_of naming_index custom_name_text n (idx + i) inp = Ok stem_ /\
             e = OSError msg /\
             refused existing stat_error out_dir_text (names ++ given) stem_ inp msg)
    | Ok res =>
        exists new given,
          res = pairs ++ new /\
          length new = length items /\ length given = length items /\
          forall i inp out, new !! i = Some (inp, out) ->
            items !! i = Some inp /\
            exists stem_ c,
              given !! i = Some c /\
              out_name_of naming_index custom_name_text n (idx + i) inp = Ok stem_ /\
              resolved existing stat_error out_dir_text (names ++ take i given)
                stem_ inp c out
    end.
Proof.
  revert idx names pairs. induction items as [|inp items IH]; intros idx names pairs.
  { exists (Ok pairs). split; [done|]. exists [], []. rewrite app_nil_r.
    split; [done|]. split; [done|]. split; [done|]. by intros i ? ? ?. }
  simpl. destruct (out_name_of naming_index custom_name_text n idx inp) as [stem_|e] eqn:Hstem.
  2:{ exists (Raise e). split; [done|]. exists 0%nat, inp, []. rewrite Nat.add_0_r.
      split; [done|]. split; [done|]. split; [by intros j c ?|]. by left. }
  change (match out_dir out_dir_text with Some d => d | None => parent inp end)
    with (dest_folder out_dir_text inp).
  destruct (resolve_loop_result existing stat_error (names_of names)
              (dest_folder out_dir_text inp) stem_)
    as (k & Hbefore & [[Hfree ->]|(e & He & ->)]).
  2:{ exists (Raise e). split; [done|]. exists 0%nat, inp, []. rewrite Nat.add_0_r.
      split; [done|]. split; [done|]. split; [by intros j c ?|]. right.
      apply taken_raise in He as [Hnew (msg & -> & Hmsg)%path_exists_raise].
      exists stem_, msg. rewrite app_nil_r.
      split; [done|]. split; [done|].
      exists k. split; [|split; [done|]].
      - unfold names_of in Hnew. by rewrite elem_of_list_to_set in Hnew.
      - intros j Hj. by apply taken_name_taken, Hbefore. }
  set (c := candidate stem_ k) in *.
  set (out := joinpath (dest_folder out_dir_text inp) c).
  rewrite <- (names_of_snoc names c).
  destruct (IH (S idx) (names ++ [c]) (pairs ++ [(inp, out)])) as (r & -> & Hr).
  exists r. split; [done|]. destruct r as [res|e].
  - destruct Hr as (new & given & -> & Hlen & Hlen' & Hnew).
    exists ((inp, out) :: new), (c :: given). rewrite <- app_assoc. simpl.
    split; [done|]. split; [by rewrite Hlen|]. split; [by rewrite Hlen'|].
    intros [|i] inp' out'; simpl.
    + intros [= <- <-]. split; [done|]. exists stem_, c.
      rewrite Nat.add_0_r, app_nil_r. split; [done|]. split; [done|].
      exists k. split; [done|]. split; [done|]. split; [by apply taken_name_free|].
      intros j Hj. by apply taken_name_taken, Hbefore.
    + intros Hi. destruct (Hnew i inp' out' Hi) as (Hitem & stem' & c' & Hc' & Hstem' & Hres).
      split; [done|]. exists stem', c'. rewrite Nat.add_succ_r. split; [done|].
      split; [done|]. by rewrite <- app_assoc in Hres.
  - destruct Hr as (i & inp' & given & Hi & Hlen & Hgiven & Hlast).
    exists (S i), inp', (c :: given). split; [done|]. split; [by rewrite <- Hlen|].
    split.
    + intros [|j] c'; simpl.
      * intros [= <-]. exists inp, stem_. rewrite Nat.add_0_r, app_nil_r.
        split; [done|]. split; [done|].
        exists k. split; [done|]. split; [done|]. split; [by apply taken_name_free|].
        intros j Hj. by apply taken_name_taken, Hbefore.
      * intros Hj. destruct (Hgiven j c' Hj) as (inp2 & stem2 & Hitem & Hstem2 & Hres).
        exists inp2, stem2. rewrite Nat.add_succ_r. split; [done|]. split; [done|].
        by rewrite <- app_assoc in Hres.
    + rewrite Nat.add_succ_r.
      destruct Hlast as [Hname|(stem' & msg & Hname & -> & Href)]; [by left|].
      right. exists stem', msg. split; [done|]. split; [done|].
      by rewrite <- app_assoc in Href.
Qed.

End BuildFacts.

Section NamerTheorems.
Context {fold : CaseFold}.
Variable existing : gset Path.
Variable stat_error : Path -> option string.
Variables selected all_items : list Path.
Variable out_dir_text : string.
Variable naming_index : Z.
Variable custom_name_text : string.

Local Open Scope string_scope.

Lemma build_conversion_list_spec :
  let items := use_items selected all_items in
  exists r,
    _build_conversion_list existing stat_error selected all_items out_dir_text naming_index
      custom_name_text = Some r /\
    match r with
    | Raise e =>
        exists i inp given,
          items !! i = Some inp /\ length given = i /\
          (forall j c, given !! j = Some c ->
             exists inp' stem',
               items !! j = Some inp' /\
               out_name_of naming_index custom_name_text (length items) (S j) inp'
                 = Ok stem' /\
               resolved existing stat_error out_dir_text (take j given)
                 stem' inp' c (joinpath (dest_folder out_dir_text inp') c)) /\
          (out_name_of naming_index custom_name_text (length items) (S i) inp = Raise e \/
           exists stem_ msg,
             out_name_of naming_index custom_name_text (length items) (S i) inp = Ok stem_ /\
             e = OSError msg /\
             refused existing stat_error out_dir_text given stem_ inp msg)
    | Ok pairs =>
        exists given,
          length pairs = length items /\ length given = length items /\
          forall i inp out, pairs !! i = Some (inp, out) ->
            items !! i = Some inp /\
            exists stem_ c,
              given !! i = Some c /\
              out_name_of naming_index custom_name_text (length items) (S i) inp = Ok stem_ /\
              resolved existing stat_error out_dir_text (take i given) stem_ inp c out
    end.
Proof.
  intros items. unfold _build_conversion_list. fold items.
  destruct items as [|inp items'] eqn:Hitems.
  { exists (Ok []). split; [done|]. exists []. split; [done|]. split; [done|].
    by intros i ? ? ?. }
  rewrite <- Hitems.
  destruct (build_loop_spec existing stat_error out_dir_text naming_index custom_name_text
              (length items) 1 items [] [])
    as (r & Heq & Hr).
  exists r. split; [done|]. destruct r as [res|e].
  - destruct Hr as (new & given & -> & Hlen & Hlen' & Hnew). exists given. done.
  - done.
Qed.

(** C7.  [_build_conversion_list] always ends.  It keeps the lowered
    names given so far, and every job gets the first name of the row
    [stem.obj], [stem_1.obj], [stem_2.obj], ... that no earlier job of
    the run was given (letter case aside, as [str.lower] sees it) and
    for which the disk answers that no such file lies in the destination
    folder; every candidate before it is taken.  The result is a function
    of the job list, the settings and the disk.  When the method raises,
    the exception is the one of the naming mode or the one with which
    the disk refused a candidate.  With [part.obj] on disk and the custom
    name [part] a single job gets [part_1.obj]; [a.stl] and [A.stl] in
    one folder get [a.obj] and [A_1.obj]. *)
Theorem namer_resolves_collisions :
  let items := use_items selected all_items in
  (exists r,
     _build_conversion_list existing stat_error selected all_items out_dir_text naming_index
       custom_name_text = Some r /\
     (forall pairs, r = Ok pairs ->
        exists given,
          length pairs = length items /\ length given = length items /\
          forall i inp out, pairs !! i = Some (inp, out) ->
            items !! i = Some inp /\
            exists stem_ c,
              given !! i = Some c /\
              out_name_of naming_index custom_name_text (length items) (S i) inp = Ok stem_ /\
              resolved existing stat_error out_dir_text (take i given) stem_ inp c out) /\
     (forall e, r = Raise e ->
        exists i inp given,
          items !! i = Some inp /\ length given = i /\
          (forall j c, given !! j = Some c ->
             exists inp' stem',
               items !! j = Some inp' /\
               out_name_of naming_index custom_name_text (length items) (S j) inp'
                 = Ok stem' /\
               resolved existing stat_error out_dir_text (take j given)
                 stem' inp' c (joinpath (dest_folder out_dir_text inp') c)) /\
          (out_name_of naming_index custom_name_text (length items) (S i) inp = Raise e \/
           exists stem_ msg,
             out_name_of naming_index custom_name_text (length items) (S i) inp = Ok stem_ /\
             e = OSError msg /\
             refused existing stat_error out_dir_text given stem_ inp msg))) /\
  (forall stem_ k,
     candidate stem_ 0 = stem_ ++ ".obj" /\
     candidate stem_ (S k) = stem_ ++ "_" ++ pretty (S k) ++ ".obj") /\
  _build_conversion_list (fold := ascii_fold) {[ mkPath "/out" "part.obj" ]} Ex.no_stat_error
    [] [mkPath "/in" "a.stl"] "/out" 2 "part"
    = Some (Ok [(mkPath "/in" "a.stl", mkPath "/out" "part_1.obj")]) /\
  _build_conversion_list (fold := ascii_fold) ∅ Ex.no_stat_error
    [] [mkPath "/in" "a.stl"; mkPath "/in" "A.stl"] "" 0 ""
    = Some (Ok [(mkPath "/in" "a.stl", mkPath "/in" "a.obj");
                (mkPath "/in" "A.stl", mkPath "/in" "A_1.obj")]).
Proof.
  intros items. split; [|split; [|split]].
  - destruct build_conversion_list_spec as (r & Heq & Hr). fold items in Hr.
    exists r. split; [done|]. split.
    + intros pairs ->. done.
    + intros e ->. done.
  - done.
  - by vm_compute.
  - by vm_compute.
Qed.

Lemma out_name_of_custom (n idx : nat) (inp : Path) :
  naming_index <> 0 -> naming_index <> 1 ->
  out_name_of naming_index custom_name_text n idx inp =
    if Str.truthy (custom_base custom_name_text)
    then Ok (if (1 <? n)%nat
             then custom_base custom_name_text ++ "_" ++ Str.fmt_02d idx
             else custom_base custom_name_text)
    else Raise (ValueError "Custom name selected but no name provided.").
Proof.
  intros H0 H1. unfold out_name_of.
  destruct (Z.eqb_spec naming_index 0); [done|].
  destruct (Z.eqb_spec naming_index 1); [done|].
  by destruct (Str.truthy _).
Qed.

(** C8, as amended.  In the custom mode [_build_conversion_list] fails
    with the [ValueError] of the naming exactly when the custom base
    name is empty and there is at least one job; the only other
    exception it can end in is an [OSError] with which the disk refuses
    the question for a candidate, so on a disk that answers every
    question it fails exactly in that case.  With a non-empty name and
    more than one job the stem of job [i] is the name followed by [_]
    and [i] written with at least two digits, and the output is a
    candidate of that stem in the folder of the job; so [export] with
    three jobs gives [export_01.obj], [export_02.obj],
    [export_03.obj]. *)
Theorem custom_naming :
  naming_index <> 0 -> naming_index <> 1 ->
  let items := use_items selected all_items in
  let base := custom_base custom_name_text in
  let result := _build_conversion_list existing stat_error selected all_items out_dir_text
                  naming_index custom_name_text in
  ((exists msg, result = Some (Raise (ValueError msg))) <-> base = "" /\ items <> []) /\
  (forall e, result = Some (Raise e) ->
     (e = ValueError "Custom name selected but no name provided." /\ base = "") \/
     (exists msg p, e = OSError msg /\ stat_error p = Some msg /\ base <> "")) /\
  ((forall p, stat_error p = None) ->
   ((exists e, result = Some (Raise e)) <-> base = "" /\ items <> []) /\
   (base <> "" ->
    exists pairs, result = Some (Ok pairs) /\ length pairs = length items /\
      ((1 < length items)%nat ->
       forall i inp out, pairs !! i = Some (inp, out) ->
         items !! i = Some inp /\
         out_name_of naming_index custom_name_text (length items) (S i) inp
           = Ok (base ++ "_" ++ Str.fmt_02d (S i)) /\
         exists k,
           out = joinpath (dest_folder out_dir_text inp)
                   (candidate (base ++ "_" ++ Str.fmt_02d (S i)) k) /\
           (Str.no_slash base = true ->
            name out = candidate (base ++ "_" ++ Str.fmt_02d (S i)) k)))) /\
  (forall pairs, result = Some (Ok pairs) -> (1 < length items)%nat ->
     forall i inp out, pairs !! i = Some (inp, out) ->
       items !! i = Some inp /\
       out_name_of naming_index custom_name_text (length items) (S i) inp
         = Ok (base ++ "_" ++ Str.fmt_02d (S i)) /\
       exists k,
         out = joinpath (dest_folder out_dir_text inp)
                 (candidate (base ++ "_" ++ Str.fmt_02d (S i)) k)) /\
  _build_conversion_list (fold := ascii_fold) ∅ Ex.no_stat_error []
    [mkPath "/in" "a.stl"; mkPath "/in" "b.stl"; mkPath "/in" "c.stl"] "/out" 2 "export"
    = Some (Ok [(mkPath "/in" "a.stl", mkPath "/out" "export_01.obj");
                (mkPath "/in" "b.stl", mkPath "/out" "export_02.obj");
                (mkPath "/in" "c.stl", mkPath "/out" "export_03.obj")]).
Proof.
  intros H0 H1 items base result.
  destruct build_conversion_list_spec as (r & Heq & Hr).
  fold items result in Heq, Hr. 
  assert (forall stem_ inp i,
            out_name_of naming_index custom_name_text (length items) (S i) inp = Ok stem_ ->
            base <> "" /\
            ((1 < length items)%nat -> stem_ = base ++ "_" ++ Str.fmt_02d (S i))) as Hstem_ok.
  { intros stem_ inp i. rewrite out_name_of_custom by done. fold base.
    destruct (Str.truthy base) eqn:Hbase; [|done]. intros [= <-].
    split; [by intros ->|]. intros Hmany%Nat.ltb_lt. by rewrite Hmany. }
  assert (forall e, result = Some (Raise e) ->
            (e = ValueError "Custom name selected but no name provided."
             /\ base = "" /\ items <> []) \/
            (exists msg p, e = OSError msg /\ stat_error p = Some msg /\ base <> ""))
    as Hfail.
  { intros e He. rewrite Heq in He. injection He as ->.
    destruct Hr as (i & inp & given & Hi & _ & _ & [Hname|(stem_ & msg & Hname & -> & Href)]).
    - left. rewrite out_name_of_custom in Hname by done. fold base in Hname.
      destruct (Str.truthy base) eqn:Hbase; [done|]. injection Hname as <-.
      split; [done|]. split; [by apply truthy_empty|].
      intros Hnil. by rewrite Hnil in Hi.
    - right. destruct Href as (k & _ & Hmsg & _).
      exists msg, (joinpath (dest_folder out_dir_text inp) (candidate stem_ k)).
      split; [done|]. split; [done|]. by destruct (Hstem_ok _ _ _ Hname). }
  assert (base = "" -> items <> [] ->
          result = Some (Raise (ValueError "Custom name selected but no name provided.")))
    as Hempty.
  { intros Hbase Hitems.
    unfold result, _build_conversion_list. fold items.
    destruct items as [|inp items'] eqn:E; [done|]. simpl.
    rewrite out_name_of_custom by done. fold base. by rewrite Hbase. }
  assert (forall pairs, result = Some (Ok pairs) -> (1 < length items)%nat ->
     forall i inp out, pairs !! i = Some (inp, out) ->
       items !! i = Some inp /\
       out_name_of naming_index custom_name_text (length items) (S i) inp
         = Ok (base ++ "_" ++ Str.fmt_02d (S i)) /\
       exists k,
         out = joinpath (dest_folder out_dir_text inp)
                 (candidate (base ++ "_" ++ Str.fmt_02d (S i)) k)) as Hpairs.
  { intros pairs Hres Hmany i inp out Hi. rewrite Heq in Hres. injection Hres as ->.
    destruct Hr as (given & _ & _ & Hr).
    destruct (Hr i inp out Hi) as (Hitem & stem_ & c & _ & Hstem & (k & -> & -> & _)).
    split; [done|]. destruct (Hstem_ok _ _ _ Hstem) as [_ Hs].
    rewrite Hstem, (Hs Hmany). split; [done|]. by exists k. }
  split; [|split; [|split; [|split]]].
  - split.
    + intros [msg He]. destruct (Hfail _ He) as [(_ & ? & ?)|(? & ? & ? & _)]; done.
    + intros [Hbase Hitems]. eexists. by apply Hempty.
  - intros e He. destruct (Hfail e He) as [(? & ? & _)|?]; [by left|by right].
  - intros Hdisk. split.
    + split.
      * intros [e He]. destruct (Hfail e He) as [(_ & ? & ?)|(msg & p & _ & Hp & _)];
          [done|]. by rewrite Hdisk in Hp.
      * intros [Hbase Hitems]. eexists. by apply Hempty.
    + intros Hbase. destruct r as [pairs|e].
      2:{ destruct (Hfail e Heq) as [(_ & ? & _)|(msg & p & _ & Hp & _)]; [done|].
          by rewrite Hdisk in Hp. }
      exists pairs. split; [done|].
      destruct Hr as (given & Hlen & _ & _). split; [done|].
      intros Hmany i inp out Hi.
      destruct (Hpairs pairs Heq Hmany i inp out Hi) as (Hitem & Hstem & k & ->).
      split; [done|]. split; [done|]. exists k. split; [done|].
      intros Hslash. apply name_joinpath_candidate.
      rewrite no_slash_app, Hslash.
      change (negb (Ascii.eqb "_" "/") && Str.no_slash (Str.fmt_02d (S i)) = true).
      by rewrite all_digits_no_slash by apply all_digits_fmt_02d.
  - done.
  - by vm_compute.
Qed.

End NamerTheorems.

(** ** The worker *)

Section WorkerFacts.
Context {F : Type} {ops : CoordOps F}.
Variable api : TrimeshAPI F.
Implicit Types (w : World F) (st : World F * list (Signal F)).

Local Open Scope py_scope.

Lemma grows_refl w : grows w w.
Proof. split; [done|lia]. Qed.

Lemma grows_trans w1 w2 w3 : grows w1 w2 -> grows w2 w3 -> grows w1 w3.
Proof. intros [H1 H2] [H3 H4]. split; [auto|lia]. Qed.

Lemma growing_bind {A B} (c : Py (World F) A) (k : A -> Py (World F) B) :
  growing (F := F) c -> (forall a, growing (F := F) (k a)) -> growing (F := F) (py_bind c k).
Proof.
  intros Hc Hk w. unfold py_bind. specialize (Hc w).
  destruct (c w) as [w' [a|e]]; simpl in *; [|done].
  eapply grows_trans; [done|apply Hk].
Qed.

Lemma growing_ret {A} (a : A) : growing (F := F) (py_ret (S := World F) a).
Proof. intros w. apply grows_refl. Qed.

Lemma growing_raise {A} (e : PyExc) : growing (F := F) (py_raise (S := World F) (A := A) e).
Proof. intros w. apply grows_refl. Qed.

Lemma growing_lift {A} (x : Exc A) : growing (F := F) (py_lift (S := World F) x).
Proof. intros w. apply grows_refl. Qed.

Lemma growing_tick : growing (F := F) tick.
Proof. intros w. split; simpl; [done|lia]. Qed.

Lemma growing_load (inp : Path) : growing (F := F) (load_stl_as_mesh inp).
Proof.
  unfold load_stl_as_mesh, trimesh_load.
  apply growing_bind.
  - apply growing_bind; [intros w; apply grows_refl|]. intros w.
    destruct (files (disk w) !! inp) as [[?|?]|];
      [apply growing_ret|apply growing_raise|apply growing_raise].
  - intros [m|g|nm]; [apply growing_ret| |apply growing_raise].
    destruct g; [apply growing_raise|].
    destruct (scene_meshes _); [apply growing_raise|apply growing_ret].
Qed.

Lemma growing_export (mesh : Trimesh F) (outp : Path) : growing (F := F) (mkdir_and_export mesh outp).
Proof.
  intros w. unfold mkdir_and_export. case_bool_decide; [apply grows_refl|].
  split; simpl; [|lia]. intros p Hp.
  destruct (decide (outp = p)) as [->|Hne].
  - rewrite lookup_insert_eq. eauto.
  - by rewrite lookup_insert_ne.
Qed.

Lemma growing_convert_one (inp outp : Path) (opt : ConvertOptions F) :
  growing (F := F) (convert_one api inp outp opt).
Proof.
  unfold convert_one.
  repeat first
    [ apply growing_tick | apply growing_ret | apply growing_lift
    | apply growing_load | apply growing_export
    | apply growing_bind; [|intros ?]
    | match goal with |- growing (if ?b then _ else _) => destruct b end ].
Qed.

(** After a conversion that returned, the output file is on disk. *)
Lemma export_then_growing {A} (mesh : Trimesh F) (outp : Path)
  (k : Py (World F) A) w w' (a : A) :
  growing (F := F) k ->
  py_bind (mkdir_and_export mesh outp) (fun _ => k) w = (w', Ok a) ->
  is_Some (files (disk w') !! outp).
Proof.
  intros Hk. unfold py_bind, mkdir_and_export. case_bool_decide; [done|].
  intros Heq. specialize (Hk (mkWorld (mkDisk (<[outp:=ObjFile mesh]> (files (disk w)))
                                         (write_denied (disk w))) (clock w))).
  rewrite Heq in Hk. apply Hk. simpl. rewrite lookup_insert_eq. eauto.
Qed.

Lemma bind_Ok_inv {S A B} (c : Py S A) (k : A -> Py S B) (s s' : S) (b : B) :
  py_bind c k s = (s', Ok b) ->
  exists s1 a, c s = (s1, Ok a) /\ k a s1 = (s', Ok b).
Proof. unfold py_bind. destruct (c s) as [s1 [a|e]]; [eauto|done]. Qed.

Lemma convert_one_writes (inp outp : Path) (opt : ConvertOptions F) w w' stats :
  convert_one api inp outp opt w = (w', Ok stats) ->
  is_Some (files (disk w') !! outp).
Proof.
  unfold convert_one. intros H.
  do 8 (apply bind_Ok_inv in H as (? & ? & _ & H)).
  eapply export_then_growing; [|exact H].
  repeat first
    [ apply growing_tick | apply growing_ret | apply growing_lift
    | apply growing_bind; [|intros ?] ].
Qed.

End WorkerFacts.

Section RunFacts.
Context {F : Type} {ops : CoordOps F}.
Variable api : TrimeshAPI F.
Variable opt : ConvertOptions F.
Implicit Types (w : World F) (st : World F * list (Signal F)).

Local Open Scope py_scope.

Lemma emit_result (sig : Signal F) st : emit sig st = ((fst st, snd st ++ [sig]), Ok tt).
Proof. done. Qed.

Lemma run_loop_cons (c : option nat) (n i : nat) (job : Path * Path)
  (items : list (Path * Path)) st :
  run_loop api opt c n i (job :: items) st =
    if flag_raised c (clock (fst st))
    then ((fst st, snd st ++ cancelled_signals), Ok false)
    else match run_job api opt n i job st with
         | (st', Ok _) => run_loop api opt c n (S i) items st'
         | (st', Raise e) => (st', Raise e)
         end.
Proof.
  simpl. unfold py_bind at 1, read_cancel.
  destruct (flag_raised c (clock (fst st))); [|done].
  unfold py_bind, emit, py_ret, cancelled_signals. simpl. by rewrite <- app_assoc.
Qed.

(** The check finds the flag raised: the loop ends there. *)
Lemma run_loop_cancelled (t n i : nat) (job : Path * Path) (items : list (Path * Path)) st :
  (t <= clock (fst st))%nat ->
  run_loop api opt (Some t) n i (job :: items) st =
    ((fst st, snd st ++ cancelled_signals), Ok false).
Proof.
  intros Ht. rewrite run_loop_cons. simpl. apply Nat.leb_le in Ht. by rewrite Ht.
Qed.

(** The check finds the flag down: the job runs as if there were no
    flag, whenever the flag is raised afterwards. *)
Lemma run_loop_not_cancelled (t n i : nat) (job : Path * Path)
  (items : list (Path * Path)) st :
  (clock (fst st) < t)%nat ->
  run_loop api opt (Some t) n i (job :: items) st =
    match run_loop api opt None n i [job] st with
    | (st', Ok true) => run_loop api opt (Some t) n (S i) items st'
    | r => r
    end.
Proof.
  intros Ht. rewrite !run_loop_cons. simpl. apply Nat.leb_gt in Ht. rewrite Ht.
  by destruct (run_job api opt n i job st) as [st' [[]|e]].
Qed.

Lemma run_loop_app (c : option nat) (n i : nat) (xs ys : list (Path * Path)) st :
  run_loop api opt c n i (xs ++ ys) st =
    match run_loop api opt c n i xs st with
    | (st', Ok true) => run_loop api opt c n (i + length xs) ys st'
    | r => r
    end.
Proof.
  revert i st. induction xs as [|x xs IH]; intros i st.
  { simpl. by rewrite Nat.add_0_r. }
  rewrite <- app_comm_cons, !run_loop_cons.
  destruct (flag_raised c (clock (fst st))); [done|].
  destruct (run_job api opt n i x st) as [st1 [[]|e]]; [|done].
  rewrite IH. simpl. by rewrite Nat.add_succ_r.
Qed.

Lemma run_job_grows (n i : nat) (job : Path * Path) st :
  grows (fst st) (fst (fst (run_job api opt n i job st))).
Proof.
  destruct job as [inp outp]. unfold run_job, py_bind, emit, in_world, py_lift. simpl.
  pose proof (growing_convert_one api inp outp opt (fst st)) as Hg.
  destruct (convert_one api inp outp opt (fst st)) as [w' [stats|e]]; simpl in *; [|done].
  by destruct (percent i n).
Qed.

Lemma run_job_writes (n i : nat) (inp outp : Path) st st' :
  run_job api opt n i (inp, outp) st = (st', Ok tt) ->
  is_Some (files (disk (fst st')) !! outp).
Proof.
  unfold run_job, py_bind, emit, in_world, py_lift. simpl.
  destruct (convert_one api inp outp opt (fst st)) as [w' [stats|e]] eqn:Hc; [|done].
  destruct (percent i n); [|done]. intros [= <-]. simpl.
  by eapply convert_one_writes.
Qed.

(** When the loop ran through a list of jobs, the output of each of them
    is on disk. *)
Lemma run_loop_outputs (c : option nat) (n i : nat) (jobs : list (Path * Path)) st st' :
  run_loop api opt c n i jobs st = (st', Ok true) ->
  grows (fst st) (fst st') /\
  forall inp outp, (inp, outp) ∈ jobs -> is_Some (files (disk (fst st')) !! outp).
Proof.
  revert i st. induction jobs as [|[inp outp] jobs IH]; intros i st.
  { intros [= <-]. split; [apply grows_refl|]. by intros ? ? ?%elem_of_nil. }
  rewrite run_loop_cons.
  destruct (flag_raised c (clock (fst st))); [done|].
  pose proof (run_job_grows n i (inp, outp) st) as Hg.
  destruct (run_job api opt n i (inp, outp) st) as [st1 [[]|e]] eqn:Hjob; [|done].
  intros Hrest. destruct (IH _ _ Hrest) as [Hg' Hout]. simpl in Hg.
  split; [by eapply grows_trans|].
  intros inp' outp' [[= -> ->]|Hin]%elem_of_cons; [|by eapply Hout].
  apply Hg'. by eapply run_job_writes.
Qed.

End RunFacts.

Section WorkerTheorems.
Context {F : Type} {ops : CoordOps F}.
Variable api : TrimeshAPI F.
Variable opt : ConvertOptions F.

Local Open Scope string_scope.

Lemma run_body_nonempty (items : list (Path * Path)) (c : option nat) (w : World F) :
  items <> [] ->
  run_body api items opt c (w, []) =
    match run_loop api opt c (length items) 1 items (w, header (length items)) with
    | (st, Ok true) =>
        emit (SigDone true ("Converted " ++ pretty (length items)
                              ++ " file(s) successfully.")) st
    | (st, Ok false) => (st, Ok tt)
    | (st, Raise e) => (st, Raise e)
    end.
Proof.
  intros Hne. unfold run_body.
  destruct (Nat.eqb_spec (length items) 0) as [Hlen|_].
  { by destruct items. }
  unfold py_bind, emit, header. simpl.
  by destruct (run_loop _ _ _ _ _ _ _) as [st [[|]|e]].
Qed.

Lemma run_cancelled_after (t : nat) (done rest : list (Path * Path))
  (w : World F) (st1 : World F * list (Signal F)) :
  rest <> [] ->
  run_loop api opt (Some t) (length (done ++ rest)) 1 done
    (w, header (length (done ++ rest))) = (st1, Ok true) ->
  (t <= clock (fst st1))%nat ->
  run api (done ++ rest) opt (Some t) w = (fst st1, (snd st1 ++ cancelled_signals)%list).
Proof.
  intros Hrest Hdone Ht. unfold run.
  rewrite run_body_nonempty by (by destruct done, rest).
  rewrite run_loop_app, Hdone.
  destruct rest as [|job rest']; [done|].
  by rewrite run_loop_cancelled.
Qed.

(** C4.  The worker reads the cancellation flag once per job, before the
    job starts.  A flag raised after that check leaves the job running
    to its end as if there were no flag; a flag found raised at the
    check ends the run there with the log line "Cancelled." and the
    terminal signal (false, "Cancelled by user."), without touching the
    world: the outputs of the jobs done so far are on disk and no later
    job is begun.  With three jobs and the flag raised during job 1,
    [a.obj] is written and [b.obj] and [c.obj] are not. *)
Theorem cancellation_at_job_boundary (t : nat) :
  (forall n i job items st,
     (clock (fst st) < t)%nat ->
     run_loop api opt (Some t) n i (job :: items) st =
       match run_loop api opt None n i [job] st with
       | (st', Ok true) => run_loop api opt (Some t) n (S i) items st'
       | r => r
       end) /\
  (forall n i job items st,
     (t <= clock (fst st))%nat ->
     run_loop api opt (Some t) n i (job :: items) st =
       ((fst st, (snd st ++ cancelled_signals)%list), Ok false)) /\
  (forall done rest w st1,
     rest <> [] ->
     run_loop api opt (Some t) (length (done ++ rest)) 1 done
       (w, header (length (done ++ rest))) = (st1, Ok true) ->
     (t <= clock (fst st1))%nat ->
     run api (done ++ rest) opt (Some t) w = (fst st1, (snd st1 ++ cancelled_signals)%list) /\
     grows w (fst st1) /\
     forall inp outp, (inp, outp) ∈ done -> is_Some (files (disk (fst st1)) !! outp)) /\
  (let r := run (bare_api Ex.merge_nothing) Ex.three_jobs (Ex.opts true) (Some 3%nat) Ex.world0 in
   (exists stats,
      snd r = (header 3 ++
               [SigLog (LogText (nl ++ "[1/3] Loading: a.stl"));
                SigLog (LogExported "a.obj" stats); SigProgress 33] ++
               cancelled_signals)%list) /\
   is_Some (files (disk (fst r)) !! Ex.obj "a.obj") /\
   files (disk (fst r)) !! Ex.obj "b.obj" = None /\
   files (disk (fst r)) !! Ex.obj "c.obj" = None).
Proof.
  split; [|split; [|split]].
  - intros n i job items st Ht. by apply run_loop_not_cancelled.
  - intros n i job items st Ht. by apply run_loop_cancelled.
  - intros done rest w st1 Hrest Hdone Ht.
    split; [by apply run_cancelled_after|].
    by apply run_loop_outputs in Hdone.
  - split; [eexists; vm_compute; reflexivity|].
    split; [eexists; vm_compute; reflexivity|].
    split; vm_compute; reflexivity.
Qed.

(** C9.  With an empty job list [run] emits one signal, the terminal
    (false, "No files to convert."): no job is begun, the world stays as
    it is, and no progress value is emitted at all. *)
Theorem run_empty_job_list (cancel_at : option nat) (w : World F) :
  run api [] opt cancel_at w = (w, [SigDone false "No files to convert."]) /\
  forall p, SigProgress p ∉ snd (run api [] opt cancel_at w).
Proof.
  split; [done|]. intros p. simpl.
  intros [[=]|[]%elem_of_nil]%elem_of_cons.
Qed.

(** C2, as amended.  For a mesh without vertices the bounding box is
    undefined and [safe_mesh_stats] does not return: the subscript of
    the missing bounds raises [TypeError].  For a mesh with a vertex it
    returns the counts, the bounds and the extents.  The exception is
    left to the caller: the batch worker, which has written the output
    file by then, logs the traceback and ends with a failed terminal
    signal. *)
Theorem safe_mesh_stats_zero_vertices (m : Trimesh F) :
  (vertices m = [] ->
   safe_mesh_stats m = Raise (TypeError "'NoneType' object is not subscriptable")) /\
  (vertices m <> [] ->
   exists bmin bmax,
     bounds m = Some (bmin, bmax) /\
     safe_mesh_stats m =
       Ok (mkStats (length (vertices m)) (length (faces m)) bmin bmax (vsub bmax bmin))) /\
  (let r := run (bare_api Ex.merge_nothing) [(Ex.stl "e.stl", Ex.obj "e.obj")] (Ex.opts false) None
              Ex.world_empty_stl in
   is_Some (files (disk (fst r)) !! Ex.obj "e.obj") /\
   snd r = (header 1 ++
            [SigLog (LogText (nl ++ "[1/1] Loading: e.stl"));
             SigLog (LogTraceback (TypeError "'NoneType' object is not subscriptable"));
             SigDone false "Failed: 'NoneType' object is not subscriptable"])%list).
Proof.
  split; [|split].
  - intros H. unfold safe_mesh_stats, bounds. by rewrite H.
  - intros H. unfold safe_mesh_stats, bounds.
    destruct (vertices m) as [|v vs]; [done|]. simpl. eauto.
  - split; [eexists; vm_compute; reflexivity|vm_compute; reflexivity].
Qed.

End WorkerTheorems.



(** ** The statements at concrete inputs *)

Ltac by_computation := apply (bool_decide_unpack _); vm_compute; exact I.

Lemma tetra_clean : clean Ex.tetra.
Proof.
  unfold clean, all_finite, no_degenerate, no_duplicate, indices_nonneg, all_referenced.
  repeat split; by_computation.
Qed.

(** C1 fails as stated.  A triangle with one more vertex that no face
    uses has finite coordinates and neither degenerate nor duplicate
    faces, and [cleanup_mesh] returns it with three vertices instead of
    four.  And with a trimesh whose [fix_normals] turns the faces around,
    the tetrahedron, which needs no cleaning, comes back with other
    faces. *)
Lemma cleanup_drops_loose_vertex :
  (all_finite Ex.loose_vertex /\ no_degenerate Ex.loose_vertex /\
   no_duplicate Ex.loose_vertex /\
   exists m', cleanup_mesh (bare_api Ex.merge_nothing) Ex.loose_vertex = Ok m' /\
     length (vertices m') = 3%nat /\ length (vertices Ex.loose_vertex) = 4%nat) /\
  (clean Ex.tetra /\
   exists m', cleanup_mesh Ex.turning_api Ex.tetra = Ok m' /\
     faces m' = [(0, 2, 1); (0, 1, 3); (0, 3, 2); (1, 2, 3)] /\
     faces m' <> faces Ex.tetra).
Proof.
  split.
  - unfold all_finite, no_degenerate, no_duplicate.
    split; [by_computation|]. split; [by_computation|]. split; [by_computation|].
    eexists. split; [vm_compute; reflexivity|]. done.
  - split; [apply tetra_clean|].
    eexists. split; [vm_compute; reflexivity|]. split; [reflexivity|discriminate].
Qed.

Lemma cleanup_leaves_clean_mesh_witness :
  clean Ex.tetra /\
  cleanup_mesh (bare_api Ex.merge_nothing) Ex.tetra = Ok Ex.tetra.
Proof.
  split; [apply tetra_clean|].
  destruct (cleanup_leaves_clean_mesh (bare_api Ex.merge_nothing) Ex.tetra tetra_clean)
    as (_ & _ & _ & _ & _ & H & _).
  exact (H Ex.merge_nothing).
Defined.

(** C2 fails as stated: on the mesh without vertices [safe_mesh_stats]
    returns nothing. *)
Lemma safe_mesh_stats_raises_on_empty :
  vertices (Ex.empty_mesh (F := F64.t)) = [] /\
  ~ exists st, safe_mesh_stats (Ex.empty_mesh (F := F64.t)) = Ok st.
Proof. split; [done|]. by intros [st Hst]. Qed.

Lemma safe_mesh_stats_zero_vertices_witness :
  safe_mesh_stats (Ex.empty_mesh (F := F64.t))
    = Raise (TypeError "'NoneType' object is not subscriptable") /\
  exists bmin bmax,
    bounds Ex.tetra = Some (bmin, bmax) /\
    safe_mesh_stats Ex.tetra = Ok (mkStats 4 4 bmin bmax (vsub bmax bmin)).
Proof.
  split.
  - apply (proj1 (safe_mesh_stats_zero_vertices Ex.empty_mesh)). reflexivity.
  - apply (proj1 (proj2 (safe_mesh_stats_zero_vertices Ex.tetra))). discriminate.
Defined.



Lemma cancellation_at_job_boundary_witness :
  let st1 := fst (run_loop (bare_api Ex.merge_nothing) (Ex.opts true) (Some 3%nat) 3 1
                    [(Ex.stl "a.stl", Ex.obj "a.obj")] (Ex.world0, header 3)) in
  (clock (fst st1) = 6)%nat /\
  run (bare_api Ex.merge_nothing) Ex.three_jobs (Ex.opts true) (Some 3%nat) Ex.world0
    = (fst st1, snd st1 ++ cancelled_signals) /\
  grows Ex.world0 (fst st1) /\
  forall inp outp, (inp, outp) ∈ [(Ex.stl "a.stl", Ex.obj "a.obj")] ->
    is_Some (files (disk (fst st1)) !! outp).
Proof.
  intros st1. split; [vm_compute; reflexivity|].
  destruct (cancellation_at_job_boundary (bare_api Ex.merge_nothing) (Ex.opts true) 3) as (_ & _ & H & _).
  apply (H [(Ex.stl "a.stl", Ex.obj "a.obj")]
           [(Ex.stl "b.stl", Ex.obj "b.obj"); (Ex.stl "c.stl", Ex.obj "c.obj")]
           Ex.world0 st1).
  - discriminate.
  - vm_compute. reflexivity.
  - vm_compute. lia.
Defined.





(** C8 fails as stated: in the custom mode with an empty name and no
    job, nothing fails. *)
Lemma custom_naming_no_job_counterexample :
  custom_base "" = ""%string /\
  _build_conversion_list (fold := ascii_fold) ∅ Ex.no_stat_error [] [] "" 2 ""
    = Some (Ok []).
Proof. split; reflexivity. Qed.

Lemma custom_naming_witness :
  (exists msg,
     _build_conversion_list (fold := ascii_fold) ∅ Ex.no_stat_error
       [] [Ex.stl "a.stl"] "" 2 "  " = Some (Raise (ValueError msg))) /\
  exists pairs,
    _build_conversion_list (fold := ascii_fold) ∅ Ex.no_stat_error
      [] [Ex.stl "a.stl"; Ex.stl "b.stl"] "" 2 "export"
      = Some (Ok pairs) /\ length pairs = 2%nat.
Proof.
  split.
  - apply (proj1 (custom_naming (fold := ascii_fold) ∅ Ex.no_stat_error
                    [] [Ex.stl "a.stl"] "" 2 "  "
                    ltac:(discriminate) ltac:(discriminate))).
    split; [reflexivity|discriminate].
  - destruct (proj2 (proj1 (proj2 (proj2
                (custom_naming (fold := ascii_fold) ∅ Ex.no_stat_error
                   [] [Ex.stl "a.stl"; Ex.stl "b.stl"] ""
                   2 "export" ltac:(discriminate) ltac:(discriminate))))
                (fun _ => eq_refl))
                ltac:(discriminate)) as (pairs & Heq & Hlen & _).
    exists pairs. split; [exact Heq|exact Hlen].
Defined.

(** C10 fails as stated: a trimesh whose [remove_duplicate_faces] has
    dropped the faces when it fails leaves the tetrahedron without
    faces, although the pass raised. *)
Lemma cleanup_pass_failure_counterexample :
  snd (block_duplicate Ex.breaking_api Ex.tetra) = Raise (LibraryError "interrupted") /\
  pass_duplicate Ex.breaking_api Ex.tetra = (mkTrimesh (vertices Ex.tetra) [], Ok tt) /\
  fst (pass_duplicate Ex.breaking_api Ex.tetra) <> Ex.tetra /\
  exists m', cleanup_mesh Ex.breaking_api Ex.tetra = Ok m' /\ faces m' = [].
Proof.
  split; [reflexivity|]. split; [reflexivity|]. split; [discriminate|].
  eexists. split; [vm_compute; reflexivity|reflexivity].
Qed.

Lemma cleanup_absorbs_pass_failures_witness :
  snd (block_unreferenced (bare_api Ex.merge_nothing) Ex.dangling)
    = Raise (IndexError "index out of bounds") /\
  fst (block_unreferenced (bare_api Ex.merge_nothing) Ex.dangling) = Ex.dangling /\
  exists m', cleanup_mesh (bare_api Ex.merge_nothing) Ex.dangling = Ok m'.
Proof.
  destruct (cleanup_absorbs_pass_failures (bare_api Ex.merge_nothing) Ex.dangling)
    as (Hret & _ & _ & _ & _ & _ & _ & Hatomic & _).
  split; [vm_compute; reflexivity|].
  split; [|exact Hret].
  apply (Hatomic eq_refl Ex.dangling (IndexError "index out of bounds")).
  vm_compute. reflexivity.
Defined.

(** * Further properties *)

Section RunSignals.
Context {F : Type} {ops : CoordOps F}.
Variable api : TrimeshAPI F.
Variable opt : ConvertOptions F.
Implicit Types (w : World F) (st : World F * list (Signal F)).

Local Open Scope string_scope.
Local Arguments header : simpl never.
Local Arguments cancelled_signals : simpl never.

Lemma no_done_nil : no_done (F := F) [].
Proof. intros ok msg. apply not_elem_of_nil. Qed.

Lemma no_done_app (l k : list (Signal F)) : no_done l -> no_done k -> no_done (l ++ k).
Proof. intros Hl Hk ok msg [?|?]%elem_of_app; [by eapply Hl|by eapply Hk]. Qed.

(** One job adds log and progress signals only. *)
Lemma run_job_signals (n i : nat) (job : Path * Path) st :
  exists new, snd (fst (run_job api opt n i job st)) = (snd st ++ new)%list /\ no_done new.
Proof.
  destruct job as [inp outp]. unfold run_job, py_bind, emit, in_world, py_lift. simpl.
  destruct (convert_one api inp outp opt (fst st)) as [w' [stats|e]]; simpl.
  2:{ eexists [_]. split; [done|]. intros ok msg [[=]|[]%elem_of_nil]%elem_of_cons. }
  destruct (percent i n); simpl.
  - eexists [_; _; _]. rewrite <- !app_assoc. split; [done|].
    intros ok msg Hin. repeat (apply elem_of_cons in Hin as [[=]|Hin]).
    by apply elem_of_nil in Hin.
  - eexists [_; _]. rewrite <- !app_assoc. split; [done|].
    intros ok msg Hin. repeat (apply elem_of_cons in Hin as [[=]|Hin]).
    by apply elem_of_nil in Hin.
Qed.

(** The loop adds a terminal signal only when it stops for the flag, and
    then as its last signal. *)
Lemma run_loop_signals (c : option nat) (n i : nat) (jobs : list (Path * Path)) st :
  exists new,
    no_done new /\
    match run_loop api opt c n i jobs st with
    | (st', Ok false) => snd st' = (snd st ++ new ++ cancelled_signals)%list
    | (st', _) => snd st' = (snd st ++ new)%list
    end.
Proof.
  revert i st. induction jobs as [|job jobs IH]; intros i st.
  { exists []. split; [apply no_done_nil|]. simpl. by rewrite app_nil_r. }
  rewrite run_loop_cons. destruct (flag_raised c (clock (fst st))).
  { exists []. split; [apply no_done_nil|]. done. }
  destruct (run_job_signals n i job st) as (new1 & Hnew1 & Hnd1).
  destruct (run_job api opt n i job st) as [st1 [[]|e]]; simpl in Hnew1.
  2:{ exists new1. done. }
  destruct (IH (S i) st1) as (new2 & Hnd2 & Hloop).
  exists (new1 ++ new2)%list. split; [by apply no_done_app|].
  destruct (run_loop api opt c n (S i) jobs st1) as [st2 [[|]|e]];
    rewrite Hloop, Hnew1, <- ?app_assoc; done.
Qed.

Lemma no_done_header (n : nat) : no_done (header (F := F) n).
Proof.
  intros ok msg Hin. unfold header in Hin.
  repeat (apply elem_of_cons in Hin as [[=]|Hin]). by apply elem_of_nil in Hin.
Qed.

(** The signals of a run: one terminal signal, at the end, and what it
    says. *)
Lemma run_signals_shape (items : list (Path * Path)) (c : option nat) w :
  exists pre ok msg,
    snd (run api items opt c w) = (pre ++ [SigDone ok msg])%list /\ no_done pre /\
    ((items = [] /\ pre = [] /\ ok = false /\ msg = "No files to convert.") \/
     (items <> [] /\
      ((ok = true /\
        msg = "Converted " ++ pretty (length items) ++ " file(s) successfully.") \/
       (ok = false /\ msg = "Cancelled by user.") \/
       (ok = false /\ exists e, msg = "Failed: " ++ exc_message e)))).
Proof.
  destruct items as [|job items'] eqn:Hitems.
  { exists [], false, "No files to convert.". split; [done|].
    split; [apply no_done_nil|]. by left. }
  assert (items <> []) as Hne by (by rewrite Hitems).
  rewrite <- Hitems. unfold run. rewrite run_body_nonempty by done.
  destruct (run_loop_signals c (length items) 1 items (w, header (length items)))
    as (new & Hnd & Hloop).
  destruct (run_loop api opt c (length items) 1 items (w, header (length items)))
    as [st [[|]|e]];
    change (snd (w, header (F := F) (length items))) with (header (F := F) (length items)) in Hloop.
  - eexists (header (length items) ++ new)%list, true, _. unfold emit. cbn [fst snd].
    rewrite Hloop. split; [done|].
    split; [apply no_done_app; [apply no_done_header|done]|].
    right. split; [done|]. by left.
  - eexists (header (length items) ++ new ++ [SigLog (LogText "Cancelled.")])%list, false, _.
    cbn [fst snd]. rewrite Hloop. unfold cancelled_signals.
    split; [by rewrite <- !app_assoc|]. split.
    + apply no_done_app; [apply no_done_header|]. apply no_done_app; [done|].
      intros ok msg [[=]|[]%elem_of_nil]%elem_of_cons.
    + right. split; [done|]. right. by left.
  - eexists (header (length items) ++ new ++ [SigLog (LogTraceback e)])%list, false, _.
    unfold py_bind, emit. cbn [fst snd]. rewrite Hloop.
    split; [by rewrite <- !app_assoc|]. split.
    + apply no_done_app; [apply no_done_header|]. apply no_done_app; [done|].
      intros ok msg [[=]|[]%elem_of_nil]%elem_of_cons.
    + right. split; [done|]. right. right. split; [done|]. by exists e.
Qed.

(** X1.  Whatever happens, [run] emits exactly one terminal signal, and
    it is the last signal of the run.  It says "No files to convert."
    exactly for the empty job list; otherwise it is the success with the
    number of files, or the cancellation, or "Failed: " with the text of
    the exception. *)
Theorem run_ends_with_one_done (items : list (Path * Path)) (c : option nat) w :
  exists pre ok msg,
    snd (run api items opt c w) = (pre ++ [SigDone ok msg])%list /\ no_done pre /\
    (msg = "No files to convert." <-> items = []) /\
    ((ok = true /\
      msg = "Converted " ++ pretty (length items) ++ " file(s) successfully.") \/
     (ok = false /\
      (msg = "No files to convert." \/ msg = "Cancelled by user." \/
       exists e, msg = "Failed: " ++ exc_message e))).
Proof.
  destruct (run_signals_shape items c w)
    as (pre & ok & msg & Heq & Hnd & [(-> & _ & -> & ->)|(Hne & Hcase)]).
  { exists pre, false, "No files to convert.". split; [done|]. split; [done|].
    split; [done|]. right. split; [done|]. by left. }
  exists pre, ok, msg. split; [done|]. split; [done|]. split.
  - split; [|done]. intros ->. destruct Hcase as [[_ H]|[[_ H]|[_ [e H]]]]; done.
  - destruct Hcase as [[-> ->]|[[-> ->]|[-> [e ->]]]]; [by left|right..].
    + split; [done|]. right. by left.
    + split; [done|]. right. right. by exists e.
Qed.

(** X2.  [run] reports success only when the loop went through every job,
    and then the output of every job is on disk. *)
Theorem run_success_means_all_written (items : list (Path * Path)) (c : option nat) w msg :
  last (snd (run api items opt c w)) = Some (SigDone true msg) ->
  items <> [] /\
  msg = "Converted " ++ pretty (length items) ++ " file(s) successfully." /\
  grows w (fst (run api items opt c w)) /\
  forall inp outp, (inp, outp) ∈ items ->
    is_Some (files (disk (fst (run api items opt c w))) !! outp).
Proof.
  destruct items as [|job items'] eqn:Hitems; [done|].
  rewrite <- Hitems. unfold run. rewrite run_body_nonempty by (by rewrite Hitems).
  destruct (run_loop_signals c (length items) 1 items (w, header (length items)))
    as (new & Hnd & Hloop).
  destruct (run_loop api opt c (length items) 1 items (w, header (length items)))
    as [st [[|]|e]] eqn:Hrun;
    change (snd (w, header (F := F) (length items))) with (header (F := F) (length items)) in Hloop.
  - unfold emit. simpl. rewrite last_snoc. intros [= <-].
    split; [by rewrite Hitems|]. split; [done|].
    by apply run_loop_outputs in Hrun.
  - cbn [fst snd]. rewrite Hloop, !last_app. done.
  - unfold py_bind, emit. simpl. rewrite last_snoc. done.
Qed.

End RunSignals.

Section Footprint.
Context {F : Type} {ops : CoordOps F}.
Variable api : TrimeshAPI F.
Implicit Types (w : World F).

Lemma within_bind {A B} (R : relation (World F)) `{!PreOrder R}
  (c : Py (World F) A) (k : A -> Py (World F) B) :
  within R c -> (forall a, within R (k a)) -> within R (py_bind c k).
Proof.
  intros Hc Hk w. unfold py_bind. specialize (Hc w).
  destruct (c w) as [w' [a|e]]; simpl in *; [|done].
  etrans; [done|apply Hk].
Qed.

Lemma within_read_only {A} (R : relation (World F)) `{!Reflexive R} (c : Py (World F) A) :
  read_only c -> within R c.
Proof. intros Hc w. by rewrite Hc. Qed.

Lemma same_but_preorder (outp : Path) : PreOrder (same_but (F := F) outp).
Proof.
  split.
  - intros w. split; [done|by left].
  - intros w1 w2 w3 [H1 H2] [H3 H4]. split; [congruence|].
    destruct H4 as [->|[m4 ->]]; [done|]. right.
    destruct H2 as [->|[m2 ->]]; [by exists m4|].
    exists m4. by rewrite insert_insert_eq.
Qed.

Lemma load_read_only (inp : Path) : read_only (load_stl_as_mesh (F := F) inp).
Proof.
  intros w. unfold load_stl_as_mesh, trimesh_load, py_bind, py_get, py_ret, py_raise.
  destruct (files (disk w) !! inp) as [[[m|g|nm]|?]|]; try done.
  destruct g; [done|]. by destruct (scene_meshes _).
Qed.

Lemma same_but_convert_one (inp outp : Path) (opt : ConvertOptions F) :
  within (same_but outp) (convert_one api inp outp opt).
Proof.
  pose proof (same_but_preorder outp) as Hpre.
  unfold convert_one.
  repeat first
    [ apply within_read_only; [apply _|]; apply load_read_only
    | apply within_read_only; [apply _|]; apply read_only_lift
    | apply within_read_only; [apply _|]; done
    | apply within_bind; [apply _| |intros ?]
    | match goal with |- within _ (if ?b then _ else _) => destruct b end ].
  all: try (intros w; split; [done|by left]).
  intros w. unfold mkdir_and_export. case_bool_decide; [done|].
  split; [done|]. right. by eexists.
Qed.

(** X5.  Whether it returns or raises, a conversion either leaves the
    files as they were or has written its output file and nothing else;
    it never changes another file and never changes which folders
    refuse writing.  When it returns, the output file is there. *)
Theorem convert_one_touches_only_output (inp outp : Path) (opt : ConvertOptions F) w :
  let w' := fst (convert_one api inp outp opt w) in
  write_denied (disk w') = write_denied (disk w) /\
  (files (disk w') = files (disk w) \/
   exists mesh, files (disk w') = <[outp := ObjFile mesh]> (files (disk w))) /\
  (forall p, p <> outp -> files (disk w') !! p = files (disk w) !! p) /\
  (forall stats, snd (convert_one api inp outp opt w) = Ok stats ->
     is_Some (files (disk w') !! outp)).
Proof.
  intros w'. destruct (same_but_convert_one inp outp opt w) as [H1 H2].
  fold w' in H1, H2. split; [done|]. split; [done|]. split.
  - intros p Hp. destruct H2 as [->|[mesh ->]]; [done|]. by rewrite lookup_insert_ne.
  - intros stats Hok. eapply (convert_one_writes api inp outp opt w w' stats).
    unfold w'. rewrite <- Hok. by destruct (convert_one api inp outp opt w).
Qed.

End Footprint.

Section RunFailure.
Context {F : Type} {ops : CoordOps F}.
Variable api : TrimeshAPI F.
Variable opt : ConvertOptions F.
Implicit Types (w : World F) (st : World F * list (Signal F)).

Local Open Scope string_scope.

(** X3.  The first job whose conversion raises ends the batch: [run]
    logs the traceback, emits the terminal (false, "Failed: ...") with
    the text of the exception, and begins none of the later jobs; the
    world is the one the failed conversion left, so the outputs of the
    earlier jobs stay. *)
Theorem run_aborts_at_first_failure (c : option nat) (done rest : list (Path * Path))
  (inp outp : Path) w st1 w2 (e : PyExc) :
  let items := (done ++ (inp, outp) :: rest)%list in
  run_loop api opt c (length items) 1 done (w, header (length items)) = (st1, Ok true) ->
  flag_raised c (clock (fst st1)) = false ->
  convert_one api inp outp opt (fst st1) = (w2, Raise e) ->
  run api items opt c w =
    (w2, (snd st1 ++
          [SigLog (LogText (nl ++ "[" ++ pretty (1 + length done)%nat ++ "/"
                              ++ pretty (length items) ++ "] Loading: " ++ name inp));
           SigLog (LogTraceback e);
           SigDone false ("Failed: " ++ exc_message e)])%list) /\
  grows w w2 /\
  forall inp' outp', (inp', outp') ∈ done -> is_Some (files (disk w2) !! outp').
Proof.
  intros items Hdone Hflag Hconv.
  assert (grows (fst st1) w2) as Hg.
  { pose proof (growing_convert_one api inp outp opt (fst st1)) as H.
    by rewrite Hconv in H. }
  destruct (run_loop_outputs api opt c _ _ _ _ _ Hdone) as [Hg1 Hout].
  split; [|split].
  - unfold run. rewrite run_body_nonempty by (unfold items; by destruct done).
    fold items. unfold items at 2. rewrite run_loop_app, Hdone, run_loop_cons, Hflag.
    unfold run_job, py_bind, emit, in_world. cbn [fst snd]. rewrite Hconv.
    cbn [fst snd]. by rewrite <- !app_assoc.
  - by eapply grows_trans.
  - intros inp' outp' Hin. apply Hg. by eapply Hout.
Qed.

End RunFailure.

(** ** More on the output names *)

Lemma NoDup_from_fresh {A} (l : list A) :
  (forall i x, l !! i = Some x -> x ∉ take i l) -> NoDup l.
Proof.
  intros H. apply NoDup_alt. intros i j x Hi Hj.
  destruct (Nat.lt_trichotomy i j) as [Hlt|[->|Hlt]]; [|done|].
  - exfalso. apply (H j x Hj). apply list_elem_of_lookup. exists i.
    by rewrite lookup_take_lt.
  - exfalso. apply (H i x Hi). apply list_elem_of_lookup. exists j.
    by rewrite lookup_take_lt.
Qed.

Lemma string_app_assoc (s t u : string) :
  ((s ++ t) ++ u = s ++ t ++ u)%string.
Proof.
  induction s as [|c s IH]; [done|].
  change (String c ((s ++ t) ++ u) = String c (s ++ t ++ u))%string.
  by rewrite IH.
Qed.

Section NamerSafety.
Context {fold : CaseFold}.
Variable existing : gset Path.
Variable stat_error : Path -> option string.
Variables selected all_items : list Path.
Variable out_dir_text : string.
Variable naming_index : Z.
Variable custom_name_text : string.

Local Open Scope string_scope.

Lemma candidate_obj (stem_ : string) (k : nat) :
  exists base, candidate stem_ k = base ++ ".obj".
Proof.
  destruct k as [|k]; [by exists stem_|].
  exists (stem_ ++ "_" ++ pretty (S k)). simpl.
  by rewrite !string_app_assoc.
Qed.

(** The names that the jobs of a finished list were given. *)
Lemma build_list_given (pairs : list (Path * Path)) :
  let items := use_items selected all_items in
  _build_conversion_list existing stat_error selected all_items out_dir_text naming_index
    custom_name_text = Some (Ok pairs) ->
  exists given,
    length pairs = length items /\ length given = length items /\
    forall i inp out, pairs !! i = Some (inp, out) ->
      items !! i = Some inp /\
      exists stem_ c,
        given !! i = Some c /\
        out_name_of naming_index custom_name_text (length items) (S i) inp = Ok stem_ /\
        resolved existing stat_error out_dir_text (take i given) stem_ inp c out.
Proof.
  intros items Hbuild.
  destruct (build_conversion_list_spec existing stat_error selected all_items out_dir_text
              naming_index custom_name_text) as (r & Heq & Hr).
  rewrite Hbuild in Heq. injection Heq as <-. exact Hr.
Qed.

Lemma namer_output_fresh (pairs : list (Path * Path)) (inp out : Path) :
  _build_conversion_list existing stat_error selected all_items out_dir_text naming_index
    custom_name_text = Some (Ok pairs) ->
  (inp, out) ∈ pairs -> out ∉ existing.
Proof.
  intros Hbuild (i & Hi)%list_elem_of_lookup.
  destruct (build_list_given pairs Hbuild) as (given & _ & _ & Hpairs).
  destruct (Hpairs i inp out Hi) as (_ & stem_ & c & _ & _ & (k & _ & -> & [_ Hfree] & _)).
  by apply path_exists_false in Hfree as [_ ?].
Qed.

(** A name without a slash is the name of its path, in the folder as
    pathlib writes it. *)
Lemma joinpath_plain (folder c : string) :
  Str.no_slash c = true -> Str.kept c = true ->
  joinpath folder c = mkPath (path_text folder) c.
Proof.
  intros Hc Hk. unfold joinpath, path_text, Str.parts.
  rewrite (split_no_slash c Hc). simpl. rewrite Hk.
  assert (Str.root c = "") as ->.
  { destruct c as [|a c]; [done|]. simpl in Hc.
    apply andb_prop in Hc as [Ha _]. apply negb_true_iff in Ha.
    unfold Str.root. destruct a as [[] [] [] [] [] [] [] []]; try done. }
  simpl. by rewrite List.removelast_last, List.last_last.
Qed.

Lemma kept_candidate (stem_ : string) (k : nat) : Str.kept (candidate stem_ k) = true.
Proof. destruct k; [apply kept_obj|apply kept_numbered]. Qed.

(** X12.  When the list is built, it has one pair per job, in the order of
    the jobs and with the inputs as given.  Every job was given a name
    [....obj]; no two of these names are equal, letter case aside; the
    output is the name joined to the chosen folder (or to the folder of
    the input when none is chosen) and does not exist on disk.  When
    none of the names holds a slash, the output is the file of that name
    in that folder, and no two outputs are the same path. *)
Theorem namer_outputs_collision_free (pairs : list (Path * Path)) :
  _build_conversion_list existing stat_error selected all_items out_dir_text naming_index
    custom_name_text = Some (Ok pairs) ->
  map fst pairs = use_items selected all_items /\
  exists given,
    length given = length pairs /\
    NoDup (map py_lower given) /\
    (forall i inp out, pairs !! i = Some (inp, out) ->
       exists c base,
         given !! i = Some c /\ c = base ++ ".obj" /\
         out = joinpath (dest_folder out_dir_text inp) c /\
         out ∉ existing) /\
    (Forall (fun c => Str.no_slash c = true) given ->
     NoDup (map snd pairs) /\
     forall i inp out, pairs !! i = Some (inp, out) ->
       exists c,
         given !! i = Some c /\
         out = mkPath (path_text (dest_folder out_dir_text inp)) c).
Proof.
  intros Hbuild.
  destruct (build_list_given pairs Hbuild) as (given & Hlen & Hlen' & Hpairs).
  assert (NoDup (map py_lower given)) as Hnodup.
  { apply NoDup_from_fresh. intros i x Hi.
    change (map ?f ?l) with (f <$> l) in *. rewrite list_lookup_fmap in Hi.
    destruct (given !! i) as [c|] eqn:Hc; [|done]. injection Hi as <-.
    destruct (lookup_lt_is_Some_2 pairs i) as [[inp out] Hp].
    { apply lookup_lt_Some in Hc. lia. }
    destruct (Hpairs i inp out Hp) as (_ & stem_ & c' & Hc' & _ & (k & _ & _ & [Hfree _] & _)).
    assert (c' = c) as -> by congruence.
    rewrite <- fmap_take. exact Hfree. }
  assert (forall i inp out, pairs !! i = Some (inp, out) ->
            exists c k stem_,
              given !! i = Some c /\ c = candidate stem_ k /\
              out = joinpath (dest_folder out_dir_text inp) c /\ out ∉ existing) as Hout.
  { intros i inp out Hi.
    destruct (Hpairs i inp out Hi) as (_ & stem_ & c & Hc & _ & (k & -> & -> & [_ Hfree] & _)).
    exists (candidate stem_ k), k, stem_. do 3 (split; [done|]).
    by apply path_exists_false in Hfree as [_ ?]. }
  assert (forall i inp out, pairs !! i = Some (inp, out) ->
            Forall (fun c => Str.no_slash c = true) given ->
            exists c, given !! i = Some c /\
              out = mkPath (path_text (dest_folder out_dir_text inp)) c) as Hplain.
  { intros i inp out Hi Hslash.
    destruct (Hout i inp out Hi) as (c & k & stem_ & Hc & Hck & -> & _).
    exists c. split; [done|]. apply joinpath_plain.
    - rewrite Forall_forall in Hslash. apply Hslash. by eapply list_elem_of_lookup_2.
    - rewrite Hck. apply kept_candidate. }
  split.
  { apply list_eq. intros i. change (map ?f ?l) with (f <$> l).
    rewrite list_lookup_fmap.
    destruct (pairs !! i) as [[inp out]|] eqn:Hp; simpl.
    + by destruct (Hpairs i inp out Hp) as (-> & _).
    + symmetry. apply lookup_ge_None. apply lookup_ge_None in Hp. lia. }
  exists given. split; [lia|]. split; [done|]. split.
  { intros i inp out Hi. destruct (Hout i inp out Hi) as (c & k & stem_ & Hc & -> & -> & Hex).
    destruct (candidate_obj stem_ k) as [base Hbase].
    exists (candidate stem_ k), base. done. }
  intros Hslash. split; [|by intros i inp out Hi; apply Hplain].
  apply NoDup_alt. intros i j out.
  change (map ?f ?l) with (f <$> l). rewrite !list_lookup_fmap.
  destruct (pairs !! i) as [[inp1 out1]|] eqn:Hi; [|done].
  destruct (pairs !! j) as [[inp2 out2]|] eqn:Hj; [|done].
  simpl. intros [= ->] [= ->].
  destruct (Hplain i inp1 out Hi Hslash) as (c1 & Hc1 & Ho1).
  destruct (Hplain j inp2 out Hj Hslash) as (c2 & Hc2 & Ho2).
  assert (c1 = c2) as <- by (rewrite Ho1 in Ho2; by injection Ho2).
  eapply (NoDup_lookup _ i j (py_lower c1)) in Hnodup; [done| |];
    change (map ?f ?l) with (f <$> l); rewrite list_lookup_fmap.
  - by rewrite Hc1.
  - by rewrite Hc2.
Qed.

End NamerSafety.

Section Digits.
Local Open Scope string_scope.

Lemma pretty_N_go_length (x : N) (s : string) :
  (String.length s + (if decide (x = 0)%N then 0 else 1) <= String.length (pretty_N_go x s))%nat.
Proof.
  revert s. induction (N.lt_wf_0 x) as [x _ IH]; intros s.
  destruct (decide (x = 0)%N) as [->|Hx]; [rewrite pretty_N_go_0; lia|].
  rewrite pretty_N_go_step by lia.
  etrans; [|apply IH; apply N.div_lt; lia]. simpl. lia.
Qed.

Lemma pretty_N_go_head (x : N) (s : string) :
  (0 < x)%N -> exists c s', pretty_N_go x s = String c s' /\ c <> "0"%char.
Proof.
  revert s. induction (N.lt_wf_0 x) as [x _ IH]; intros s Hx.
  rewrite pretty_N_go_step by lia.
  destruct (decide (x `div` 10 = 0)%N) as [Hz|Hnz].
  - rewrite Hz, pretty_N_go_0. eexists _, _. split; [done|].
    assert (x < 10)%N as Hlt.
    { destruct (N.lt_ge_cases x 10) as [|Hge]; [done|]. exfalso.
      assert (1 <= x `div` 10)%N by (apply N.div_le_lower_bound; lia). lia. }
    rewrite N.mod_small by done.
    assert (x = 1 \/ x = 2 \/ x = 3 \/ x = 4 \/ x = 5 \/ x = 6 \/ x = 7 \/ x = 8 \/ x = 9)%N
      as Hcases by lia.
    destruct Hcases as [->|[->|[->|[->|[->|[->|[->|[->| ->]]]]]]]]; done.
  - apply IH; [apply N.div_lt; lia|by apply N.neq_0_lt_0].
Qed.

Lemma pretty_nat_small (k : nat) : (k < 10)%nat -> String.length (pretty k) = 1%nat.
Proof.
  intros H. do 10 (destruct k as [|k]; [done|]). lia.
Qed.

Lemma pretty_nat_large (k : nat) : (10 <= k)%nat -> (2 <= String.length (pretty k))%nat.
Proof.
  intros H. unfold pretty, pretty_nat, pretty, pretty_N.
  case_decide; [lia|]. rewrite pretty_N_go_step by lia.
  etrans; [|apply pretty_N_go_length]. simpl.
  destruct (decide (N.of_nat k `div` 10 = 0)%N) as [Hz|]; [|lia].
  assert (1 <= N.of_nat k `div` 10)%N by (apply N.div_le_lower_bound; lia). lia.
Qed.

Lemma pretty_nat_head (k : nat) :
  (0 < k)%nat -> exists c s', pretty k = String c s' /\ c <> "0"%char.
Proof.
  intros H. unfold pretty, pretty_nat, pretty, pretty_N.
  case_decide; [lia|]. apply pretty_N_go_head. lia.
Qed.

Lemma fmt_02d_cases (k : nat) :
  Str.fmt_02d k = if decide (k < 10)%nat then "0" ++ pretty k else pretty k.
Proof.
  unfold Str.fmt_02d. case_decide as Hk.
  - by rewrite pretty_nat_small.
  - pose proof (pretty_nat_large k ltac:(lia)) as Hlen.
    destruct (Nat.ltb_spec (String.length (pretty k)) 2); [lia|done].
Qed.

(** The number that [_build_conversion_list] appends in the custom
    mode has at least two characters, and different job numbers give
    different texts, also beyond 99 jobs. *)
Lemma fmt_02d_distinct (j k : nat) :
  (2 <= String.length (Str.fmt_02d k))%nat /\
  (Str.fmt_02d j = Str.fmt_02d k -> j = k).
Proof.
  split.
  - rewrite fmt_02d_cases. case_decide.
    + change (String.length ("0" ++ pretty k)) with (S (String.length (pretty k))).
      rewrite pretty_nat_small by done. lia.
    + apply pretty_nat_large. lia.
  - rewrite !fmt_02d_cases. repeat case_decide; intros Heq.
    + apply (inj (String.append "0")) in Heq. by apply (inj pretty) in Heq.
    + exfalso. destruct (pretty_nat_head k) as (c & s' & Hk & Hc); [lia|].
      rewrite Hk in Heq. by injection Heq as <-.
    + exfalso. destruct (pretty_nat_head j) as (c & s' & Hj & Hc); [lia|].
      rewrite Hj in Heq. by injection Heq as ->.
    + by apply (inj pretty) in Heq.
Qed.

End Digits.

Lemma string_app_inv_head (s t u : string) : (s ++ t = s ++ u)%string -> t = u.
Proof.
  induction s as [|c s IH]; [done|].
  change (String c (s ++ t) = String c (s ++ u) -> t = u)%string.
  intros [= H]. by apply IH.
Qed.

Section NamerModes.
Context {fold : CaseFold}.
Variable existing : gset Path.
Variable stat_error : Path -> option string.
Variables selected all_items : list Path.
Variable out_dir_text : string.
Variable naming_index : Z.
Variable custom_name_text : string.

Local Open Scope string_scope.

(** X13.  With the naming modes "same name" (0) and "add suffix" (1)
    [_build_conversion_list] never raises the error of the naming.  It
    ends either with one pair per job, the output of a job being a
    candidate of the stem of its input (in mode 1 followed by
    [_converted]) in the folder of the job, or with the [OSError] with
    which the disk refused the question for a candidate.  On a disk that
    answers every question it returns the pairs. *)
Theorem plain_naming_never_fails :
  naming_index = 0 \/ naming_index = 1 ->
  let items := use_items selected all_items in
  let stem_of inp := if (naming_index =? 0)%Z then stem inp else stem inp ++ "_converted" in
  exists r,
    _build_conversion_list existing stat_error selected all_items out_dir_text naming_index
      custom_name_text = Some r /\
    match r with
    | Ok pairs =>
        length pairs = length items /\
        forall i inp out, pairs !! i = Some (inp, out) ->
          items !! i = Some inp /\
          exists k, out = joinpath (dest_folder out_dir_text inp) (candidate (stem_of inp) k)
    | Raise e =>
        exists msg i inp k,
          e = OSError msg /\ items !! i = Some inp /\
          stat_error (joinpath (dest_folder out_dir_text inp) (candidate (stem_of inp) k))
            = Some msg
    end /\
    ((forall p, stat_error p = None) -> exists pairs, r = Ok pairs).
Proof.
  intros Hmode items stem_of.
  assert (forall n idx inp,
            out_name_of naming_index custom_name_text n idx inp = Ok (stem_of inp))
    as Hname.
  { intros n idx inp. unfold out_name_of, stem_of. by destruct Hmode as [-> | ->]. }
  destruct (build_conversion_list_spec existing stat_error selected all_items out_dir_text
              naming_index custom_name_text) as (r & Heq & Hr).
  fold items in Hr. exists r. split; [done|]. destruct r as [pairs|e].
  - split; [|by eexists]. destruct Hr as (given & Hlen & _ & Hpairs).
    split; [done|]. intros i inp out Hi.
    destruct (Hpairs i inp out Hi) as (Hitem & stem_ & c & _ & Hs & (k & -> & -> & _)).
    split; [done|]. rewrite Hname in Hs. injection Hs as <-. by exists k.
  - destruct Hr as (i & inp & given & Hi & _ & _ & [He|(stem_ & msg & Hs & -> & Href)]).
    { by rewrite Hname in He. }
    rewrite Hname in Hs. injection Hs as <-.
    destruct Href as (k & _ & Hmsg & _). split.
    + by exists msg, i, inp, k.
    + intros Hdisk. by rewrite Hdisk in Hmsg.
Qed.

(** X14.  In the custom mode with more than one job, the number appended
    to the custom name has at least two digits, and two jobs with
    different numbers get different stems, also beyond 99 jobs. *)
Theorem custom_stems_distinct (n i j : nat) (inp inp' : Path) (s : string) :
  naming_index <> 0 -> naming_index <> 1 -> (1 < n)%nat ->
  out_name_of naming_index custom_name_text n i inp = Ok s ->
  out_name_of naming_index custom_name_text n j inp' = Ok s ->
  i = j /\
  s = custom_base custom_name_text ++ "_" ++ Str.fmt_02d i /\
  (2 <= String.length (Str.fmt_02d i))%nat.
Proof.
  intros H0 H1 Hn. rewrite !out_name_of_custom by done.
  destruct (Str.truthy (custom_base custom_name_text)); [|done].
  apply Nat.ltb_lt in Hn. rewrite Hn. intros [= <-] [= E].
  apply string_app_inv_head in E.
  apply (string_app_inv_head "_") in E.
  destruct (fmt_02d_distinct j i) as [Hlen Hinj].
  split; [symmetry; by apply Hinj|]. split; [done|done].
Qed.

End NamerModes.

Section NamerPlain.
Context {fold : CaseFold}.
Variable existing : gset Path.
Variable stat_error : Path -> option string.
Variables selected all_items : list Path.
Variable out_dir_text : string.
Variable naming_index : Z.
Variable custom_name_text : string.

Local Open Scope string_scope.

(** A job whose first candidate is not taken gets it. *)
Lemma resolved_first_candidate (earlier : list string) (s : string)
    (inp : Path) (c : string) (out : Path) :
  resolved existing stat_error out_dir_text earlier s inp c out ->
  ~ name_taken existing stat_error earlier (dest_folder out_dir_text inp) (candidate s 0) ->
  c = s ++ ".obj" /\ out = joinpath (dest_folder out_dir_text inp) (s ++ ".obj").
Proof.
  intros (k & -> & -> & _ & Hfirst) Hfree. destruct k as [|k]; [done|].
  exfalso. apply Hfree, Hfirst. lia.
Qed.

(** The lowered name of an earlier job belongs to an earlier job. *)
Lemma earlier_name_inv (given : list string) (i : nat) (x : string) :
  x ∈ map py_lower (take i given) ->
  exists j c, (j < i)%nat /\ given !! j = Some c /\ x = py_lower c.
Proof.
  intros (c & -> & Hin)%list_elem_of_fmap.
  apply list_elem_of_lookup in Hin as [j Hj].
  assert (j < i)%nat as Hji.
  { apply lookup_lt_Some in Hj. rewrite length_take in Hj. lia. }
  rewrite lookup_take_lt in Hj by done.
  by exists j, c.
Qed.

(** X15.  When no two jobs ask for the same file name (letter case
    aside, as [str.lower] sees it) and none of the names asked for
    exists on disk, nothing is renamed: every job gets its stem followed
    by [.obj], in its folder. *)
Theorem namer_without_collision (pairs : list (Path * Path)) :
  let items := use_items selected all_items in
  let stem_of i inp := out_name_of naming_index custom_name_text (length items) (S i) inp in
  _build_conversion_list existing stat_error selected all_items out_dir_text naming_index
    custom_name_text = Some (Ok pairs) ->
  (forall i inp s, items !! i = Some inp -> stem_of i inp = Ok s ->
     joinpath (dest_folder out_dir_text inp) (s ++ ".obj") ∉ existing) ->
  (forall i j inp inp' s s', (j < i)%nat ->
     items !! i = Some inp -> items !! j = Some inp' ->
     stem_of i inp = Ok s -> stem_of j inp' = Ok s' ->
     py_lower (s' ++ ".obj") <> py_lower (s ++ ".obj")) ->
  forall i inp out, pairs !! i = Some (inp, out) ->
    exists s, stem_of i inp = Ok s /\
      out = joinpath (dest_folder out_dir_text inp) (s ++ ".obj").
Proof.
  intros items stem_of Hbuild Hdisk Hdiff.
  destruct (build_list_given existing stat_error selected all_items out_dir_text
              naming_index custom_name_text pairs Hbuild)
    as (given & Hlen & Hlen' & Hpairs).
  fold items in Hpairs, Hlen, Hlen'.
  assert (forall i inp out, pairs !! i = Some (inp, out) ->
            exists s, stem_of i inp = Ok s /\ given !! i = Some (s ++ ".obj") /\
              out = joinpath (dest_folder out_dir_text inp) (s ++ ".obj")) as Hall.
  { intros i. induction i as [i IH] using lt_wf_ind. intros inp out Hi.
    destruct (Hpairs i inp out Hi) as (Hitem & s & c & Hc & Hs & Hres).
    exists s. split; [done|].
    destruct (resolved_first_candidate _ _ _ _ _ Hres) as [-> ->]; [|done].
    intros [(j & c' & Hji & Hj & Hq)%earlier_name_inv|Hex].
    - destruct (lookup_lt_is_Some_2 pairs j) as [[inp' out'] Hp'].
      { apply lookup_lt_Some in Hi. lia. }
      destruct (IH j Hji inp' out' Hp') as (s' & Hs' & Hc' & _).
      destruct (Hpairs j inp' _ Hp') as (Hitem' & _).
      assert (c' = s' ++ ".obj") as -> by congruence.
      symmetry in Hq. by eapply (Hdiff i j).
    - apply path_exists_true in Hex. by eapply Hdisk. }
  intros i inp out Hi. destruct (Hall i inp out Hi) as (s & Hs & _ & Hout).
  by exists s.
Qed.

(** X16.  In the custom mode with more than one job and a name given,
    when the disk answers for each of the numbered names that no such
    file exists, job [i] of the batch gets exactly the custom name
    followed by [_], the job number in at least two digits, and
    [.obj]; the numbering alone keeps the names apart. *)
Theorem custom_batch_numbering :
  let items := use_items selected all_items in
  let base := custom_base custom_name_text in
  let numbered i := base ++ "_" ++ Str.fmt_02d (S i) ++ ".obj" in
  naming_index <> 0 -> naming_index <> 1 ->
  base <> "" -> (1 < length items)%nat ->
  (forall i inp, items !! i = Some inp ->
     path_exists existing stat_error
       (joinpath (dest_folder out_dir_text inp) (numbered i)) = Ok false) ->
  _build_conversion_list existing stat_error selected all_items out_dir_text naming_index
    custom_name_text =
  Some (Ok (imap (fun i inp => (inp, joinpath (dest_folder out_dir_text inp) (numbered i)))
              items)).
Proof.
  intros items base numbered H0 H1 Hbase Hn Hdisk.
  assert (forall i inp,
            out_name_of naming_index custom_name_text (length items) (S i) inp
            = Ok (base ++ "_" ++ Str.fmt_02d (S i))) as Hname.
  { intros i inp. rewrite out_name_of_custom by done. fold base.
    destruct (Str.truthy base) eqn:Ht; [|by apply truthy_empty in Ht].
    apply Nat.ltb_lt in Hn. by rewrite Hn. }
  assert (forall i, numbered i = (base ++ "_" ++ Str.fmt_02d (S i)) ++ ".obj") as Hnum.
  { intros i. unfold numbered. by rewrite !string_app_assoc. }
  assert (forall i j, py_lower (numbered i) = py_lower (numbered j) -> i = j) as Hinj.
  { intros i j Hq. unfold numbered in Hq.
    apply py_lower_numbered in Hq; [|apply all_digits_fmt_02d..].
    destruct (fmt_02d_distinct (S i) (S j)) as [_ Hd]. apply Hd in Hq. lia. }
  (* every job resolved under the given names got its numbered name *)
  assert (forall (given : list string),
            (forall j c, given !! j = Some c ->
               exists inp' stem',
                 items !! j = Some inp' /\
                 out_name_of naming_index custom_name_text (length items) (S j) inp'
                   = Ok stem' /\
                 resolved existing stat_error out_dir_text (take j given)
                   stem' inp' c (joinpath (dest_folder out_dir_text inp') c)) ->
            forall j c, given !! j = Some c -> c = numbered j) as Hgiven.
  { intros given Hres j. induction j as [j IH] using lt_wf_ind. intros c Hc.
    destruct (Hres j c Hc) as (inp' & stem' & Hitem & Hs & Hr).
    rewrite Hname in Hs. injection Hs as <-. rewrite Hnum.
    apply (resolved_first_candidate _ _ _ _ _ Hr).
    change (candidate ?x 0) with (x ++ ".obj"). rewrite <- Hnum.
    intros [(j' & c' & Hjj & Hj' & Hq)%earlier_name_inv|Hex].
    - rewrite (IH j' Hjj c' Hj') in Hq. apply Hinj in Hq. lia.
    - by rewrite (Hdisk j inp' Hitem) in Hex. }
  destruct (build_conversion_list_spec existing stat_error selected all_items out_dir_text
              naming_index custom_name_text) as (r & Heq & Hr).
  fold items in Hr. rewrite Heq. destruct r as [pairs|e].
  - destruct Hr as (given & Hlen & Hlen' & Hpairs). do 2 f_equal.
    assert (forall j c, given !! j = Some c -> c = numbered j) as Hc.
    { apply Hgiven. intros j c Hj.
      destruct (lookup_lt_is_Some_2 pairs j) as [[inp out] Hp].
      { apply lookup_lt_Some in Hj. lia. }
      destruct (Hpairs j inp out Hp) as (Hitem & stem_ & c' & Hc' & Hs & Hres).
      assert (c' = c) as -> by congruence.
      exists inp, stem_. split; [done|]. split; [done|].
      destruct Hres as (k & ? & -> & ?). by exists k. }
    apply list_eq_same_length with (length items);
      [by rewrite length_imap|done|].
    intros i [inp out] q Hi Hp Hq.
    destruct (Hpairs i inp _ Hp) as (Hitem & stem_ & c & Hci & _ & (k & _ & -> & _)).
    rewrite list_lookup_imap, Hitem in Hq. simpl in Hq. injection Hq as <-.
    by rewrite (Hc i c Hci).
  - exfalso.
    destruct Hr as (i & inp & given & Hi & Hlen & Hres & [He|(stem_ & msg & Hs & -> & Href)]).
    { by rewrite Hname in He. }
    rewrite Hname in Hs. injection Hs as <-.
    destruct Href as (k & _ & Hmsg & Hbefore).
    pose proof (Hdisk i inp Hi) as Hfree. rewrite Hnum in Hfree.
    destruct k as [|k].
    + apply path_exists_false in Hfree as [Hnone _].
      change (candidate ?x 0) with (x ++ ".obj") in Hmsg. by rewrite Hmsg in Hnone.
    + destruct (Hbefore 0%nat) as [Hin|Hex]; [lia| |].
      * change (candidate ?x 0) with (x ++ ".obj") in Hin. rewrite <- Hnum in Hin.
        rewrite <- (firstn_all given) in Hin.
        apply earlier_name_inv in Hin as (j' & c' & Hjj & Hj' & Hq).
        rewrite (Hgiven given Hres j' c' Hj') in Hq. apply Hinj in Hq. lia.
      * change (candidate ?x 0) with (x ++ ".obj") in Hex. by rewrite Hfree in Hex.
Qed.

End NamerPlain.

Section FileListFacts.
Context {fold : CaseFold}.
Variable exists_ : Path -> Exc bool.
Variable is_dir : Path -> Exc bool.
Variable glob : Path -> string -> Exc (list Path).
Variable resolve : Path -> Exc Path.






End FileListFacts.

(** ** More on numpy indexing *)

Section MoreNumpy.
Context {A : Type}.
Implicit Types (arr : list A) (mask : list bool) (idx : list Z).

Lemma count_true_cons (b : bool) mask :
  Np.count_true (b :: mask) = ((if b then 1 else 0) + Np.count_true mask)%nat.
Proof. unfold Np.count_true. simpl. by destruct b. Qed.

Lemma compress_length mask arr :
  length mask = length arr -> length (Np.compress mask arr) = Np.count_true mask.
Proof.
  revert arr. induction mask as [|b mask IH]; intros [|a arr] H; simpl in *; try done.
  rewrite count_true_cons. destruct b; simpl; rewrite IH by lia; lia.
Qed.

Lemma count_true_take_le mask (i : nat) :
  (Np.count_true (take i mask) <= Np.count_true mask)%nat.
Proof.
  revert i. induction mask as [|b mask IH]; intros [|i]; simpl; try lia.
  - unfold Np.count_true. simpl. lia.
  - rewrite !count_true_cons. specialize (IH i). lia.
Qed.

Lemma count_true_take_lt mask (i : nat) :
  mask !! i = Some true ->
  (Np.count_true (take i mask) < Np.count_true mask)%nat.
Proof.
  revert i. induction mask as [|b mask IH]; intros [|i] H; simpl in *; try done.
  - injection H as ->. rewrite count_true_cons. unfold Np.count_true at 1. simpl. lia.
  - rewrite !count_true_cons. specialize (IH i H). lia.
Qed.

(** The element at a set position of the mask lands at the rank of that
    position. *)
Lemma compress_lookup_rank mask arr (i : nat) :
  length mask = length arr ->
  mask !! i = Some true ->
  Np.compress mask arr !! Np.count_true (take i mask) = arr !! i.
Proof.
  revert arr i. induction mask as [|b mask IH]; intros [|a arr] [|i] Hlen Hi;
    simpl in *; try done.
  - by injection Hi as ->.
  - rewrite count_true_cons. destruct b; simpl; apply IH; auto with lia.
Qed.

(** Every element of the result stood at a set position. *)
Lemma compress_lookup_inv mask arr (k : nat) (x : A) :
  Np.compress mask arr !! k = Some x ->
  exists i, arr !! i = Some x /\ mask !! i = Some true /\
            k = Np.count_true (take i mask).
Proof.
  revert arr k. induction mask as [|b mask IH]; intros [|a arr] k H; simpl in *; try done.
  destruct b.
  - destruct k as [|k]; simpl in H.
    + injection H as ->. by exists 0%nat.
    + destruct (IH arr k H) as (i & Hi & Hm & ->). exists (S i).
      split; [done|]. split; [done|]. simpl. by rewrite count_true_cons.
  - destruct (IH arr k H) as (i & Hi & Hm & ->). exists (S i).
    split; [done|]. split; [done|]. simpl. by rewrite count_true_cons.
Qed.

Lemma compress_Forall (P : A -> Prop) mask arr :
  Forall P arr -> Forall P (Np.compress mask arr).
Proof.
  intros H. revert mask. induction H as [|a arr Ha _ IH]; intros [|b mask]; simpl;
    try constructor.
  destruct b; [constructor; [done|apply IH]|apply IH].
Qed.

Lemma compress_length_le mask arr : (length (Np.compress mask arr) <= length arr)%nat.
Proof.
  revert arr. induction mask as [|b mask IH]; intros [|a arr]; simpl; try lia.
  destruct b; simpl; specialize (IH arr); lia.
Qed.

Lemma rank_injective mask (i j : nat) :
  mask !! i = Some true -> mask !! j = Some true ->
  Np.count_true (take i mask) = Np.count_true (take j mask) -> i = j.
Proof.
  revert i j. induction mask as [|b mask IH]; intros [|i] [|j] Hi Hj; simpl in *;
    try done; rewrite ?count_true_cons.
  - injection Hi as ->. unfold Np.count_true at 1. simpl. lia.
  - injection Hj as ->. unfold Np.count_true at 2. simpl. lia.
  - intros H. f_equal. apply IH; [done|done|lia].
Qed.

(** [np.take] on indices that are in range and not negative *)
Lemma take_in_range arr idx :
  Forall (fun i => 0 <= i < Z.of_nat (length arr)) idx ->
  exists out,
    Np.take arr idx = Ok out /\ length out = length idx /\
    forall k i, idx !! k = Some i -> out !! k = arr !! Z.to_nat i.
Proof.
  induction 1 as [|i idx Hi _ (out & Heq & Hlen & Hout)].
  { exists []. split; [done|]. split; [done|]. by intros k i ?. }
  destruct (lookup_lt_is_Some_2 arr (Z.to_nat i)) as [a Ha]; [lia|].
  exists (a :: out). unfold Np.take in *. simpl.
  replace i with (Z.of_nat (Z.to_nat i)) at 1 by lia.
  rewrite (index_nat _ _ _ Ha). simpl. rewrite Heq. simpl.
  split; [done|]. split; [by rewrite Hlen|].
  intros [|k] j; simpl; [by intros [= <-]|apply Hout].
Qed.

(** [arr[idx] = vals] on distinct indices that are in range and not
    negative *)
Lemma put_in_range idx : forall arr (vals : list A),
  Forall (fun i => 0 <= i < Z.of_nat (length arr)) idx ->
  NoDup idx ->
  length vals = length idx ->
  exists r,
    Np.put arr idx vals = Ok r /\ length r = length arr /\
    (forall k i, idx !! k = Some i -> r !! Z.to_nat i = vals !! k) /\
    (forall j, Z.of_nat j ∉ idx -> r !! j = arr !! j).
Proof.
  induction idx as [|i idx IH]; intros arr vals Hr Hnd Hlen.
  { exists arr. split; [done|]. split; [done|]. split; [by intros k i ?|done]. }
  destruct vals as [|v vals]; [done|].
  apply Forall_cons in Hr as [Hi Hr]. apply NoDup_cons in Hnd as [Hni Hnd].
  destruct (IH (<[Z.to_nat i := v]> arr) vals) as (r & Heq & Hlenr & Hin & Hout).
  { by rewrite length_insert. } { done. } { simpl in Hlen. lia. }
  exists r. simpl. replace i with (Z.of_nat (Z.to_nat i)) at 1 by lia.
  rewrite norm_index_nat by lia. simpl. rewrite Heq.
  split; [done|]. split; [by rewrite Hlenr, length_insert|]. split.
  - intros [|k] j; simpl.
    + intros [= <-]. rewrite Hout; [apply list_lookup_insert_eq; lia|].
      by rewrite Z2Nat.id by lia.
    + apply Hin.
  - intros j Hj. apply not_elem_of_cons in Hj as [Hne Hj].
    rewrite Hout by done. apply list_lookup_insert_ne. lia.
Qed.

End MoreNumpy.

(** [new_index = -ones(n); new_index[mask] = arange(count)]: a set
    position holds its rank, the others hold -1. *)
Lemma put_mask_rank (mask : list bool) (s : Z) (c : nat) (i : nat) (b : bool) :
  (Np.count_true mask <= c)%nat ->
  mask !! i = Some b ->
  Np.put_mask (replicate (length mask) (-1)) mask (seqZ s (Z.of_nat c)) !! i =
    Some (if b then s + Z.of_nat (Np.count_true (take i mask)) else -1).
Proof.
  revert s c i. induction mask as [|b0 mask IH]; intros s c i Hc Hi; [done|].
  rewrite count_true_cons in Hc. simpl. destruct b0.
  - destruct c as [|c]; [lia|]. rewrite seqZ_cons by lia.
    destruct i as [|i]; simpl in *.
    + injection Hi as <-. unfold Np.count_true. simpl. f_equal. lia.
    + replace (Z.pred (Z.of_nat (S c))) with (Z.of_nat c) by lia.
      rewrite (IH (Z.succ s) c i) by (done || lia).
      rewrite count_true_cons. destruct b; f_equal; lia.
  - destruct i as [|i]; simpl in *.
    + by injection Hi as <-.
    + rewrite (IH s c i) by (done || lia). by rewrite count_true_cons.
Qed.

(** [arr[rows]] read back row by row *)
Lemma take_rows_Ok_inv {A} (arr : list A) (rows : list Face) (out : list (A * A * A)) :
  Np.take_rows arr rows = Ok out ->
  Forall2 (fun f o =>
             Np.index arr f.1.1 = Ok o.1.1 /\ Np.index arr f.1.2 = Ok o.1.2 /\
             Np.index arr f.2 = Ok o.2) rows out.
Proof.
  unfold Np.take_rows. revert out.
  induction rows as [|[[a b] c] rows IH]; intros out; simpl.
  { intros [= <-]. constructor. }
  destruct (Np.index arr a) as [x|] eqn:Ea; [|done].
  destruct (Np.index arr b) as [y|] eqn:Eb; [|done].
  destruct (Np.index arr c) as [z|] eqn:Ec; [|done]. simpl.
  match goal with |- context [exc_mapM ?g rows] =>
    destruct (exc_mapM g rows) as [out'|] eqn:E; [|done] end. simpl.
  intros [= <-]. constructor; [done|]. by apply IH.
Qed.

Lemma index_in_range {A} (arr : list A) (i : Z) :
  0 <= i < Z.of_nat (length arr) ->
  exists a, Np.index arr i = Ok a /\ arr !! Z.to_nat i = Some a.
Proof.
  intros Hi. destruct (lookup_lt_is_Some_2 arr (Z.to_nat i)) as [a Ha]; [lia|].
  exists a. split; [|done]. replace i with (Z.of_nat (Z.to_nat i)) at 1 by lia.
  by apply index_nat.
Qed.

Lemma index_nonneg_inv {A} (arr : list A) (i : Z) (a : A) :
  0 <= i -> Np.index arr i = Ok a -> arr !! Z.to_nat i = Some a.
Proof.
  intros Hi. unfold Np.index.
  destruct (Np.norm_index (length arr) i) as [k|] eqn:E; [|done]. simpl.
  apply norm_index_nonneg_Ok in E as [-> _]; [|done].
  rewrite Nat2Z.id. by destruct (arr !! k) eqn:Ek; [intros [= <-]|].
Qed.

Section RowFacts.

Lemma Forall_flatten_rows (P : Z -> Prop) (rows : list Face) :
  Forall P (Np.flatten_rows rows) <->
  Forall (fun f => P f.1.1 /\ P f.1.2 /\ P f.2) rows.
Proof.
  unfold Np.flatten_rows. induction rows as [|[[a b] c] rows IH]; simpl.
  { split; constructor. }
  rewrite !Forall_cons, IH. simpl. tauto.
Qed.

Lemma take_rows_map {A} (arr : list A) (g : Z -> A) (rows : list Face) :
  Forall (fun i => Np.index arr i = Ok (g i)) (Np.flatten_rows rows) ->
  Np.take_rows arr rows = Ok (map (fun f => (g f.1.1, g f.1.2, g f.2)) rows).
Proof.
  rewrite Forall_flatten_rows. unfold Np.take_rows.
  induction 1 as [|[[a b] c] rows (Ha & Hb & Hc) _ IH]; [done|].
  simpl in *. rewrite Ha, Hb, Hc. simpl. by rewrite IH.
Qed.

Lemma compress_Forall2 {A B} (R : A -> B -> Prop) (p : A -> bool) (q : B -> bool)
    (l : list A) (k : list B) :
  Forall2 R l k -> (forall a b, R a b -> q b = p a) ->
  Np.compress (map q k) l = List.filter p l.
Proof.
  intros H Hpq. induction H as [|a b l k Hab _ IH]; [done|].
  simpl. rewrite (Hpq a b Hab), IH. done.
Qed.

End RowFacts.

(** ** What the explicit passes of the cleaner achieve *)

Section PassResults.
Context {F : Type} {ops : CoordOps F}.
Implicit Types (m : Trimesh F) (f g : Face).

Lemma indices_in_range_faces m :
  indices_in_range m <->
  Forall (fun f => (0 <= f.1.1 < Z.of_nat (length (vertices m))) /\
                   (0 <= f.1.2 < Z.of_nat (length (vertices m))) /\
                   (0 <= f.2 < Z.of_nat (length (vertices m)))) (faces m).
Proof. apply Forall_flatten_rows. Qed.

Lemma indices_in_range_nonneg m : indices_in_range m -> indices_nonneg m.
Proof. intros H. eapply Forall_impl; [exact H|]. intros i. simpl. lia. Qed.

Lemma finite_corner_mask m (i : Z) (b : bool) :
  0 <= i ->
  Np.index (map finite_row (vertices m)) i = Ok b -> finite_corner m i = b.
Proof.
  intros Hi H. apply index_nonneg_inv in H; [|done].
  rewrite list_lookup_fmap in H. unfold finite_corner, corner.
  destruct (vertices m !! Z.to_nat i); simpl in H; [by injection H|done].
Qed.

Lemma finite_corner_true m (i : Z) :
  0 <= i -> finite_corner m i = true ->
  map finite_row (vertices m) !! Z.to_nat i = Some true.
Proof.
  intros Hi. unfold finite_corner, corner. rewrite list_lookup_fmap.
  destruct (vertices m !! Z.to_nat i); simpl; [by intros ->|done].
Qed.

Lemma finite_face_all m :
  all_finite m -> indices_in_range m ->
  List.filter (finite_face m) (faces m) = faces m.
Proof.
  intros Hfin Hr. apply indices_in_range_faces in Hr.
  unfold all_finite in Hfin. rewrite Forall_lookup in Hfin.
  assert (forall i, 0 <= i < Z.of_nat (length (vertices m)) -> finite_corner m i = true)
    as Hc.
  { intros i Hi. unfold finite_corner, corner.
    destruct (lookup_lt_is_Some_2 (vertices m) (Z.to_nat i)) as [v Hv]; [lia|].
    rewrite Hv. by eapply Hfin. }
  induction Hr as [|f fs (Ha & Hb & Hcc) _ IH]; [done|].
  simpl. unfold finite_face at 1. rewrite !Hc by done. simpl. by rewrite IH.
Qed.

Lemma all_finite_mask m :
  Np.all (map finite_row (vertices m)) = true <-> all_finite m.
Proof.
  unfold Np.all, all_finite. rewrite forallb_forall, Forall_forall. split.
  - intros H v Hv. apply (H (finite_row v)). apply in_map. by apply list_elem_of_In.
  - intros H b (v & <- & Hv)%in_map_iff. apply H. by apply list_elem_of_In.
Qed.

Lemma filter_finite_all m :
  all_finite m -> List.filter finite_row (vertices m) = vertices m.
Proof.
  unfold all_finite. induction 1 as [|v vs Hv _ IH]; [done|].
  simpl. by rewrite Hv, IH.
Qed.

(** Pass 1, the explicit filter: which vertices and faces stay, and how
    the faces are renumbered. *)
Lemma nonfinite_fallback_keeps m :
  indices_in_range m ->
  exists m',
    nonfinite_fallback m = (m', Ok tt) /\
    vertices m' = List.filter finite_row (vertices m) /\
    indices_in_range m' /\
    triangles m' = map (triangle m) (List.filter (finite_face m) (faces m)).
Proof.
  intros Hr. unfold nonfinite_fallback, py_bind at 1, py_get.
  destruct (Np.all (map finite_row (vertices m))) eqn:Hall; simpl.
  { apply all_finite_mask in Hall. exists m. split; [done|].
    split; [by rewrite filter_finite_all|]. split; [done|].
    by rewrite finite_face_all. }
  set (mask := map finite_row (vertices m)).
  assert (length mask = length (vertices m)) as Hlen by apply length_map.
  destruct (Np.take_rows mask (faces m)) as [rows|e] eqn:Hrows.
  2:{ assert (is_ok (Np.take_rows mask (faces m)) = true) as Hok.
      { apply take_rows_is_ok. rewrite Hlen. eapply Forall_impl; [exact Hr|].
        intros i Hi. simpl in *. replace i with (Z.of_nat (Z.to_nat i)) by lia.
        rewrite norm_index_nat by lia. done. }
      by rewrite Hrows in Hok. }
  apply take_rows_Ok_inv in Hrows.
  pose proof (proj1 (indices_in_range_faces m) Hr) as Hrf.
  assert (Np.compress (map all_row rows) (faces m) =
          List.filter (finite_face m) (faces m)) as Hkeep.
  { clear Hr. revert Hrf. induction Hrows as [|f r fs rs (Ha & Hb & Hc) _ IH];
      intros Hrf; [done|].
    apply Forall_cons in Hrf as [(Ra & Rb & Rc) Hrf].
    simpl. rewrite (IH Hrf).
    assert (all_row r = finite_face m f) as ->; [|done].
    destruct r as [[ra rb] rc]. simpl in *. unfold finite_face.
    by rewrite (finite_corner_mask m _ _ (proj1 Ra) Ha),
      (finite_corner_mask m _ _ (proj1 Rb) Hb), (finite_corner_mask m _ _ (proj1 Rc) Hc). }
  unfold py_bind, py_lift. rewrite Hkeep.
  set (kept := List.filter (finite_face m) (faces m)).
  assert (Forall (fun f =>
            (0 <= f.1.1 /\ mask !! Z.to_nat f.1.1 = Some true) /\
            (0 <= f.1.2 /\ mask !! Z.to_nat f.1.2 = Some true) /\
            (0 <= f.2 /\ mask !! Z.to_nat f.2 = Some true)) kept) as Hkept.
  { apply Forall_forall. intros f Hf. apply list_elem_of_In, filter_In in Hf as [Hf Hff].
    rewrite Forall_forall in Hrf. apply list_elem_of_In, Hrf in Hf as (Ra & Rb & Rc).
    unfold finite_face in Hff. apply andb_prop in Hff as [[Ha Hb]%andb_prop Hc].
    simpl in *. repeat split; try lia; apply finite_corner_true; (done || lia). }
  assert (forall i, 0 <= i -> mask !! Z.to_nat i = Some true ->
            Np.index (Np.put_mask (replicate (length mask) (-1)) mask
                        (Np.arange (Np.count_true mask))) i = Ok (rank mask i)) as Hidx.
  { intros i Hi Hm. replace i with (Z.of_nat (Z.to_nat i)) at 1 by lia.
    apply index_nat. unfold Np.arange. rewrite (put_mask_rank _ _ _ _ true); [done|lia|done]. }
  rewrite (take_rows_map _ (rank mask)).
  2:{ apply Forall_flatten_rows. eapply Forall_impl; [exact Hkept|].
      intros f ((?&?) & (?&?) & (?&?)). auto. }
  simpl. eexists. split; [reflexivity|]. simpl.
  assert (forall i, mask !! Z.to_nat i = Some true ->
            Np.compress mask (vertices m) !! Z.to_nat (rank mask i) =
              vertices m !! Z.to_nat i) as Hcorner.
  { intros i Hm. unfold rank. rewrite Nat2Z.id. by apply compress_lookup_rank. }
  split; [apply compress_map|]. split.
  { apply indices_in_range_faces. simpl. rewrite Forall_map.
    eapply Forall_impl; [exact Hkept|]. intros f ((?&Ha) & (?&Hb) & (?&Hc)). simpl.
    rewrite compress_length by done. unfold rank.
    apply count_true_take_lt in Ha, Hb, Hc. lia. }
  unfold triangles. simpl. rewrite map_map. apply map_ext_Forall.
  eapply Forall_impl; [exact Hkept|]. intros f ((?&Ha) & (?&Hb) & (?&Hc)).
  unfold triangle, corner. simpl. by rewrite !Hcorner.
Qed.

Lemma all_finite_filter m m' :
  vertices m' = List.filter finite_row (vertices m) -> all_finite m'.
Proof.
  intros Hv. unfold all_finite. rewrite Hv. apply Forall_forall.
  intros v Hv'. by apply list_elem_of_In, filter_In in Hv' as [_ ?].
Qed.

(** X9.  Pass 1, the explicit filter, on a mesh whose face indices all
    name a vertex: the vertices with a coordinate that is not finite
    are dropped and the others keep their order; the faces that touch
    a dropped vertex are dropped; the remaining faces are renumbered so
    that each still joins the same three points. *)
Theorem nonfinite_fallback_result m :
  indices_in_range m ->
  exists m',
    nonfinite_fallback m = (m', Ok tt) /\
    vertices m' = List.filter finite_row (vertices m) /\
    all_finite m' /\
    indices_in_range m' /\
    triangles m' = map (triangle m) (List.filter (finite_face m) (faces m)).
Proof.
  intros Hr. destruct (nonfinite_fallback_keeps m Hr) as (m' & Heq & Hv & Hr' & Ht).
  exists m'. split; [done|]. split; [done|].
  split; [by eapply all_finite_filter|]. by split.
Qed.

End PassResults.

(** ** Renumbering the faces *)

Section Renumbering.
Variable R : Z -> Z -> Prop.
Hypothesis R_back : forall a b k, R a k -> R b k -> a = b.
Hypothesis R_mono : forall a b k l, R a k -> R b l -> (a <= b <-> k <= l).

Lemma renumbered_degenerate (f f' : Face) :
  renumbered R f f' -> degenerate f' -> degenerate f.
Proof using R_back.
  destruct f as [[a b] c], f' as [[k l] n]. unfold renumbered, degenerate. simpl.
  intros (Ha & Hb & Hc) [->| [->| ->]]; eauto.
Qed.

Lemma renumbered_sort_row (f f' : Face) :
  renumbered R f f' -> renumbered R (sort_row f) (sort_row f').
Proof using R_mono.
  destruct f as [[a b] c], f' as [[k l] n]. unfold renumbered. simpl.
  intros (Ha & Hb & Hc).
  pose proof (R_mono _ _ _ _ Ha Hb). pose proof (R_mono _ _ _ _ Hb Ha).
  pose proof (R_mono _ _ _ _ Hb Hc). pose proof (R_mono _ _ _ _ Hc Hb).
  pose proof (R_mono _ _ _ _ Ha Hc). pose proof (R_mono _ _ _ _ Hc Ha).
  destruct (Z.leb_spec a b), (Z.leb_spec k l); try lia;
    destruct (Z.leb_spec b c), (Z.leb_spec l n); try lia;
    destruct (Z.leb_spec a c), (Z.leb_spec k n); try lia; simpl;
    repeat match goal with |- context [Z.leb ?x ?y] => destruct (Z.leb_spec x y) end;
    simpl; try lia; auto.
Qed.

Lemma renumbered_canonical_form (f f' g g' : Face) :
  renumbered R f f' -> renumbered R g g' ->
  canonical_form f' = canonical_form g' -> canonical_form f = canonical_form g.
Proof using R_back R_mono.
  intros Hf%renumbered_sort_row Hg%renumbered_sort_row.
  rewrite <- !sort_row_eq_canonical. intros E. rewrite E in Hf.
  destruct (sort_row f) as [[a b] c], (sort_row g) as [[x y] z],
    (sort_row g') as [[k l] n].
  destruct Hf as (?&?&?), Hg as (?&?&?). simpl in *. f_equal; [f_equal|]; eauto.
Qed.

Lemma renumbered_no_degenerate (fs fs' : list Face) :
  Forall2 (renumbered R) fs fs' ->
  Forall (fun f => ~ degenerate f) fs -> Forall (fun f => ~ degenerate f) fs'.
Proof using R_back.
  induction 1 as [|f f' fs fs' Hf _ IH]; [done|].
  intros [Hd Hfs]%Forall_cons. constructor; [|by apply IH].
  intros Hd'. apply Hd. by eapply renumbered_degenerate.
Qed.

Lemma renumbered_no_duplicate (fs fs' : list Face) :
  Forall2 (renumbered R) fs fs' ->
  NoDup (map canonical_form fs) -> NoDup (map canonical_form fs').
Proof using R_back R_mono.
  induction 1 as [|f f' fs fs' Hf Hfs IH]; [done|].
  simpl. intros [Hn Hnd]%NoDup_cons. apply NoDup_cons. split; [|by apply IH].
  intros (g' & Hc & Hg')%list_elem_of_fmap. apply Hn.
  apply list_elem_of_lookup in Hg' as [i Hi].
  destruct (Forall2_lookup_r _ _ _ _ _ Hfs Hi) as (g & Hg & Hgg').
  apply list_elem_of_fmap. exists g. split; [|by eapply list_elem_of_lookup_2].
  by eapply renumbered_canonical_form.
Qed.

End Renumbering.

Section SortedFacts.

Lemma StronglySorted_lt (l : list Z) :
  StronglySorted Z.le l -> NoDup l -> StronglySorted Z.lt l.
Proof.
  induction 1 as [|x l _ IH Hx]; [constructor|].
  intros [Hn Hnd]%NoDup_cons. constructor; [by apply IH|].
  rewrite Forall_forall in *. intros y Hy. specialize (Hx y Hy).
  assert (x <> y) by (by intros ->). lia.
Qed.

Lemma StronglySorted_lt_lookup (l : list Z) (i j : nat) (x y : Z) :
  StronglySorted Z.lt l -> l !! i = Some x -> l !! j = Some y ->
  (i < j)%nat -> x < y.
Proof.
  intros H. revert i j. induction H as [|z l _ IH Hz]; intros i j Hi Hj Hij; [done|].
  destruct j as [|j]; [lia|]. simpl in Hj. destruct i as [|i]; simpl in Hi.
  - injection Hi as ->. rewrite Forall_forall in Hz. apply Hz.
    by eapply list_elem_of_lookup_2.
  - apply (IH i j); [done|done|lia].
Qed.

Lemma Forall2_map_eq {A B C} (g : A -> C) (h : B -> C) (l : list A) (k : list B) :
  Forall2 (fun a b => g a = h b) l k -> map g l = map h k.
Proof. induction 1 as [|a b l k E _ IH]; [done|]. simpl. by rewrite E, IH. Qed.

Lemma unique_sorted (l : list Z) : StronglySorted Z.lt (Np.unique l).
Proof.
  apply StronglySorted_lt; [|apply NoDup_remove_dups].
  apply StronglySorted_remove_dups, (StronglySorted_merge_sort Z.le).
Qed.

End SortedFacts.

Section PassResults2.
Context {F : Type} {ops : CoordOps F}.
Implicit Types (m : Trimesh F) (f g : Face).

(** Pass 4, the explicit algorithm, on face indices that all name a
    vertex: which vertices stay and how the faces are renumbered. *)
Lemma unreferenced_fallback_renumbers m :
  indices_in_range m ->
  exists (used : list Z) (m' : Trimesh F),
    unreferenced_fallback m = (m', Ok tt) /\
    used = Np.unique (Np.flatten_rows (faces m)) /\
    length (vertices m') = length used /\
    (forall k i, used !! k = Some i -> vertices m' !! k = vertices m !! Z.to_nat i) /\
    Forall2 (renumbered (fun a k => 0 <= k /\ used !! Z.to_nat k = Some a))
      (faces m) (faces m').
Proof.
  intros Hr. unfold unreferenced_fallback, py_bind at 1, py_get.
  set (used := Np.unique (Np.flatten_rows (faces m))).
  assert (Forall (fun i => 0 <= i < Z.of_nat (length (vertices m))) used) as Hused.
  { apply Forall_forall. intros i Hi. apply (proj1 (elem_of_unique _ _)) in Hi.
    unfold indices_in_range in Hr. rewrite Forall_forall in Hr. exact (Hr i Hi). }
  destruct (put_in_range used (replicate (length (vertices m)) (-1))
              (Np.arange (length used))) as (ni & Hput & Hnilen & Hni & _).
  { by rewrite length_replicate. } { apply NoDup_remove_dups. }
  { unfold Np.arange. rewrite length_seqZ. lia. }
  destruct (take_in_range (vertices m) used Hused) as (vs & Htake & Hvslen & Hvs).
  unfold py_bind, py_lift. rewrite Hput, Htake. simpl.
  assert (forall a, a ∈ Np.flatten_rows (faces m) ->
            exists k : nat, used !! k = Some a /\ Np.index ni a = Ok (Z.of_nat k)) as Hre.
  { intros a Ha. assert (a ∈ used) as Hau by (by apply elem_of_unique).
    apply list_elem_of_lookup in Hau as [k Hk]. exists k. split; [done|].
    rewrite Forall_forall in Hused. pose proof (Hused a (list_elem_of_lookup_2 _ _ _ Hk)).
    replace a with (Z.of_nat (Z.to_nat a)) at 1 by lia. apply index_nat.
    rewrite (Hni k a Hk). unfold Np.arange.
    apply lookup_seqZ. apply lookup_lt_Some in Hk. lia. }
  destruct (Np.take_rows ni (faces m)) as [fs'|e] eqn:Hrows.
  2:{ assert (is_ok (Np.take_rows ni (faces m)) = true) as Hok.
      { apply take_rows_is_ok. apply Forall_forall. intros a Ha.
        destruct (Hre a Ha) as (k & _ & Hk). unfold Np.index in Hk.
        by destruct (Np.norm_index (length ni) a). }
      by rewrite Hrows in Hok. }
  simpl. exists used, (mkTrimesh vs fs'). split; [done|]. split; [done|].
  split; [done|]. split; [done|]. simpl.
  apply take_rows_Ok_inv in Hrows.
  assert (forall a k, a ∈ Np.flatten_rows (faces m) -> Np.index ni a = Ok k ->
            0 <= k /\ used !! Z.to_nat k = Some a) as Hrel.
  { intros a k Ha Hk. destruct (Hre a Ha) as (k' & Hk' & Hidx).
    rewrite Hidx in Hk. injection Hk as <-. rewrite Nat2Z.id. split; [lia|done]. }
  apply Forall2_same_length_lookup in Hrows as [Hsame Hrows].
  apply Forall2_same_length_lookup. split; [done|].
  intros j f f' Hf Hf'. destruct (Hrows j f f' Hf Hf') as (Ha & Hb & Hc).
  apply list_elem_of_lookup_2 in Hf. unfold renumbered.
  split; [|split]; apply Hrel; try done; apply elem_of_flatten_rows; exists f;
    (split; [done|]); apply list_elem_of_In; simpl; auto.
Qed.

Lemma renumber_back (used : list Z) (a b k : Z) :
  0 <= k /\ used !! Z.to_nat k = Some a ->
  0 <= k /\ used !! Z.to_nat k = Some b -> a = b.
Proof. intros [_ Ha] [_ Hb]. congruence. Qed.

Lemma renumber_mono (used : list Z) (a b k l : Z) :
  StronglySorted Z.lt used ->
  0 <= k /\ used !! Z.to_nat k = Some a ->
  0 <= l /\ used !! Z.to_nat l = Some b -> (a <= b <-> k <= l).
Proof.
  intros Hs [Hk Ha] [Hl Hb].
  destruct (Z.lt_trichotomy k l) as [Hlt|[->|Hgt]].
  - pose proof (StronglySorted_lt_lookup _ _ _ _ _ Hs Ha Hb). lia.
  - assert (a = b) by congruence. lia.
  - pose proof (StronglySorted_lt_lookup _ _ _ _ _ Hs Hb Ha). lia.
Qed.

(** Pass 4, the explicit algorithm: what holds of the mesh it leaves. *)
Lemma unreferenced_fallback_post m :
  indices_in_range m ->
  exists m',
    unreferenced_fallback m = (m', Ok tt) /\
    all_referenced m' /\
    indices_in_range m' /\
    triangles m' = triangles m /\
    (forall v, v ∈ vertices m' -> v ∈ vertices m) /\
    (length (vertices m') <= length (vertices m))%nat /\
    (no_degenerate m -> no_degenerate m') /\
    (no_duplicate m -> no_duplicate m').
Proof.
  intros Hr.
  destruct (unreferenced_fallback_renumbers m Hr)
    as (used & m' & Heq & Hu & Hlen & Hvs & Hfs).
  pose proof (unique_sorted (Np.flatten_rows (faces m))) as Hsort. rewrite <- Hu in Hsort.
  assert (Forall (fun i => 0 <= i < Z.of_nat (length (vertices m))) used) as Hused.
  { apply Forall_forall. intros i Hi. rewrite Hu in Hi.
    apply (proj1 (elem_of_unique _ _)) in Hi.
    unfold indices_in_range in Hr. rewrite Forall_forall in Hr. apply (Hr i Hi). }
  exists m'. split; [done|]. split.
  { unfold all_referenced. apply Forall_forall. intros k Hk%elem_of_seq.
    destruct (lookup_lt_is_Some_2 used k) as [a Ha]; [lia|].
    assert (a ∈ Np.flatten_rows (faces m)) as Hin.
    { apply elem_of_unique. rewrite <- Hu. by eapply list_elem_of_lookup_2. }
    apply elem_of_flatten_rows in Hin as (f & Hf & Hin).
    apply list_elem_of_lookup in Hf as [j Hj].
    destruct (Forall2_lookup_l _ _ _ _ _ Hfs Hj) as (f' & Hf' & Hff').
    apply elem_of_flatten_rows. exists f'. split; [by eapply list_elem_of_lookup_2|].
    destruct Hff' as ((?&Ea) & (?&Eb) & (?&Ec)).
    assert (forall k' : Z, 0 <= k' -> used !! Z.to_nat k' = Some a -> k' = Z.of_nat k)
      as Hsame.
    { intros k' Hk' E. destruct (decide (Z.to_nat k' = k)) as [<-|Hne]; [lia|].
      exfalso. destruct (decide (Z.to_nat k' < k)%nat).
      - pose proof (StronglySorted_lt_lookup _ _ _ _ _ Hsort E Ha). lia.
      - pose proof (StronglySorted_lt_lookup _ _ _ _ _ Hsort Ha E). lia. }
    apply list_elem_of_In in Hin. simpl in Hin.
    destruct Hin as [<-|[<-|[<-|[]]]].
    - rewrite <- (Hsame _ H Ea). apply list_elem_of_In; simpl; auto.
    - rewrite <- (Hsame _ H0 Eb). apply list_elem_of_In; simpl; auto.
    - rewrite <- (Hsame _ H1 Ec). apply list_elem_of_In; simpl; auto. }
  split.
  { apply indices_in_range_faces. apply Forall_forall. intros f' Hf'.
    apply list_elem_of_lookup in Hf' as [j Hj].
    destruct (Forall2_lookup_r _ _ _ _ _ Hfs Hj) as (f & Hf & ((?&Ea) & (?&Eb) & (?&Ec))).
    apply lookup_lt_Some in Ea, Eb, Ec. lia. }
  split.
  { unfold triangles. symmetry. apply Forall2_map_eq.
    eapply Forall2_impl; [exact Hfs|]. intros f f' ((?&Ea) & (?&Eb) & (?&Ec)).
    unfold triangle, corner. by rewrite (Hvs _ _ Ea), (Hvs _ _ Eb), (Hvs _ _ Ec). }
  split.
  { intros v Hv. apply list_elem_of_lookup in Hv as [k Hk].
    assert (k < length used)%nat as Hlt by (apply lookup_lt_Some in Hk; lia).
    destruct (lookup_lt_is_Some_2 used k Hlt) as [a Ha].
    rewrite (Hvs _ _ Ha) in Hk. by eapply list_elem_of_lookup_2. }
  split.
  { rewrite Hlen. assert (used ⊆+ seqZ 0 (Z.of_nat (length (vertices m)))) as Hsub.
    { apply NoDup_submseteq; [rewrite Hu; apply NoDup_remove_dups|].
      intros x Hx. rewrite Forall_forall in Hused. apply elem_of_seqZ.
      specialize (Hused x Hx). lia. }
    apply submseteq_length in Hsub. rewrite length_seqZ in Hsub. lia. }
  split.
  - unfold no_degenerate. eapply renumbered_no_degenerate; [|exact Hfs].
    intros a b k. apply renumber_back.
  - unfold no_duplicate. eapply renumbered_no_duplicate; [| |exact Hfs].
    + intros a b k. apply renumber_back.
    + intros a b k l. by apply renumber_mono.
Qed.

(** X10.  Pass 4, the explicit algorithm, on a mesh whose face indices
    all name a vertex: afterwards every vertex is used by some face,
    there are as many faces as before and each joins the same three
    points, no vertex is new, and no degenerate or duplicate face has
    appeared. *)
Theorem unreferenced_fallback_result m :
  indices_in_range m ->
  exists m',
    unreferenced_fallback m = (m', Ok tt) /\
    all_referenced m' /\
    indices_in_range m' /\
    triangles m' = triangles m /\
    length (faces m') = length (faces m) /\
    (forall v, v ∈ vertices m' -> v ∈ vertices m) /\
    (length (vertices m') <= length (vertices m))%nat /\
    (no_degenerate m -> no_degenerate m') /\
    (no_duplicate m -> no_duplicate m').
Proof.
  intros Hr. destruct (unreferenced_fallback_post m Hr)
    as (m' & Heq & Href & Hr' & Ht & Hv & Hlen & Hnd & Hdup).
  exists m'. do 4 (split; [done|]). split; [|done].
  apply (f_equal length) in Ht. unfold triangles in Ht.
  by rewrite !length_map in Ht.
Qed.

End PassResults2.

Section CleanupResult.
Context {F : Type} {ops : CoordOps F}.
Implicit Types (m : Trimesh F) (f g : Face).

Lemma compress_elem_of {A} (mask : list bool) (l : list A) (x : A) :
  x ∈ Np.compress mask l -> x ∈ l.
Proof.
  intros [k Hk]%list_elem_of_lookup.
  destruct (compress_lookup_inv _ _ _ _ Hk) as (i & Hi & _). by eapply list_elem_of_lookup_2.
Qed.

(** The faces that the explicit duplicate pass keeps have pairwise
    different canonical forms. *)
Lemma first_of_its_form_NoDup (mask : list bool) (fs : list Face) :
  (forall i, mask !! i = Some true <-> first_of_its_form fs i) ->
  NoDup (map canonical_form (Np.compress mask fs)).
Proof.
  intros Hmask. apply NoDup_alt. intros i j x.
  rewrite !list_lookup_fmap.
  destruct (Np.compress mask fs !! i) as [fi|] eqn:Hi; [|done].
  destruct (Np.compress mask fs !! j) as [fj|] eqn:Hj; [|done].
  simpl. intros [= <-] [= E].
  apply compress_lookup_inv in Hi as (pi & Hpi & Hmi & ->).
  apply compress_lookup_inv in Hj as (pj & Hpj & Hmj & ->).
  destruct (Hmask pi) as [Hfi _]. destruct (Hmask pj) as [Hfj _].
  destruct (Hfi Hmi) as (fi' & Hfi' & Hfirst_i).
  destruct (Hfj Hmj) as (fj' & Hfj' & Hfirst_j).
  assert (fi' = fi) as -> by congruence. assert (fj' = fj) as -> by congruence.
  destruct (Nat.lt_trichotomy pi pj) as [Hlt|[->|Hgt]]; [|done|].
  - exfalso. by apply (Hfirst_j pi fi Hlt Hpi).
  - exfalso. by apply (Hfirst_i pj fj Hgt Hpj).
Qed.

Lemma sub_faces_in_range m (fs : list Face) :
  indices_in_range m -> (forall f, f ∈ fs -> f ∈ faces m) ->
  indices_in_range (mkTrimesh (vertices m) fs).
Proof.
  intros Hr Hsub. apply indices_in_range_faces. apply indices_in_range_faces in Hr.
  simpl. rewrite Forall_forall in *. intros f Hf. apply Hr, Hsub, Hf.
Qed.

Lemma filter_length_le {A} (p : A -> bool) (l : list A) :
  (length (List.filter p l) <= length l)%nat.
Proof. induction l as [|a l IH]; simpl; [lia|]. destruct (p a); simpl; lia. Qed.

(** The five passes in their explicit form, one after the other. *)
Lemma cleanup_mesh_explicit_post (merge : Py (Trimesh F) unit) m :
  indices_in_range m ->
  exists m',
    cleanup_mesh (bare_api merge) m = Ok m' /\
    clean m' /\
    indices_in_range m' /\
    (forall v, v ∈ vertices m' -> v ∈ vertices m) /\
    (forall t, t ∈ triangles m' -> t ∈ triangles m) /\
    (length (vertices m') <= length (vertices m))%nat /\
    (length (faces m') <= length (faces m))%nat.
Proof.
  intros Hr. unfold cleanup_mesh at 1. rewrite cleanup_passes_result.
  unfold block_normals, block_unreferenced, block_duplicate, block_degenerate,
    block_nonfinite. simpl.
  (* pass 1 *)
  destruct (nonfinite_fallback_keeps m Hr) as (m1 & E1 & Hv1 & Hr1 & Ht1).
  pose proof (all_finite_filter m m1 Hv1) as Hfin1.
  rewrite E1. cbn [fst].
  (* pass 2 *)
  rewrite degenerate_last_resort_result. cbn [fst].
  set (m2 := mkTrimesh (vertices m1) (filter (fun f => ~ degenerate f) (faces m1))).
  assert (indices_in_range m2) as Hr2.
  { apply sub_faces_in_range; [done|]. intros f Hf. by apply list_elem_of_filter in Hf as [_ ?]. }
  assert (no_degenerate m2) as Hnd2.
  { unfold no_degenerate. simpl. apply Forall_forall. intros f Hf.
    by apply list_elem_of_filter in Hf as [? _]. }
  (* pass 3 *)
  destruct (duplicate_fallback_result m2) as (mask & Hmlen & E3 & Hmask).
  rewrite E3. cbn [fst].
  set (m3 := mkTrimesh (vertices m2) (Np.compress mask (faces m2))).
  assert (indices_in_range m3) as Hr3.
  { apply sub_faces_in_range; [done|]. intros f. apply compress_elem_of. }
  assert (no_degenerate m3) as Hnd3.
  { unfold no_degenerate. simpl. by apply compress_Forall. }
  assert (no_duplicate m3) as Hdup3.
  { unfold no_duplicate. simpl. by apply first_of_its_form_NoDup. }
  (* pass 4 *)
  destruct (unreferenced_fallback_post m3 Hr3)
    as (m4 & E4 & Href4 & Hr4 & Ht4 & Hv4 & Hlen4 & Hnd4 & Hdup4).
  rewrite E4. cbn [fst].
  assert (all_finite m4) as Hfin4.
  { unfold all_finite. apply Forall_forall. intros v Hv%Hv4.
    unfold all_finite in Hfin1. rewrite Forall_forall in Hfin1. by apply Hfin1. }
  assert (clean m4) as Hclean.
  { split; [done|]. split; [by apply Hnd4|]. split; [by apply Hdup4|].
    split; [by apply indices_in_range_nonneg|done]. }
  exists m4. split; [done|]. split; [done|]. split; [done|].
  split.
  { intros v Hv%Hv4. simpl in Hv. rewrite Hv1 in Hv.
    by apply list_elem_of_In, filter_In in Hv as [?%list_elem_of_In _]. }
  split.
  { intros t. rewrite Ht4. unfold triangles at 1. simpl.
    intros (f & -> & Hf)%list_elem_of_fmap.
    apply compress_elem_of in Hf. apply list_elem_of_filter in Hf as [_ Hf].
    assert (triangle m1 f ∈ triangles m1) as Hin.
    { unfold triangles. apply list_elem_of_fmap. by exists f. }
    rewrite Ht1 in Hin. apply list_elem_of_fmap in Hin as (g & Eg & Hg).
    apply list_elem_of_In, filter_In in Hg as [Hg%list_elem_of_In _].
    change (triangle m3 f) with (triangle m1 f). rewrite Eg.
    unfold triangles. apply list_elem_of_fmap. by exists g. }
  split.
  { etrans; [exact Hlen4|]. simpl. rewrite Hv1. apply filter_length_le. }
  assert (length (faces m4) = length (faces m3)) as ->.
  { apply (f_equal length) in Ht4. unfold triangles in Ht4.
    by rewrite !length_map in Ht4. }
  simpl. etrans; [apply compress_length_le|].
  etrans; [apply length_filter|].
  apply (f_equal length) in Ht1. unfold triangles in Ht1.
  rewrite !length_map in Ht1. rewrite Ht1. apply filter_length_le.
Qed.

(** X11.  On a mesh whose face indices all name a vertex, and with a
    trimesh that offers none of the optional methods (whatever its
    [merge_vertices] does), [cleanup_mesh]
    returns a mesh that needs no cleaning: finite coordinates, no
    degenerate face, no two faces with the same canonical form, every
    vertex used, every index in range.  Nothing is invented: every
    vertex and every triangle of the result is one of the input, and
    neither count grows.  Cleaning the result once more gives it
    back. *)
Theorem cleanup_mesh_explicit_result (merge : Py (Trimesh F) unit) m :
  indices_in_range m ->
  exists m',
    cleanup_mesh (bare_api merge) m = Ok m' /\
    clean m' /\
    indices_in_range m' /\
    (forall v, v ∈ vertices m' -> v ∈ vertices m) /\
    (forall t, t ∈ triangles m' -> t ∈ triangles m) /\
    (length (vertices m') <= length (vertices m))%nat /\
    (length (faces m') <= length (faces m))%nat /\
    cleanup_mesh (bare_api merge) m' = Ok m'.
Proof.
  intros Hr. destruct (cleanup_mesh_explicit_post merge m Hr)
    as (m' & Heq & Hclean & Hr' & Hv & Ht & Hlv & Hlf).
  exists m'. do 7 (split; [done|]).
  unfold cleanup_mesh. rewrite cleanup_passes_result.
  rewrite block_nonfinite_clean, block_degenerate_clean, block_duplicate_clean,
    block_unreferenced_clean, block_normals_clean by (apply bare_api_idle || done).
  done.
Qed.

End CleanupResult.

Section ConvertOutcome.
Context {F : Type} {ops : CoordOps F}.
Variable api : TrimeshAPI F.
Implicit Types (w : World F) (m : Trimesh F).

Local Open Scope string_scope.

Lemma safe_mesh_stats_cases m :
  match vertices m with
  | [] => safe_mesh_stats m = Raise (TypeError "'NoneType' object is not subscriptable")
  | _ :: _ => exists stats, safe_mesh_stats m = Ok stats /\
                stat_vertices stats = length (vertices m) /\
                stat_faces stats = length (faces m)
  end.
Proof.
  unfold safe_mesh_stats, bounds. destruct (vertices m) as [|v vs]; [done|].
  simpl. eexists. split; [reflexivity|]. done.
Qed.

(** The stages of [convert_one] up to the export, read off one by
    one. *)
Lemma convert_one_stages (inp outp : Path) (opt : ConvertOptions F) w :
  (exists e, convert_one api inp outp opt w = (mkWorld (disk w) (clock w), Raise e)
             \/ convert_one api inp outp opt w = (mkWorld (disk w) (1 + clock w), Raise e)
             \/ convert_one api inp outp opt w = (mkWorld (disk w) (2 + clock w), Raise e)
             \/ convert_one api inp outp opt w = (mkWorld (disk w) (3 + clock w), Raise e)
             \/ convert_one api inp outp opt w = (mkWorld (disk w) (4 + clock w), Raise e)) \/
  exists m0 m1 m2 m3,
    load_stl_as_mesh inp w = (w, Ok m0) /\
    (if merge_vertices opt then api_merge_vertices api m0 = (m1, Ok tt) else m1 = m0) /\
    apply_transforms m1 opt = Ok m2 /\
    (if validate_cleanup opt then cleanup_mesh api m2 = Ok m3 else m3 = m2) /\
    (parent outp ∉ write_denied (disk w)) /\
    convert_one api inp outp opt w =
      (mkWorld (mkDisk (<[outp := ObjFile m3]> (files (disk w))) (write_denied (disk w)))
         ((if vertices m3 is [] then 5 else 6) + clock w),
       safe_mesh_stats m3).
Proof.
  destruct (convert_one api inp outp opt w) as [w' r] eqn:E.
  unfold convert_one in E. unfold py_bind at 1 in E.
  pose proof (load_read_only inp w) as Hro.
  destruct (load_stl_as_mesh inp w) as [w1 [m0|e0]]; simpl in Hro; subst w1.
  2:{ left. exists e0. left. injection E as <- <-. by destruct w. }
  unfold py_bind at 1 in E. unfold tick at 1 in E. cbn [fst snd disk clock] in E.
  assert (exists r : Exc (Trimesh F),
    (if merge_vertices opt
     then py_lift (S := World F) (match api_merge_vertices api m0 with
                   | (m, Ok _) => Ok m | (_, Raise e) => Raise e end)
     else py_ret m0) = py_lift r /\
    match r with
    | Ok m1 => if merge_vertices opt then api_merge_vertices api m0 = (m1, Ok tt)
               else m1 = m0
    | Raise _ => True
    end) as (r1 & Er1 & Hr1).
  { destruct (merge_vertices opt).
    - eexists. split; [reflexivity|].
      by destruct (api_merge_vertices api m0) as [m1 [[]|e1]].
    - by exists (Ok m0). }
  rewrite Er1 in E. clear Er1.
  unfold py_bind at 1, py_lift at 1 in E.
  destruct r1 as [m1|e1];
    [|left; exists e1; right; left; by injection E as <- <-].
  unfold py_bind at 1 in E. unfold tick at 1 in E. cbn [fst snd disk clock] in E.
  unfold py_bind at 1, py_lift at 1 in E.
  destruct (apply_transforms m1 opt) as [m2|e2] eqn:Ht;
    [|left; exists e2; right; right; left; by injection E as <- <-].
  unfold py_bind at 1 in E. unfold tick at 1 in E. cbn [fst snd disk clock] in E.
  assert (exists r : Exc (Trimesh F),
    (if validate_cleanup opt then py_lift (S := World F) (cleanup_mesh api m2)
     else py_ret m2) = py_lift r /\
    match r with
    | Ok m3 => if validate_cleanup opt then cleanup_mesh api m2 = Ok m3 else m3 = m2
    | Raise _ => True
    end) as (r3 & Er3 & Hr3).
  { destruct (validate_cleanup opt).
    - exists (cleanup_mesh api m2). split; [done|]. by destruct (cleanup_mesh api m2).
    - by exists (Ok m2). }
  rewrite Er3 in E. clear Er3.
  unfold py_bind at 1, py_lift at 1 in E.
  destruct r3 as [m3|e3];
    [|left; exists e3; right; right; right; left; by injection E as <- <-].
  unfold py_bind at 1 in E. unfold tick at 1 in E. cbn [fst snd disk clock] in E.
  unfold py_bind at 1 in E. unfold mkdir_and_export at 1 in E.
  cbn [fst snd disk clock write_denied] in E.
  case_bool_decide as Hden;
    [left; eexists; right; right; right; right; by injection E as <- <-|].
  right. exists m0, m1, m2, m3. do 5 (split; [done|]).
  unfold py_bind, tick, py_lift, py_ret in E. cbn [fst snd disk clock] in E.
  pose proof (safe_mesh_stats_cases m3) as Hs.
  destruct (vertices m3) as [|v vs].
  - rewrite Hs in *. by injection E as <- <-.
  - destruct Hs as (stats & Hs & _). rewrite Hs in *. by injection E as <- <-.
Qed.

(** X6.  When [convert_one] returns, the file it wrote holds exactly the
    mesh that the returned statistics describe: the loaded mesh after
    the optional vertex merge, the transforms and the optional cleanup,
    in this order.  The statistics count its vertices and faces, and it
    has at least one vertex. *)
Theorem convert_one_exports_what_it_reports (inp outp : Path) (opt : ConvertOptions F)
    w w' (stats : MeshStats F) :
  convert_one api inp outp opt w = (w', Ok stats) ->
  exists m0 m1 m2 m3,
    load_stl_as_mesh inp w = (w, Ok m0) /\
    (if merge_vertices opt then api_merge_vertices api m0 = (m1, Ok tt) else m1 = m0) /\
    apply_transforms m1 opt = Ok m2 /\
    (if validate_cleanup opt then cleanup_mesh api m2 = Ok m3 else m3 = m2) /\
    files (disk w') = <[outp := ObjFile m3]> (files (disk w)) /\
    safe_mesh_stats m3 = Ok stats /\
    stat_vertices stats = length (vertices m3) /\
    stat_faces stats = length (faces m3) /\
    vertices m3 <> [].
Proof.
  intros H.
  destruct (convert_one_stages inp outp opt w)
    as [(e & [E|[E|[E|[E|E]]]])|(m0 & m1 & m2 & m3 & H0 & H1 & H2 & H3 & _ & E)];
    rewrite E in H; try done.
  injection H as <- Hs. exists m0, m1, m2, m3. do 5 (split; [done|]).
  split; [done|]. pose proof (safe_mesh_stats_cases m3) as Hc.
  destruct (vertices m3) as [|v vs]; [congruence|].
  destruct Hc as (stats' & Hs' & ? & ?). assert (stats' = stats) as -> by congruence.
  done.
Qed.

(** X7.  When [convert_one] raises, the disk is as before, with one
    exception: a mesh without vertices is written to the output file
    first, and then the statistics fail with the [TypeError] of
    subscripting the missing bounds. *)
Theorem convert_one_failure_footprint (inp outp : Path) (opt : ConvertOptions F)
    w w' (e : PyExc) :
  convert_one api inp outp opt w = (w', Raise e) ->
  disk w' = disk w \/
  exists m3,
    vertices m3 = [] /\
    files (disk w') = <[outp := ObjFile m3]> (files (disk w)) /\
    e = TypeError "'NoneType' object is not subscriptable".
Proof.
  intros H.
  destruct (convert_one_stages inp outp opt w)
    as [(e' & [E|[E|[E|[E|E]]]])|(m0 & m1 & m2 & m3 & H0 & H1 & H2 & H3 & _ & E)];
    rewrite E in H; try (injection H as <- _; by left).
  injection H as <- Hs. right. exists m3.
  pose proof (safe_mesh_stats_cases m3) as Hc.
  destruct (vertices m3) as [|v vs].
  - split; [done|]. split; [done|]. congruence.
  - destruct Hc as (stats' & Hs' & _). congruence.
Qed.

End ConvertOutcome.

Section PipelineFacts.
Context {F : Type} {ops : CoordOps F}.
Implicit Types (w : World F) (m : Trimesh F).

Lemma apply_transforms_topology m (opt : ConvertOptions F) m' :
  apply_transforms m opt = Ok m' ->
  faces m' = faces m /\ length (vertices m') = length (vertices m).
Proof.
  rewrite apply_transforms_unfold. cbv zeta.
  destruct (center_to_origin opt).
  - destruct (bounds _) as [b|]; [|done]. intros [= <-]. simpl.
    by rewrite !length_map.
  - intros [= <-]. simpl. by rewrite length_map.
Qed.

Lemma safe_mesh_stats_Ok m (stats : MeshStats F) :
  safe_mesh_stats m = Ok stats ->
  stat_vertices stats = length (vertices m) /\ stat_faces stats = length (faces m).
Proof.
  intros H. pose proof (safe_mesh_stats_cases m) as Hc.
  destruct (vertices m) as [|v vs]; [congruence|].
  destruct Hc as (stats' & Hs' & ? & ?). assert (stats' = stats) as -> by congruence.
  done.
Qed.

(** X8.  With the cleanup switched on and a trimesh that offers none of
    the optional methods, whatever its [merge_vertices] does: when the
    face indices of the loaded mesh, after the merge if it is switched
    on, all name a vertex, what [convert_one] writes needs no cleaning:
    finite coordinates also after the scaling, no degenerate or
    duplicate face, every vertex used.  The statistics it returns count
    no more vertices and faces than the mesh had after the merge. *)
Theorem convert_one_exports_clean_mesh (merge : Py (Trimesh F) unit)
    (inp outp : Path) (opt : ConvertOptions F)
    w w' (m0 m1 : Trimesh F) (stats : MeshStats F) :
  validate_cleanup opt = true ->
  load_stl_as_mesh inp w = (w, Ok m0) ->
  (if merge_vertices opt then merge m0 = (m1, Ok tt) else m1 = m0) ->
  indices_in_range m1 ->
  convert_one (bare_api merge) inp outp opt w = (w', Ok stats) ->
  exists m3,
    files (disk w') !! outp = Some (ObjFile m3) /\
    clean m3 /\
    (stat_vertices stats <= length (vertices m1))%nat /\
    (stat_faces stats <= length (faces m1))%nat.
Proof.
  intros Hc Hload Hmerge Hr Hconv.
  destruct (convert_one_stages (bare_api merge) inp outp opt w)
    as [(e & [E|[E|[E|[E|E]]]])|(m0' & m1' & m2 & m3 & H0 & H1 & H2 & H3 & _ & E)];
    rewrite E in Hconv; try done.
  rewrite Hload in H0. injection H0 as <-. rewrite Hc in H3.
  assert (m1' = m1) as ->.
  { destruct (merge_vertices opt); [|congruence]. simpl in H1. congruence. }
  destruct (apply_transforms_topology _ _ _ H2) as [Hf Hv].
  assert (indices_in_range m2) as Hr2.
  { unfold indices_in_range. by rewrite Hf, Hv. }
  destruct (cleanup_mesh_explicit_post merge m2 Hr2)
    as (m3' & Heq & Hclean & _ & _ & _ & Hlv & Hlf).
  assert (m3' = m3) as -> by congruence.
  injection Hconv as <- Hs. exists m3. simpl. rewrite lookup_insert_eq.
  split; [done|]. split; [done|].
  assert (safe_mesh_stats m3 = Ok stats) as Hstats by (by destruct (vertices m3)).
  destruct (safe_mesh_stats_Ok _ _ Hstats) as [-> ->].
  rewrite <- Hv, <- Hf. done.
Qed.

End PipelineFacts.

Section RunFootprint.
Context {F : Type} {ops : CoordOps F}.
Variable api : TrimeshAPI F.
Variable opt : ConvertOptions F.
Implicit Types (w : World F) (st : World F * list (Signal F)).

Lemma untouched_refl (outs : list Path) w : untouched outs w w.
Proof. by split. Qed.

Lemma untouched_trans (outs : list Path) w1 w2 w3 :
  untouched outs w1 w2 -> untouched outs w2 w3 -> untouched outs w1 w3.
Proof.
  intros [H1 H2] [H3 H4]. split; [congruence|].
  intros p Hp. by rewrite H4, H2.
Qed.

Lemma untouched_mono (outs outs' : list Path) w w' :
  (forall p, p ∈ outs -> p ∈ outs') -> untouched outs w w' -> untouched outs' w w'.
Proof. intros Hsub [H1 H2]. split; [done|]. intros p Hp. apply H2. auto. Qed.

Lemma run_job_untouched (n i : nat) (inp outp : Path) st :
  untouched [outp] (fst st) (fst (fst (run_job api opt n i (inp, outp) st))).
Proof.
  unfold run_job, py_bind, emit, in_world, py_lift. simpl.
  destruct (same_but_convert_one api inp outp opt (fst st)) as [H1 H2].
  assert (untouched [outp] (fst st) (fst (convert_one api inp outp opt (fst st)))) as Hu.
  { split; [done|]. intros p Hp. apply not_elem_of_cons in Hp as [Hp _].
    destruct H2 as [->|[mesh ->]]; [done|]. by rewrite lookup_insert_ne. }
  destruct (convert_one api inp outp opt (fst st)) as [w' [stats|e]]; simpl in *; [|done].
  by destruct (percent i n).
Qed.

Lemma run_loop_untouched (c : option nat) (n i : nat) (jobs : list (Path * Path)) st :
  untouched (map snd jobs) (fst st) (fst (fst (run_loop api opt c n i jobs st))).
Proof.
  revert i st. induction jobs as [|[inp outp] jobs IH]; intros i st.
  { apply untouched_refl. }
  rewrite run_loop_cons. destruct (flag_raised c (clock (fst st)));
    [apply untouched_refl|].
  pose proof (run_job_untouched n i inp outp st) as Hj.
  destruct (run_job api opt n i (inp, outp) st) as [st1 [[]|e]]; simpl in Hj.
  - eapply untouched_trans.
    + eapply untouched_mono; [|exact Hj]. intros p Hp. simpl.
      apply list_elem_of_singleton in Hp as ->. apply elem_of_cons. by left.
    + eapply untouched_mono; [|apply IH]. intros p Hp. simpl.
      apply elem_of_cons. by right.
  - simpl. eapply untouched_mono; [|exact Hj]. intros p Hp. simpl.
    apply list_elem_of_singleton in Hp as ->. apply elem_of_cons. by left.
Qed.

(** X4.  [run] writes nowhere but at the output paths of its jobs:
    whether it finishes, is cancelled or fails, every other path holds
    afterwards what it held before, and no folder changes whether it
    refuses writing. *)
Theorem run_writes_only_outputs (items : list (Path * Path)) (c : option nat) w :
  let w' := fst (run api items opt c w) in
  write_denied (disk w') = write_denied (disk w) /\
  forall p, p ∉ map snd items -> files (disk w') !! p = files (disk w) !! p.
Proof.
  intros w'. subst w'. destruct items as [|job items'] eqn:Hitems; [done|].
  rewrite <- Hitems. unfold run.
  rewrite run_body_nonempty by (by rewrite Hitems).
  pose proof (run_loop_untouched c (length items) 1 items (w, header (length items)))
    as Hu.
  destruct (run_loop api opt c (length items) 1 items (w, header (length items)))
    as [st [[|]|e]]; exact Hu.
Qed.

End RunFootprint.

Section BatchSafety.
Context {F : Type} {ops : CoordOps F} {fold : CaseFold}.
Variable api : TrimeshAPI F.
Variable opt : ConvertOptions F.
Variable existing : gset Path.
Variable stat_error : Path -> option string.
Variables selected all_items : list Path.
Variable out_dir_text : string.
Variable naming_index : Z.
Variable custom_name_text : string.

(** X17.  A batch named by [_build_conversion_list] and converted by
    [run] overwrites nothing: when the namer has seen every file of
    the disk, each of these files, the inputs among them, holds after
    the run what it held before, however the run ends. *)
Theorem batch_overwrites_nothing (pairs : list (Path * Path)) (c : option nat)
    (w : World F) :
  dom (files (disk w)) ⊆ existing ->
  _build_conversion_list existing stat_error selected all_items out_dir_text naming_index
    custom_name_text = Some (Ok pairs) ->
  forall p, is_Some (files (disk w) !! p) ->
    files (disk (fst (run api pairs opt c w))) !! p = files (disk w) !! p.
Proof.
  intros Hex Hbuild p Hp.
  pose proof (run_loop_untouched api opt c (length pairs) 1 pairs
                (w, header (length pairs))) as [_ Hu].
  destruct pairs as [|job pairs'] eqn:Hpairs; [done|]. rewrite <- Hpairs in *.
  unfold run. rewrite run_body_nonempty by (by rewrite Hpairs).
  assert (p ∉ map snd pairs) as Hnot.
  { intros (q & -> & Hq)%list_elem_of_fmap. destruct q as [inp out].
    eapply namer_output_fresh; [exact Hbuild|exact Hq|].
    apply Hex. by apply elem_of_dom. }
  specialize (Hu p Hnot).
  by destruct (run_loop api opt c (length pairs) 1 pairs (w, header (length pairs)))
    as [st [[|]|e]].
Qed.

End BatchSafety.

Section PreviewFacts.
Context {F : Type} {ops : CoordOps F}.
Variable api : TrimeshAPI F.
Implicit Types (w : World F).

Local Open Scope string_scope.

Lemma preview_stats_read_only (p : Path) (opt : ConvertOptions F) :
  read_only (preview_stats api p opt).
Proof.
  intros w. unfold preview_stats, py_bind, py_lift, py_ret.
  pose proof (load_read_only p w) as Hro.
  destruct (load_stl_as_mesh p w) as [w1 [m0|e0]]; simpl in Hro; subst w1; [|done].
  destruct (merge_vertices opt).
  - destruct (api_merge_vertices api m0) as [m1 [[]|e1]]; [|done].
    by destruct (apply_transforms m1 opt).
  - by destruct (apply_transforms m0 opt).
Qed.

(** X19.  The statistics panel never raises and never touches the disk,
    whatever is selected and whatever the options are; with an empty
    list it shows nothing.  With the cleanup switched off and an output
    folder that accepts writing, it shows what the conversion of the
    previewed file will report: the same statistics when the conversion
    returns, and the text of the same exception when it raises. *)
Theorem preview_agrees_with_conversion (selected all_items : list Path)
    (opt : ConvertOptions F) w :
  fst (_update_stats_preview api selected all_items opt w) = w /\
  (exists shown, snd (_update_stats_preview api selected all_items opt w) = Ok shown) /\
  (preview_item selected all_items = None ->
   snd (_update_stats_preview api selected all_items opt w) = Ok PreviewNone) /\
  (forall p outp,
     preview_item selected all_items = Some p ->
     validate_cleanup opt = false ->
     parent outp ∉ write_denied (disk w) ->
     snd (_update_stats_preview api selected all_items opt w) =
       Ok (match snd (convert_one api p outp opt w) with
           | Ok stats => PreviewStats (name p) stats
           | Raise e =>
               PreviewFailed (name p)
                 ("Stats preview failed for " ++ name p ++ ": " ++ exc_message e)
           end)).
Proof.
  unfold _update_stats_preview.
  destruct (preview_item selected all_items) as [p|] eqn:Hp.
  2:{ split; [done|]. split; [by eexists|]. split; [done|]. by intros p outp [=]. }
  pose proof (preview_stats_read_only p opt w) as Hro.
  split; [by destruct (preview_stats api p opt w) as [w' [stats|e]]|].
  split; [destruct (preview_stats api p opt w) as [w' [stats|e]]; by eexists|].
  split; [done|].
  intros p' outp [= <-] Hc Hw.
  assert (snd (preview_stats api p opt w) = snd (convert_one api p outp opt w)) as Hsnd.
  { unfold preview_stats, convert_one. rewrite Hc.
    unfold py_bind, tick, py_lift, py_ret, mkdir_and_export.
    pose proof (load_read_only p w) as Hl.
    destruct (load_stl_as_mesh p w) as [w1 [m0|e0]]; simpl in Hl; subst w1; [|done].
    cbn [fst snd disk clock write_denied].
    destruct (merge_vertices opt).
    - destruct (api_merge_vertices api m0) as [m1 [[]|e1]]; [|done].
      destruct (apply_transforms m1 opt) as [m2|e2]; [|done].
      cbn [fst snd disk clock write_denied]. rewrite bool_decide_eq_false_2 by done.
      by destruct (safe_mesh_stats m2).
    - destruct (apply_transforms m0 opt) as [m2|e2]; [|done].
      cbn [fst snd disk clock write_denied]. rewrite bool_decide_eq_false_2 by done.
      by destruct (safe_mesh_stats m2). }
  rewrite <- Hsnd. by destruct (preview_stats api p opt w) as [w' [stats|e]].
Qed.

End PreviewFacts.

Section StartFacts.
Context {F : Type} {ops : CoordOps F} {fold : CaseFold}.
Variable worker_running : bool.
Variable existing : gset Path.
Variable stat_error : Path -> option string.
Variables selected all_items : list Path.
Variable out_dir_text : string.
Variable naming_index : Z.
Variable custom_name_text : string.
Variable opt : ConvertOptions F.

Local Open Scope string_scope.

Lemma out_name_of_Raise (n idx : nat) (inp : Path) (e : PyExc) :
  out_name_of naming_index custom_name_text n idx inp = Raise e ->
  e = ValueError "Custom name selected but no name provided." /\
  naming_index <> 0 /\ naming_index <> 1 /\ custom_base custom_name_text = "".
Proof.
  unfold out_name_of.
  destruct (Z.eqb_spec naming_index 0); [done|].
  destruct (Z.eqb_spec naming_index 1); [done|].
  destruct (Str.truthy (custom_base custom_name_text)) eqn:Ht; [done|].
  intros [= <-]. split; [done|]. split; [done|]. split; [done|].
  by destruct (custom_base custom_name_text).
Qed.

Lemma build_list_without_name :
  naming_index <> 0 -> naming_index <> 1 ->
  custom_base custom_name_text = "" -> use_items selected all_items <> [] ->
  _build_conversion_list existing stat_error selected all_items out_dir_text naming_index
    custom_name_text
  = Some (Raise (ValueError "Custom name selected but no name provided.")).
Proof.
  intros H0 H1 Hbase Hitems. unfold _build_conversion_list.
  destruct (use_items selected all_items) as [|inp items'] eqn:E; [done|]. simpl.
  rewrite out_name_of_custom by done. by rewrite Hbase.
Qed.

(** X20.  [_start_conversion] always ends: in one of its four ways, or
    with the [OSError] with which the disk refused a question of
    [_build_conversion_list], which is not caught here.  It starts a
    worker only when none is running, on the pairs that
    [_build_conversion_list] returned, which are then not empty; so the
    worker it starts never reports "No files to convert.".  With no
    worker running, the "Nothing to convert" box appears exactly for an
    empty file list, and the "Naming error" box exactly for the custom
    mode without a name and with at least one job.  On a disk that
    answers every question no exception gets through. *)
Theorem start_conversion_outcomes :
  let items := use_items selected all_items in
  let build := _build_conversion_list existing stat_error selected all_items out_dir_text
                 naming_index custom_name_text in
  exists r,
    _start_conversion worker_running existing stat_error selected all_items out_dir_text
      naming_index custom_name_text opt = Some r /\
    match r with
    | Ok AlreadyConverting => worker_running = true
    | Ok (NamingError msg) =>
        worker_running = false /\
        msg = "Custom name selected but no name provided." /\
        naming_index <> 0 /\ naming_index <> 1 /\
        custom_base custom_name_text = "" /\
        items <> []
    | Ok NothingToConvert =>
        worker_running = false /\ items = []
    | Ok (WorkerStarted pairs opt') =>
        worker_running = false /\ opt' = opt /\ pairs <> [] /\
        build = Some (Ok pairs) /\
        length pairs = length items /\
        forall (api : TrimeshAPI F) (c : option nat) (w : World F) (ok : bool),
          SigDone ok "No files to convert." ∉ snd (run api pairs opt c w)
    | Raise e =>
        worker_running = false /\ items <> [] /\
        build = Some (Raise e) /\
        exists msg p, e = OSError msg /\ stat_error p = Some msg
    end /\
    (worker_running = true -> r = Ok AlreadyConverting) /\
    (worker_running = false -> items = [] -> r = Ok NothingToConvert) /\
    (worker_running = false -> naming_index <> 0 -> naming_index <> 1 ->
     custom_base custom_name_text = "" -> items <> [] ->
     r = Ok (NamingError "Custom name selected but no name provided.")) /\
    ((forall p, stat_error p = None) -> exists outcome, r = Ok outcome).
Proof.
  intros items build. unfold _start_conversion.
  destruct worker_running.
  { exists (Ok AlreadyConverting). by repeat split; eauto. }
  destruct (build_conversion_list_spec existing stat_error selected all_items out_dir_text
              naming_index custom_name_text) as (r0 & Heq & Hr).
  fold items in Hr. fold build in Heq. fold build.
  assert (naming_index <> 0 -> naming_index <> 1 ->
          custom_base custom_name_text = "" -> items <> [] ->
          r0 = Raise (ValueError "Custom name selected but no name provided.")) as Hnoname.
  { intros H0 H1 Hb Hi. pose proof (build_list_without_name H0 H1 Hb Hi) as Hb'.
    fold build in Hb'. congruence. }
  rewrite Heq. destruct r0 as [pairs|e].
  - destruct Hr as (given & Hlen & _ & _).
    destruct pairs as [|pr pairs'] eqn:Hp.
    + assert (items = []) as Hnil by (by destruct items).
      exists (Ok NothingToConvert). split; [done|]. split; [done|].
      split; [done|]. split; [done|]. split; [|by eexists].
      intros _ H0 H1 Hb Hi. by specialize (Hnoname H0 H1 Hb Hi).
    + rewrite <- Hp in *. assert (pairs <> []) as Hne by (by rewrite Hp).
      exists (Ok (WorkerStarted pairs opt)). split; [by rewrite Hp|].
      split.
      { do 5 (split; [done|]). intros api c w ok Hin.
        destruct (run_signals_shape api opt pairs c w)
          as (pre & ok' & msg & Hrun & Hnd & [(? & _)|(_ & Hcase)]); [done|].
        rewrite Hrun in Hin. apply elem_of_app in Hin as [Hin|Hin]; [by eapply Hnd|].
        apply list_elem_of_singleton in Hin. injection Hin as <- <-.
        destruct Hcase as [[_ H]|[[_ H]|[_ [e H]]]]; done. }
      split; [done|]. split.
      { intros _ Hnil. rewrite Hnil in Hlen. by destruct pairs. }
      split; [|by eexists].
      intros _ H0 H1 Hb Hi. by specialize (Hnoname H0 H1 Hb Hi).
  - destruct Hr as (i & inp & given & Hi & _ & _ & [He|(stem_ & msg & Hs & -> & Href)]).
    + apply out_name_of_Raise in He as (-> & H0 & H1 & Hbase).
      assert (items <> []) as Hne by (intros Hnil; by rewrite Hnil in Hi).
      exists (Ok (NamingError "Custom name selected but no name provided.")).
      split; [done|]. split; [done|]. split; [done|]. split; [done|].
      split; [done|]. by eexists.
    + assert (items <> []) as Hne by (intros Hnil; by rewrite Hnil in Hi).
      destruct Href as (k & _ & Hmsg & _).
      exists (Raise (OSError msg)). split; [done|]. split.
      { split; [done|]. split; [done|]. split; [done|]. by eexists _, _. }
      split; [done|]. split; [done|]. split.
      * intros _ H0 H1 Hb _. by specialize (Hnoname H0 H1 Hb Hne).
      * intros Hdisk. by rewrite Hdisk in Hmsg.
Qed.

End StartFacts.

(** ** The further properties at concrete inputs *)

Lemma run_success_means_all_written_witness :
  last (snd (run (bare_api Ex.merge_nothing) Ex.three_jobs (Ex.opts true) None Ex.world0)) =
    Some (SigDone true "Converted 3 file(s) successfully.") /\
  is_Some (files (disk (fst (run (bare_api Ex.merge_nothing) Ex.three_jobs (Ex.opts true) None Ex.world0)))
             !! Ex.obj "b.obj").
Proof.
  assert (last (snd (run (bare_api Ex.merge_nothing) Ex.three_jobs (Ex.opts true) None Ex.world0)) =
            Some (SigDone true "Converted 3 file(s) successfully.")) as Hlast
    by (vm_compute; reflexivity).
  split; [exact Hlast|].
  apply (run_success_means_all_written _ _ _ _ _ _ Hlast) with (inp := Ex.stl "b.stl").
  by_computation.
Defined.

Lemma run_aborts_at_first_failure_witness :
  let st1 := fst (run_loop (bare_api Ex.merge_nothing) (Ex.opts true) None 3 1
                    [(Ex.stl "a.stl", Ex.obj "a.obj")] (Cases.world_missing_b, header 3)) in
  snd (run (bare_api Ex.merge_nothing) Ex.three_jobs (Ex.opts true) None Cases.world_missing_b) =
    (snd st1 ++
     [SigLog (LogText (nl ++ "[2/3] Loading: b.stl"));
      SigLog (LogTraceback (OSError "file does not exist"));
      SigDone false "Failed: file does not exist"])%list /\
  is_Some (files (disk (fst (run (bare_api Ex.merge_nothing) Ex.three_jobs (Ex.opts true) None
                               Cases.world_missing_b))) !! Ex.obj "a.obj").
Proof.
  intros st1.
  assert (run_loop (bare_api Ex.merge_nothing) (Ex.opts true) None 3 1 [(Ex.stl "a.stl", Ex.obj "a.obj")]
            (Cases.world_missing_b, header 3) = (st1, Ok true)) as Hdone
    by (vm_compute; reflexivity).
  assert (convert_one (bare_api Ex.merge_nothing) (Ex.stl "b.stl") (Ex.obj "b.obj") (Ex.opts true) (fst st1)
            = (fst st1, Raise (OSError "file does not exist"))) as Hfail
    by (vm_compute; reflexivity).
  destruct (run_aborts_at_first_failure (bare_api Ex.merge_nothing) (Ex.opts true) None
              [(Ex.stl "a.stl", Ex.obj "a.obj")] [(Ex.stl "c.stl", Ex.obj "c.obj")]
              (Ex.stl "b.stl") (Ex.obj "b.obj") Cases.world_missing_b st1 (fst st1)
              (OSError "file does not exist") Hdone eq_refl Hfail) as (Hrun & _ & Hout).
  change Ex.three_jobs with
    ([(Ex.stl "a.stl", Ex.obj "a.obj")] ++
     (Ex.stl "b.stl", Ex.obj "b.obj") :: [(Ex.stl "c.stl", Ex.obj "c.obj")])%list.
  rewrite Hrun. split; [reflexivity|].
  apply (Hout (Ex.stl "a.stl")). by_computation.
Defined.

Lemma convert_one_exports_what_it_reports_witness :
  exists w' stats m3,
    convert_one (bare_api Ex.merge_nothing) (Ex.stl "b.stl") (Ex.obj "b.obj") Ex.opts_clean Ex.world0
      = (w', Ok stats) /\
    files (disk w') = <[Ex.obj "b.obj" := ObjFile m3]> (files (disk Ex.world0)) /\
    stat_vertices stats = length (vertices m3) /\
    stat_faces stats = length (faces m3).
Proof.
  destruct (convert_one (bare_api Ex.merge_nothing) (Ex.stl "b.stl") (Ex.obj "b.obj") Ex.opts_clean
              Ex.world0) as [w' [stats|e]] eqn:E; [|by vm_compute in E].
  destruct (convert_one_exports_what_it_reports (bare_api Ex.merge_nothing) _ _ _ _ _ _ E)
    as (m0 & m1 & m2 & m3 & _ & _ & _ & _ & Hfiles & _ & Hv & Hf & _).
  exists w', stats, m3. split; [reflexivity|]. split; [exact Hfiles|].
  split; [exact Hv|exact Hf].
Defined.

Lemma convert_one_failure_footprint_witness :
  exists w' e,
    convert_one (bare_api Ex.merge_nothing) (Ex.stl "e.stl") (Ex.obj "e.obj") (Ex.opts false)
      Ex.world_empty_stl = (w', Raise e) /\
    (disk w' = disk Ex.world_empty_stl \/
     exists m3,
       vertices m3 = [] /\
       files (disk w') = <[Ex.obj "e.obj" := ObjFile m3]> (files (disk Ex.world_empty_stl)) /\
       e = TypeError "'NoneType' object is not subscriptable").
Proof.
  destruct (convert_one (bare_api Ex.merge_nothing) (Ex.stl "e.stl") (Ex.obj "e.obj") (Ex.opts false)
              Ex.world_empty_stl) as [w' [stats|e]] eqn:E; [by vm_compute in E|].
  exists w', e. split; [reflexivity|].
  exact (convert_one_failure_footprint (bare_api Ex.merge_nothing) _ _ _ _ _ _ E).
Defined.

Lemma namer_outputs_collision_free_witness :
  exists pairs,
    _build_conversion_list (fold := ascii_fold) Cases.on_world0 Ex.no_stat_error
      [] [Ex.stl "a.stl"; Ex.stl "A.stl"] "" 0 "" = Some (Ok pairs) /\
    map fst pairs = [Ex.stl "a.stl"; Ex.stl "A.stl"] /\
    exists given,
      length given = length pairs /\
      NoDup (map (py_lower (CaseFold := ascii_fold)) given).
Proof.
  assert (_build_conversion_list (fold := ascii_fold) Cases.on_world0 Ex.no_stat_error
            [] [Ex.stl "a.stl"; Ex.stl "A.stl"] "" 0 ""
          = Some (Ok [(Ex.stl "a.stl", mkPath "/in" "a.obj");
                      (Ex.stl "A.stl", mkPath "/in" "A_1.obj")])) as Hbuild
    by (vm_compute; reflexivity).
  eexists. split; [exact Hbuild|].
  destruct (namer_outputs_collision_free (fold := ascii_fold) _ _ _ _ _ _ _ _ Hbuild)
    as (Hfst & given & Hlen & Hnodup & _).
  split; [exact Hfst|]. exists given. split; [exact Hlen|exact Hnodup].
Defined.

(** Two inputs whose names differ in the case of an accented letter, in
    one folder: the second one is renamed. *)
Example namer_folds_accented_letters :
  py_lower (CaseFold := latin_fold) "É.obj" = "é.obj"%string /\
  _build_conversion_list (fold := latin_fold) ∅ Ex.no_stat_error
    [] [mkPath "/in" "É.stl"; mkPath "/in" "é.stl"] "" 0 ""
    = Some (Ok [(mkPath "/in" "É.stl", mkPath "/in" "É.obj");
                (mkPath "/in" "é.stl", mkPath "/in" "é_1.obj")]).
Proof. split; vm_compute; reflexivity. Qed.

(** A name too long for the file system: [exists()] raises, and so does
    the method. *)
Example namer_passes_on_disk_errors :
  _build_conversion_list (fold := ascii_fold) ∅
    (fun p => if String.eqb (name p) "long.obj" then Some "File name too long"%string
              else None)
    [] [mkPath "/in" "a.stl"; mkPath "/in" "long.stl"] "" 0 ""
    = Some (Raise (OSError "File name too long")).
Proof. vm_compute; reflexivity. Qed.

(** A custom name that holds slashes is read by pathlib as a path: a
    name that begins with one leaves the chosen folder. *)
Example namer_follows_separators :
  _build_conversion_list (fold := ascii_fold) ∅ Ex.no_stat_error
    [] [Ex.stl "a.stl"] "/out" 2 "/etc/part"
    = Some (Ok [(Ex.stl "a.stl", mkPath "/etc" "part.obj")]) /\
  _build_conversion_list (fold := ascii_fold) ∅ Ex.no_stat_error
    [] [Ex.stl "a.stl"] "/out" 2 "sub/part"
    = Some (Ok [(Ex.stl "a.stl", mkPath "/out/sub" "part.obj")]).
Proof. split; vm_compute; reflexivity. Qed.

Lemma plain_naming_never_fails_witness :
  exists pairs,
    _build_conversion_list (fold := ascii_fold) Cases.on_world0 Ex.no_stat_error
      [] [Ex.stl "a.stl"; Ex.stl "b.stl"] "/out" 1 "" = Some (Ok pairs) /\
    length pairs = 2%nat.
Proof.
  destruct (plain_naming_never_fails (fold := ascii_fold) Cases.on_world0 Ex.no_stat_error
              [] [Ex.stl "a.stl"; Ex.stl "b.stl"] "/out" 1 "" (or_intror eq_refl))
    as (r & Heq & Hr & Hok).
  destruct (Hok (fun _ => eq_refl)) as [pairs ->].
  exists pairs. split; [exact Heq|exact (proj1 Hr)].
Defined.

Lemma custom_stems_distinct_witness :
  out_name_of 2 "export" 3 7 (Ex.stl "a.stl") = Ok "export_07"%string /\
  7%nat = 7%nat /\
  "export_07"%string = (custom_base "export" ++ "_" ++ Str.fmt_02d 7)%string /\
  (2 <= String.length (Str.fmt_02d 7))%nat.
Proof.
  split; [reflexivity|].
  apply (custom_stems_distinct 2 "export" 3 7 7 (Ex.stl "a.stl") (Ex.stl "b.stl")
           "export_07" ltac:(discriminate) ltac:(discriminate) ltac:(lia)
           ltac:(reflexivity) ltac:(reflexivity)).
Defined.

Lemma batch_overwrites_nothing_witness :
  files (disk (fst (run (bare_api Ex.merge_nothing)
                      [(Ex.stl "a.stl", mkPath "/in" "a.obj");
                       (Ex.stl "b.stl", mkPath "/in" "b.obj")]
                      (Ex.opts true) None Ex.world0))) !! Ex.stl "a.stl"
    = files (disk Ex.world0) !! Ex.stl "a.stl".
Proof.
  assert (dom (files (disk Ex.world0)) ⊆ Cases.on_world0) as Hdom by by_computation.
  assert (_build_conversion_list (fold := ascii_fold) Cases.on_world0 Ex.no_stat_error
            [] [Ex.stl "a.stl"; Ex.stl "b.stl"] "" 0 ""
          = Some (Ok [(Ex.stl "a.stl", mkPath "/in" "a.obj");
                      (Ex.stl "b.stl", mkPath "/in" "b.obj")])) as Hbuild
    by (vm_compute; reflexivity).
  apply (batch_overwrites_nothing (fold := ascii_fold) (bare_api Ex.merge_nothing)
           (Ex.opts true) _ _ _ _ _ _ _ _ None _ Hdom Hbuild).
  by_computation.
Defined.

Lemma nonfinite_fallback_result_witness :
  exists m',
    nonfinite_fallback Cases.spiked = (m', Ok tt) /\
    length (vertices m') = 3%nat /\
    triangles m' = [triangle Cases.spiked (0, 2, 3)].
Proof.
  assert (indices_in_range Cases.spiked) as Hr by by_computation.
  destruct (nonfinite_fallback_result Cases.spiked Hr) as (m' & Heq & Hv & _ & _ & Ht).
  exists m'. split; [exact Heq|]. split.
  - rewrite Hv. reflexivity.
  - rewrite Ht. reflexivity.
Defined.

Lemma unreferenced_fallback_result_witness :
  exists m',
    unreferenced_fallback Ex.loose_vertex = (m', Ok tt) /\
    all_referenced m' /\ triangles m' = triangles Ex.loose_vertex.
Proof.
  assert (indices_in_range Ex.loose_vertex) as Hr by by_computation.
  destruct (unreferenced_fallback_result Ex.loose_vertex Hr)
    as (m' & Heq & Href & _ & Ht & _).
  exists m'. split; [exact Heq|]. split; [exact Href|exact Ht].
Defined.

Lemma cleanup_mesh_explicit_result_witness :
  exists m',
    cleanup_mesh (bare_api Ex.merge_nothing) Ex.untidy = Ok m' /\ clean m' /\
    cleanup_mesh (bare_api Ex.merge_nothing) m' = Ok m'.
Proof.
  assert (indices_in_range Ex.untidy) as Hr by by_computation.
  destruct (cleanup_mesh_explicit_result Ex.merge_nothing Ex.untidy Hr)
    as (m' & Heq & Hclean & _ & _ & _ & _ & _ & Hagain).
  exists m'. split; [exact Heq|]. split; [exact Hclean|exact Hagain].
Defined.

Lemma preview_agrees_with_conversion_witness :
  exists stats,
    snd (convert_one (bare_api Ex.merge_nothing) (Ex.stl "a.stl") (Ex.obj "a.obj") (Ex.opts true) Ex.world0)
      = Ok stats /\
    _update_stats_preview (bare_api Ex.merge_nothing) [] [Ex.stl "a.stl"; Ex.stl "b.stl"] (Ex.opts true)
      Ex.world0 = (Ex.world0, Ok (PreviewStats "a.stl" stats)).
Proof.
  destruct (preview_agrees_with_conversion (bare_api Ex.merge_nothing)
              [] [Ex.stl "a.stl"; Ex.stl "b.stl"] (Ex.opts true) Ex.world0)
    as (Hfst & _ & _ & Hsnd).
  specialize (Hsnd (Ex.stl "a.stl") (Ex.obj "a.obj") eq_refl eq_refl
                ltac:(by_computation)).
  destruct (snd (convert_one (bare_api Ex.merge_nothing) (Ex.stl "a.stl") (Ex.obj "a.obj") (Ex.opts true)
                   Ex.world0)) as [stats|e] eqn:E; [|by vm_compute in E].
  exists stats. split; [reflexivity|].
  destruct (_update_stats_preview (bare_api Ex.merge_nothing) [] [Ex.stl "a.stl"; Ex.stl "b.stl"]
              (Ex.opts true) Ex.world0) as [w' r].
  simpl in Hfst, Hsnd. by rewrite Hfst, Hsnd.
Defined.

Lemma namer_without_collision_witness :
  exists pairs,
    _build_conversion_list (fold := ascii_fold) Cases.on_world0 Ex.no_stat_error
      [] [Ex.stl "a.stl"; Ex.stl "b.stl"] "" 1 "" = Some (Ok pairs) /\
    pairs !! 1%nat = Some (Ex.stl "b.stl", mkPath "/in" "b_converted.obj").
Proof.
  assert (_build_conversion_list (fold := ascii_fold) Cases.on_world0 Ex.no_stat_error
            [] [Ex.stl "a.stl"; Ex.stl "b.stl"] "" 1 ""
          = Some (Ok [(Ex.stl "a.stl", mkPath "/in" "a_converted.obj");
                      (Ex.stl "b.stl", mkPath "/in" "b_converted.obj")])) as Hbuild
    by (vm_compute; reflexivity).
  eexists. split; [exact Hbuild|].
  destruct (namer_without_collision (fold := ascii_fold) _ _ _ _ _ _ _ _ Hbuild) with
    (i := 1%nat) (inp := Ex.stl "b.stl") (out := mkPath "/in" "b_converted.obj")
    as (s & Hs & Hout).
  - intros i inp s Hi Hs.
    destruct i as [|[|i]]; [| |discriminate Hi].
    + injection Hi as <-. injection Hs as <-. by_computation.
    + injection Hi as <-. injection Hs as <-. by_computation.
  - intros i j inp inp' s s' Hlt Hi Hj Hs Hs'.
    destruct i as [|[|i]]; [lia| |discriminate Hi].
    destruct j as [|j]; [|lia].
    injection Hi as <-. injection Hj as <-. injection Hs as <-. injection Hs' as <-.
    vm_compute. discriminate.
  - reflexivity.
  - reflexivity.
Defined.

Lemma custom_batch_numbering_witness :
  _build_conversion_list (fold := ascii_fold) ∅ Ex.no_stat_error
    [] [Ex.stl "a.stl"; Ex.stl "b.stl"] "/out" 2 " part "
    = Some (Ok [(Ex.stl "a.stl", Ex.obj "part_01.obj");
                (Ex.stl "b.stl", Ex.obj "part_02.obj")]).
Proof.
  apply (custom_batch_numbering (fold := ascii_fold) ∅ Ex.no_stat_error
           [] [Ex.stl "a.stl"; Ex.stl "b.stl"] "/out" 2 " part "
           ltac:(discriminate) ltac:(discriminate) ltac:(discriminate)
           ltac:(simpl; lia)).
  intros i inp _. apply path_exists_false.
  split; [reflexivity|apply not_elem_of_empty].
Defined.

Lemma convert_one_exports_clean_mesh_witness :
  exists w' stats m3,
    convert_one (bare_api Ex.weld) (Ex.stl "a.stl") (Ex.obj "a.obj") Ex.opts_weld Ex.world0
      = (w', Ok stats) /\
    files (disk w') !! Ex.obj "a.obj" = Some (ObjFile m3) /\
    clean m3 /\ (stat_vertices stats <= 4)%nat.
Proof.
  destruct (convert_one (bare_api Ex.weld) (Ex.stl "a.stl") (Ex.obj "a.obj") Ex.opts_weld
              Ex.world0) as [w' [stats|e]] eqn:E; [|by vm_compute in E].
  assert (indices_in_range (fst (Ex.weld Ex.tetra))) as Hr by by_computation.
  destruct (convert_one_exports_clean_mesh Ex.weld (Ex.stl "a.stl") (Ex.obj "a.obj")
              Ex.opts_weld Ex.world0 w' Ex.tetra (fst (Ex.weld Ex.tetra)) stats
              eq_refl eq_refl eq_refl Hr E)
    as (m3 & Hfile & Hclean & Hv & _).
  exists w', stats, m3. split; [reflexivity|]. split; [exact Hfile|].
  split; [exact Hclean|exact Hv].
Defined.
